(** * Diagonal Sudoku solver (solution.py): shallow embedding and verification

    The Python module is embedded function by function.  A board is a Python
    [dict] from box names to strings of candidate digits; it is modelled as an
    insertion-ordered association list.  The module-level list [assignments]
    is threaded through every function as explicit state, and Python
    exceptions ([KeyError], [ValueError], [AssertionError], [TypeError]) are
    explicit outcomes.  The [while] loop of [reduce_puzzle] and the recursion of
    [search] take a fuel argument; running out of fuel is the outcome
    [Timeout], and the termination theorems show it never happens once the
    fuel reaches a fixed bound. *)

From Stdlib Require Import String Ascii List Arith Lia Bool PeanoNat Permutation.
From Stdlib Require OrderedTypeEx.
Import ListNotations.
Open Scope string_scope.
Open Scope list_scope.
Open Scope nat_scope.

(** ** Python strings *)

(** Iterating over a [str] yields its one-character substrings. *)
Fixpoint chars (s : string) : list string :=
  match s with
  | EmptyString => []
  | String c s' => String c EmptyString :: chars s'
  end.

(** [c in s] for a character [c]. *)
Fixpoint occurs (c : ascii) (s : string) : bool :=
  match s with
  | EmptyString => false
  | String c' s' => Ascii.eqb c c' || occurs c s'
  end.

(** [sub in s]: substring test. *)
Fixpoint str_contains (sub s : string) : bool :=
  String.prefix sub s ||
  match s with
  | EmptyString => false
  | String _ s' => str_contains sub s'
  end.

(** [s.replace(old, '')]: delete the non-overlapping occurrences of [old],
    scanning from the left; [skip] counts the characters of a matched
    occurrence still to drop.  With [old = ''] the string is unchanged. *)
Fixpoint str_remove_from (old : string) (skip : nat) (s : string) : string :=
  match s with
  | EmptyString => EmptyString
  | String c s' =>
      match skip with
      | S k => str_remove_from old k s'
      | O =>
          match old with
          | EmptyString => String c (str_remove_from old 0 s')
          | String _ old' =>
              if String.prefix old s
              then str_remove_from old (String.length old') s'
              else String c (str_remove_from old 0 s')
          end
      end
  end.

Definition str_remove (old s : string) : string := str_remove_from old 0 s.

(** ** Python sets and dicts

    A [set] of strings is a duplicate-free list.  Python leaves the iteration
    order of a set unspecified; the order chosen here is the order of first
    occurrence.  The board a loop over a set produces does not depend on
    that order ([sweep_order_irrelevant]); the snapshots such a loop appends
    to the record do, and the proofs about the record use nothing but
    membership in the set. *)

Definition mem (x : string) (l : list string) : bool := existsb (String.eqb x) l.

Fixpoint pset (l : list string) : list string :=
  match l with
  | [] => []
  | x :: l' => x :: filter (fun y => negb (String.eqb y x)) (pset l')
  end.

Definition pset_diff (s t : list string) : list string :=
  filter (fun x => negb (mem x t)) s.

Definition pset_inter (s t : list string) : list string :=
  filter (fun x => mem x t) s.

(** A [dict] keeps its keys in insertion order; storing under an existing key
    keeps the key's place. *)
Definition dict (V : Type) : Type := list (string * V).

Fixpoint dict_get {V} (d : dict V) (k : string) : option V :=
  match d with
  | [] => None
  | (k', v) :: d' => if String.eqb k k' then Some v else dict_get d' k
  end.

Fixpoint dict_set {V} (d : dict V) (k : string) (v : V) : dict V :=
  match d with
  | [] => [(k, v)]
  | (k', v') :: d' =>
      if String.eqb k k' then (k', v) :: d' else (k', v') :: dict_set d' k v
  end.

Definition dict_keys {V} (d : dict V) : list string := map fst d.

(** [dict(pairs)]. *)
Definition dict_of {V} (pairs : list (string * V)) : dict V :=
  fold_left (fun d kv => dict_set d (fst kv) (snd kv)) pairs [].

(** ** Sudoku constants and topology *)

Definition letters : string := "ABCDEFGHI".
Definition digits : string := "123456789".
Definition rows : string := letters.
Definition cols : string := digits.

Definition cross (A B : string) : list string :=
  flat_map (fun a => map (fun b => (a ++ b)%string) (chars B)) (chars A).

Definition boxes : list string := cross rows cols.
Definition row_units : list (list string) := map (fun r => cross r cols) (chars rows).
Definition col_units : list (list string) := map (fun c => cross rows c) (chars cols).
Definition square_units : list (list string) :=
  flat_map (fun row => map (fun col => cross row col) ["123"; "456"; "789"])
           ["ABC"; "DEF"; "GHI"].
Definition diag_units : list (list string) :=
  [ map (fun b => (fst b ++ snd b)%string) (combine (chars rows) (chars cols));
    map (fun b => (fst b ++ snd b)%string) (combine (rev (chars rows)) (chars cols)) ].
Definition diag_boxes : list string := pset (concat diag_units).
Definition unitlist : list (list string) :=
  row_units ++ col_units ++ square_units ++ diag_units.
Definition units : dict (list (list string)) :=
  dict_of (map (fun box => (box, filter (fun unit => mem box unit) unitlist)) boxes).

Definition units_at (box : string) : list (list string) :=
  match dict_get units box with Some us => us | None => [] end.

Definition peers : dict (list string) :=
  dict_of (map (fun box => (box, pset_diff (pset (concat (units_at box))) [box])) boxes).

Definition peers_at (box : string) : list string :=
  match dict_get peers box with Some ps => ps | None => [] end.

(** [sanity_check]: the conjunction of the asserted conditions. *)
Definition sanity_check : bool :=
  (String.length rows =? 9) && (String.length cols =? 9) &&
  (length boxes =? 81) &&
  (length row_units =? 9) && (length col_units =? 9) && (length square_units =? 9) &&
  (length diag_units =? 2) && (length unitlist =? 29) &&
  (length (units_at "E5") =? 5) &&
  forallb (fun box => length (units_at box) =? 4)
          (filter (fun box => mem box (pset_diff diag_boxes ["E5"])) boxes) &&
  forallb (fun box => length (units_at box) =? 3)
          (filter (fun box => negb (mem box diag_boxes)) boxes) &&
  (length (peers_at "E5") =? 32) &&
  forallb (fun box => length (peers_at box) =? 26)
          (filter (fun box => mem box (pset_diff diag_boxes ["E5"])) boxes) &&
  forallb (fun box => length (peers_at box) =? 20)
          (filter (fun box => negb (mem box diag_boxes)) boxes).

(** ** Boards, program state, outcomes *)

Definition Board : Type := dict string.

(** Ghost history: every store [d[box] = value] into a board is logged with
    the function that issued it and the value it overwrote.  The program never
    reads the history; it only serves to count fixing events. *)
Inductive site : Type := ByAssign | ByBranch.

Record store_event : Type := mkStore {
  ev_site : site;
  ev_box : string;
  ev_old : string;
  ev_new : string
}.

Record state : Type := mkState {
  assignments : list Board;   (* the module-level list [assignments] *)
  stores : list store_event   (* ghost *)
}.

Inductive exn : Type :=
| KeyError (k : string)
| ValueError
| AssertionError
| TypeError.

Inductive outcome (A : Type) : Type :=
| Ok (a : A)
| Raise (e : exn)
| Timeout.
Arguments Ok {A} a.
Arguments Raise {A} e.
Arguments Timeout {A}.

Definition M (A : Type) : Type := state -> outcome A * state.

Definition ret {A} (a : A) : M A := fun s => (Ok a, s).

Definition bind {A B} (m : M A) (f : A -> M B) : M B :=
  fun s =>
    match m s with
    | (Ok a, s') => f a s'
    | (Raise e, s') => (Raise e, s')
    | (Timeout, s') => (Timeout, s')
    end.

Notation "x <- m ;; k" := (bind m (fun x => k))
  (at level 61, m at next level, right associativity).
Notation "m ;;; k" := (bind m (fun _ => k))
  (at level 61, right associativity).

Definition raise {A} (e : exn) : M A := fun s => (Raise e, s).
Definition timeout {A} : M A := fun s => (Timeout, s).

(** [d[k]] as an expression. *)
Definition getitem {V} (d : dict V) (k : string) : M V :=
  match dict_get d k with
  | Some v => ret v
  | None => raise (KeyError k)
  end.

(** [assignments.append(values.copy())]. *)
Definition append_assignment (values : Board) : M unit :=
  fun s => (Ok tt, mkState (assignments s ++ [values]) (stores s)).

(** [d[box] = value], logged in the ghost history. *)
Definition setitem (w : site) (values : Board) (box value : string) : M Board :=
  fun s =>
    let old := match dict_get values box with Some v => v | None => "" end in
    (Ok (dict_set values box value),
     mkState (assignments s) (stores s ++ [mkStore w box old value])).

Fixpoint foldM {A X} (f : A -> X -> M A) (l : list X) (a : A) : M A :=
  match l with
  | [] => ret a
  | x :: l' => a' <- f a x ;; foldM f l' a'
  end.

(** A list comprehension with a condition that may raise. *)
Fixpoint filterM {X} (p : X -> M bool) (l : list X) : M (list X) :=
  match l with
  | [] => ret []
  | x :: l' => b <- p x ;; r <- filterM p l' ;; ret (if b then x :: r else r)
  end.

(** [all(p(x) for x in l)], stopping at the first false. *)
Fixpoint allM {X} (p : X -> M bool) (l : list X) : M bool :=
  match l with
  | [] => ret true
  | x :: l' => b <- p x ;; if b then allM p l' else ret false
  end.

(** ** The solver *)

Definition assign_value (values : Board) (box value : string) : M Board :=
  old <- getitem values box ;;
  if String.eqb old value then ret values
  else
    values' <- setitem ByAssign values box value ;;
    (if String.length value =? 1 then append_assignment values' else ret tt) ;;;
    ret values'.

Definition grid_values (grid : string) : M Board :=
  if negb (String.length grid =? 81) then raise AssertionError
  else if negb (forallb (fun c => str_contains c (digits ++ ".")%string) (chars grid))
  then raise AssertionError
  else
    let numbers := map (fun c => if String.eqb c "." then digits else c) (chars grid) in
    if negb (length numbers =? 81) then raise AssertionError
    else ret (dict_of (combine boxes numbers)).

(** [[box for box in values.keys() if len(values[box]) == n]]. *)
Definition keys_with_len (n : nat) (values : Board) : list string :=
  map fst (filter (fun kv => String.length (snd kv) =? n) values).

Definition eliminate (values : Board) : M Board :=
  foldM (fun values box =>
           digit <- getitem values box ;;
           ps <- getitem peers box ;;
           foldM (fun values peer =>
                    v <- getitem values peer ;;
                    assign_value values peer (str_remove digit v))
                 ps values)
        (keys_with_len 1 values) values.

Definition only_choice (values : Board) : M Board :=
  foldM (fun values unit =>
           foldM (fun values digit =>
                    placements <- filterM (fun box => v <- getitem values box ;;
                                                      ret (str_contains digit v)) unit ;;
                    match placements with
                    | [box] => assign_value values box digit
                    | _ => ret values
                    end)
                 (chars digits) values)
        unitlist values.

(** The condition of the [twins] comprehension. *)
Definition is_twin (values : Board) (tw : string * string) : M bool :=
  v1 <- getitem values (fst tw) ;;
  v2 <- getitem values (snd tw) ;;
  ret ((String.length v1 =? String.length v2) && (String.length v2 =? 2)
       && String.eqb v1 v2 && String.ltb (fst tw) (snd tw)).

Definition twins_of (values : Board) (unit : list string) : M (list (string * string)) :=
  filterM (is_twin values) (flat_map (fun b1 => map (fun b2 => (b1, b2)) unit) unit).

(** [peers[box1] & peers[box2] - {box1} - {box2}]: [-] binds tighter than [&]. *)
Definition shared_peers (box1 box2 : string) : M (list string) :=
  p1 <- getitem peers box1 ;;
  p2 <- getitem peers box2 ;;
  ret (pset_inter p1 (pset_diff (pset_diff p2 [box1]) [box2])).

(** The body of [for twin in twins]. *)
Definition twin_step (values : Board) (twin : string * string) : M Board :=
  let (box1, box2) := twin in
  v <- getitem values box1 ;;
  if String.length v <? 2 then ret values
  else
    match chars v with
    | [val1; val2] =>
        sp <- shared_peers box1 box2 ;;
        foldM (fun values shared_peer =>
                 w <- getitem values shared_peer ;;
                 assign_value values shared_peer (str_remove val2 (str_remove val1 w)))
              sp values
    | _ => raise ValueError   (* val1, val2 = ...: wrong number of values to unpack *)
    end.

Definition naked_twins (values : Board) : M Board :=
  foldM (fun values unit =>
           twins <- twins_of values unit ;;
           foldM twin_step twins values)
        unitlist values.

(** What [reduce_puzzle] and [search] return: a board, [False] or [None]. *)
Inductive pyres : Type :=
| RBoard (values : Board)
| RFalse
| RNone.

Definition n_solved (values : Board) : nat := length (keys_with_len 1 values).

Fixpoint reduce_puzzle (fuel : nat) (values : Board) : M pyres :=
  match fuel with
  | O => timeout
  | S fuel' =>
      let n_solved_before := n_solved values in
      values <- eliminate values ;;
      values <- only_choice values ;;
      values <- naked_twins values ;;
      let n_solved_after := n_solved values in
      let reduced := n_solved_after =? n_solved_before in
      if negb (length (keys_with_len 0 values) =? 0) then ret RFalse
      else if reduced then ret (RBoard values)
      else reduce_puzzle fuel' values
  end.

(** Truth value of a result: [False], [None] and the empty dict are false. *)
Definition truthy (r : pyres) : bool :=
  match r with
  | RBoard (_ :: _) => true
  | _ => false
  end.

(** [min((len(values[b]), b) for b in boxes if len(values[b]) > 1)]. *)
Definition pair_ltb (x y : nat * string) : bool :=
  (fst x <? fst y) || ((fst x =? fst y) && String.ltb (snd x) (snd y)).

Fixpoint min_pair (l : list (nat * string)) : option (nat * string) :=
  match l with
  | [] => None
  | x :: l' =>
      match min_pair l' with
      | None => Some x
      | Some y => Some (if pair_ltb y x then y else x)
      end
  end.

Definition branch_candidates (values : Board) : M (list (nat * string)) :=
  bs <- filterM (fun b => v <- getitem values b ;; ret (1 <? String.length v)) boxes ;;
  foldM (fun acc b => v <- getitem values b ;; ret (acc ++ [(String.length v, b)])) bs [].

(** The [for v in values[box]] loop of [search]; [rec] is the recursive call. *)
Fixpoint try_values (rec : Board -> M pyres) (values : Board) (box : string)
         (vs : list string) : M pyres :=
  match vs with
  | [] => ret RNone            (* falling off the end of the function *)
  | v :: vs' =>
      new_values <- setitem ByBranch values box v ;;   (* on values.copy() *)
      solved <- rec new_values ;;
      if truthy solved then ret solved else try_values rec values box vs'
  end.

Fixpoint search (loops depth : nat) (values : Board) : M pyres :=
  match depth with
  | O => timeout
  | S depth' =>
      r <- reduce_puzzle loops values ;;
      match r with
      | RBoard values =>
          done <- allM (fun b => v <- getitem values b ;; ret (String.length v =? 1)) boxes ;;
          if done then ret (RBoard values)
          else
            cands <- branch_candidates values ;;
            match min_pair cands with
            | None => raise ValueError     (* min() of an empty sequence *)
            | Some (n, box) =>
                vbox <- getitem values box ;;
                try_values (search loops depth') values box (chars vbox)
            end
      | RFalse => ret RFalse       (* values is False *)
      | RNone => raise TypeError   (* subscripting None; reduce_puzzle never returns it *)
      end
  end.

Definition solve (loops depth : nat) (grid : string) : M pyres :=
  values <- grid_values grid ;;
  solved <- search loops depth values ;;
  if truthy solved then ret solved else ret RFalse.

Definition init_state : state := mkState [] [].

Definition diag_sudoku_grid : string :=
  "2.............62....1....7...6..8...3...9...7...6..4...4....8....52.............3".
Definition error_sudoku_1 : string :=
  "1......2.....9.5...............8...4.........9..7123...........3....4.....936.4..".

(** ** Specification vocabulary *)

(** [subseq s t]: [s] is [t] with some characters deleted. *)
Inductive subseq : string -> string -> Prop :=
| subseq_nil : subseq "" ""
| subseq_keep c s t : subseq s t -> subseq (String c s) (String c t)
| subseq_drop c s t : subseq s t -> subseq s (String c t).

(** A candidate string is canonical when it is '123456789' with some digits
    deleted: ascending, without repetition, digits only. *)
Definition canonical (s : string) : Prop := subseq s digits.

Definition cell_le (kw kv : string * string) : Prop :=
  fst kw = fst kv /\ subseq (snd kw) (snd kv).

(** [shrinks W V]: same boxes in the same order, every candidate string of
    [W] obtained from the one of [V] by deleting characters. *)
Definition shrinks (W V : Board) : Prop := Forall2 cell_le W V.

Definition sizeB (V : Board) : nat :=
  list_sum (map (fun kv => String.length (snd kv)) V).

(** A well-formed board has exactly the 81 boxes as keys, in order. *)
Definition wf (V : Board) : Prop := dict_keys V = boxes.

Definition canonicalB (V : Board) : Prop := Forall (fun kv => canonical (snd kv)) V.
Definition no_empty (V : Board) : Prop := Forall (fun kv => String.length (snd kv) <> 0) V.
Definition all_fixed (V : Board) : Prop := Forall (fun kv => String.length (snd kv) = 1) V.

(** Number of boxes with more than one candidate. *)
Definition unfixed (V : Board) : nat :=
  length (filter (fun kv => 1 <? String.length (snd kv)) V).

(** The fixed boxes of [V] hold the same value in [W]. *)
Definition agree_fixed (V W : Board) : Prop :=
  forall k v, dict_get V k = Some v -> String.length v = 1 -> dict_get W k = Some v.

(** [W] is [V] shrunk without touching or creating a fixed box. *)
Definition quiet (V W : Board) : Prop :=
  shrinks W V /\ agree_fixed V W /\ agree_fixed W V.

(** No two fixed peers hold the same digit. *)
Definition Cons (W : Board) : Prop :=
  forall q p a, dict_get W q = Some (String a "") -> In p (peers_at q) ->
                dict_get W p <> Some (String a "").

(** The digit of every fixed box is absent from all its peers. *)
Definition Elim (W : Board) : Prop :=
  forall q p a w, dict_get W q = Some (String a "") -> In p (peers_at q) ->
                  dict_get W p = Some w -> occurs a w = false.

(** What [eliminate] has achieved on return, whatever happened in between. *)
Definition ElimPost (V V' : Board) : Prop :=
  forall q v a p w, dict_get V q = Some v -> String.length v = 1 ->
                    dict_get V' q = Some (String a "") -> In p (peers_at q) ->
                    dict_get V' p = Some w -> occurs a w = false.

(** Snapshots taken while a board shrinks from [V] to [V']: each is a shrunk
    copy of the previous one and strictly smaller. *)
Fixpoint Chain (V : Board) (new : list Board) (V' : Board) : Prop :=
  match new with
  | [] => shrinks V' V
  | B :: rest => shrinks B V /\ sizeB B < sizeB V /\ Chain B rest V'
  end.

(** No two consecutive entries are equal. *)
Fixpoint Sep (l : list Board) : Prop :=
  match l with
  | a :: (b :: _) as t => a <> b /\ Sep t
  | _ => True
  end.

(** A store is a fixing event when it changes the box to a one-character
    value. *)
Definition is_fixing (e : store_event) : bool :=
  negb (String.eqb (ev_old e) (ev_new e)) && (String.length (ev_new e) =? 1).

Definition by_assign (e : store_event) : bool :=
  match ev_site e with ByAssign => true | ByBranch => false end.

Definition fixings (evs : list store_event) : nat := length (filter is_fixing evs).
Definition assign_fixings (evs : list store_event) : nat :=
  length (filter (fun e => is_fixing e && by_assign e) evs).

(** The calls of [assign_value] a propagator may issue, as a predicate on the
    current board, the box and the new value. *)
Definition PhiE (W : Board) (p value : string) : Prop :=
  exists q dq old, dict_get W q = Some dq /\ String.length dq <= 1 /\
                   In p (peers_at q) /\ dict_get W p = Some old /\
                   value = str_remove dq old.

Definition PhiO (W : Board) (c value : string) : Prop :=
  exists d old, value = String d "" /\ dict_get W c = Some old /\ occurs d old = true.

Definition PhiT (W : Board) (p value : string) : Prop :=
  exists b1 a b old, dict_get W b1 = Some (String a (String b "")) /\
                     In p (peers_at b1) /\ dict_get W p = Some old /\
                     value = str_remove (String b "") (str_remove (String a "") old).

(** A run of [assign_value] calls, each replacing a value by a subsequence of
    it and each allowed by [Phi]. *)
Inductive asteps (Phi : Board -> string -> string -> Prop) :
  Board -> state -> Board -> state -> Prop :=
| asteps_nil W s : asteps Phi W s W s
| asteps_cons W s box value old W1 s1 W2 s2 :
    dict_get W box = Some old ->
    subseq value old ->
    Phi W box value ->
    assign_value W box value s = (Ok W1, s1) ->
    asteps Phi W1 s1 W2 s2 ->
    asteps Phi W s W2 s2.

(** The digit of [q], if [q] is fixed, is absent from the peers of [q]. *)
Definition ElimAt (q : string) (W : Board) : Prop :=
  forall a p w, dict_get W q = Some (String a "") -> In p (peers_at q) ->
                dict_get W p = Some w -> occurs a w = false.

(** The condition of the [twins] comprehension, as a function of the board. *)
Definition twin_cond (W : Board) (tw : string * string) : bool :=
  match dict_get W (fst tw), dict_get W (snd tw) with
  | Some v1, Some v2 =>
      (String.length v1 =? String.length v2) && (String.length v2 =? 2)
      && String.eqb v1 v2 && String.ltb (fst tw) (snd tw)
  | _, _ => false
  end.

Definition unit_pairs (unit : list string) : list (string * string) :=
  flat_map (fun b1 => map (fun b2 => (b1, b2)) unit) unit.

(** One iteration of the loop of [reduce_puzzle], up to the recount. *)
Definition one_pass (values : Board) : M Board :=
  values <- eliminate values ;;
  values <- only_choice values ;;
  naked_twins values.

(** Boards appended to the record and stores logged between two states. *)
Definition grows (s s' : state) (new : list Board) (evs : list store_event) : Prop :=
  assignments s' = assignments s ++ new /\ stores s' = stores s ++ evs.

Definition branch_stores (evs : list store_event) : nat :=
  length (filter (fun e => negb (by_assign e)) evs).

(** What a run of [reduce_puzzle] from board [V] guarantees when it returns
    [r]; [V'] is the board at the end of its last pass. *)
Definition ReducePost (V : Board) (s : state) (r : pyres) (s' : state) : Prop :=
  exists new evs V',
    grows s s' new evs /\ Chain V new V' /\
    Forall (fun e => by_assign e = true) evs /\ fixings evs = length new /\
    (r = RFalse \/ (r = RBoard V' /\ no_empty V' /\ Elim V')) /\
    (Cons V -> (new = [] -> r = RBoard V' -> quiet V V') /\
               (forall B rest, new = B :: rest -> agree_fixed V B)).

(** What a run of [search] from board [V] guarantees when it returns [r]. *)
Definition SearchPost (V : Board) (s : state) (r : pyres) (s' : state) : Prop :=
  exists new evs,
    grows s s' new evs /\
    assign_fixings evs = length new /\
    fixings evs = length new + branch_stores evs /\
    Sep new /\
    Forall (fun B => shrinks B V) new /\
    (Cons V -> forall B rest, new = B :: rest -> agree_fixed V B) /\
    (forall B, r = RBoard B -> shrinks B V /\ all_fixed B /\ Elim B).

Definition len_at (V : Board) (b : string) : nat :=
  match dict_get V b with Some v => String.length v | None => 0 end.

Fixpoint nodupb (l : list string) : bool :=
  match l with
  | [] => true
  | x :: l' => negb (mem x l') && nodupb l'
  end.

(** Boxes of [unit] holding exactly the value [d]. *)
Definition holders (B : Board) (unit : list string) (d : string) : list string :=
  filter (fun box => match dict_get B box with
                     | Some v => String.eqb v d
                     | None => false
                     end) unit.

(** A solved board: every box holds one digit, and every unit holds each
    digit exactly once. *)
Definition solved_board (B : Board) : Prop :=
  wf B /\
  (forall box, In box boxes -> exists d, In d (chars digits) /\ dict_get B box = Some d) /\
  (forall unit d, In unit unitlist -> In d (chars digits) -> length (holders B unit d) = 1).

(** The value of a box, [''] when the box is missing. *)
Definition value_at (V : Board) (b : string) : string :=
  match dict_get V b with Some v => v | None => "" end.

(** An accepted grid: 81 characters, each a digit 1-9 or a dot. *)
Definition valid_grid (grid : string) : Prop :=
  String.length grid = 81 /\
  Forall (fun c => str_contains c (digits ++ ".")%string = true) (chars grid).

(** The board [grid_values] builds. *)
Definition initial_board (grid : string) : Board :=
  combine boxes (map (fun c => if String.eqb c "." then digits else c) (chars grid)).

(** [B] solves the puzzle [grid]: it is a solved board that carries every
    given digit of the grid. *)
Definition solution_of (grid : string) (B : Board) : Prop :=
  solved_board B /\
  Forall2 (fun box c => c = "." \/ dict_get B box = Some c) boxes (chars grid).

(** All strings obtained from [s] by deleting characters. *)
Fixpoint subseqs (s : string) : list string :=
  match s with
  | EmptyString => [EmptyString]
  | String c s' => map (String c) (subseqs s') ++ subseqs s'
  end.

(** Strictly ascending character codes. *)
Fixpoint ascending (s : string) : bool :=
  match s with
  | String a (String b _ as t) => (nat_of_ascii a <? nat_of_ascii b) && ascending t
  | _ => true
  end.

(** The digits removed from the shared peers of a twin holding [a] and [b]. *)
Definition strip (a b : ascii) (w : string) : string :=
  str_remove (String b "") (str_remove (String a "") w).

(** [valid_grid] as a check. *)
Definition valid_gridb (grid : string) : bool :=
  (String.length grid =? 81) &&
  forallb (fun c => str_contains c (digits ++ ".")%string) (chars grid).

(** Number of units and of peers a box must have. *)
Definition expected_counts (box : string) : nat * nat :=
  if String.eqb box "E5" then (5, 32)
  else if mem box diag_boxes then (4, 26)
  else (3, 20).

Definition counts_ok (box : string) : bool :=
  (length (units_at box) =? fst (expected_counts box)) &&
  (length (peers_at box) =? snd (expected_counts box)).

(** A computation ignores the ghost history when, from two states with the
    same record, it gives the same outcome and again the same record. *)
Definition ghost_blind {A} (m : M A) : Prop :=
  forall s1 s2, assignments s1 = assignments s2 ->
                fst (m s1) = fst (m s2) /\
                assignments (snd (m s1)) = assignments (snd (m s2)).

(** Facts about the topology that the proofs use, as one boolean check. *)
Definition topology_ok : bool :=
  forallb (fun q =>
             match dict_get peers q with
             | None => false
             | Some ps =>
                 negb (mem q ps) && nodupb ps &&
                 forallb (fun p => mem p boxes && mem q (peers_at p)) ps
             end) boxes &&
  forallb (fun u =>
             (length u =? 9) && nodupb u &&
             forallb (fun b1 =>
                        mem b1 boxes &&
                        forallb (fun b2 => String.eqb b1 b2 || mem b2 (peers_at b1)) u) u)
          unitlist.

(** ** Concrete boards and grids used in the examples *)

(** The board [solve] returns for [diag_sudoku_grid]. *)
Definition diag_solved :=
  Eval vm_compute in
    match fst (solve 82 82 diag_sudoku_grid init_state) with
    | Ok (RBoard b) => b
    | _ => []
    end.

(** Two 5s in row A. *)
Definition twin_fives_grid : string :=
  "55..............................................................................."%string.

(** [diag_solved] with A2, A3, D2 and D3 blanked: the digits 6 and 7 can be
    placed in two ways, so propagation alone cannot finish. *)
Definition rectangle_grid : string :=
  "2..9453818537162494918235765..438192384192657129657438642379815935281764718564923"%string.

(** [rectangle_grid] after one run of [eliminate]. *)
Definition rectangle_board :=
  Eval vm_compute in
    match fst (bind (grid_values rectangle_grid) eliminate init_state) with
    | Ok b => b
    | _ => []
    end.

(** ** Vocabulary for the further properties *)

(** [W] still allows the solved board [S]: the digit [S] puts in a box is
    among the candidates [W] has for that box. *)
Definition allows (W S : Board) : Prop :=
  forall k c, dict_get S k = Some (String c "") ->
              exists w, dict_get W k = Some w /\ occurs c w = true.

(** A store that loses no solved board. *)
Definition sound_step (W : Board) (box value : string) : Prop :=
  forall S, solved_board S -> allows W S -> allows (dict_set W box value) S.

(** The stores [only_choice] issues: [box] is the only box of a unit whose
    value contains the digit. *)
Definition PhiO2 (W : Board) (box value : string) : Prop :=
  exists d unit,
    In unit unitlist /\ In (String d "") (chars digits) /\ value = String d "" /\
    filter (fun b => match dict_get W b with
                     | Some v => str_contains (String d "") v
                     | None => false
                     end) unit = [box].

(** The stores [naked_twins] issues: [p] is a common peer of two peers that
    hold, or held when detected, the same two digits. *)
Definition PhiT2 (W : Board) (p value : string) : Prop :=
  exists b1 b2 a b w2 old,
    dict_get W b1 = Some (String a (String b "")) /\
    dict_get W b2 = Some w2 /\ subseq w2 (String a (String b "")) /\
    In b2 (peers_at b1) /\ In p (peers_at b1) /\ In p (peers_at b2) /\
    dict_get W p = Some old /\ value = strip a b old.

(** Every pair of peers shares a unit, and only boxes have peers. *)
Definition peers_share_unit : bool :=
  forallb (fun q =>
             forallb (fun p => existsb (fun u => mem q u && mem p u) unitlist)
                     (peers_at q)) boxes.

(** The grid string of a board: the values of the boxes in order. *)
Definition grid_of (V : Board) : string :=
  fold_right (fun b acc => (value_at V b ++ acc)%string) "" boxes.

(** The solved board of [diag_sudoku_grid], as a grid. *)
Definition diag_solved_grid := Eval vm_compute in grid_of diag_solved.

(** The fixed point [reduce_puzzle] reaches from [rectangle_board]. *)
Definition rectangle_reduced :=
  Eval vm_compute in
    match fst (reduce_puzzle 82 rectangle_board init_state) with
    | Ok (RBoard b) => b
    | _ => []
    end.

(** A computation only appends to the record: from any two states it gives
    the same outcome and appends the same boards, keeping what was there. *)
Definition write_only {A} (m : M A) : Prop :=
  forall s1 s2, fst (m s1) = fst (m s2) /\
    exists new, assignments (snd (m s1)) = assignments s1 ++ new /\
                assignments (snd (m s2)) = assignments s2 ++ new.

(** ** [display]

    [print] is modelled by the list of lines written so far; an exception
    leaves the lines already written in place. *)

Fixpoint str_repeat (s : string) (n : nat) : string :=
  match n with
  | O => ""
  | S n' => (s ++ str_repeat s n')%string
  end.

(** [s.center(width)], as CPython pads: the left margin takes the smaller
    half, except that it takes the larger one when margin and width are
    both odd. *)
Definition center (s : string) (width : nat) : string :=
  if width <=? String.length s then s
  else
    let marg := width - String.length s in
    let left := marg / 2 + (if Nat.odd marg && Nat.odd width then 1 else 0) in
    (str_repeat " " left ++ s ++ str_repeat " " (marg - left))%string.

(** The generator [len(values[b]) for b in boxes], consumed to its end. *)
Fixpoint lengths_of (values : Board) (bs : list string) : outcome (list nat) :=
  match bs with
  | [] => Ok []
  | b :: bs' =>
      match dict_get values b with
      | None => Raise (KeyError b)
      | Some v =>
          match lengths_of values bs' with
          | Ok l => Ok (String.length v :: l)
          | Raise e => Raise e
          | Timeout => Timeout
          end
      end
  end.

Definition py_max (l : list nat) : outcome nat :=
  match l with
  | [] => Raise ValueError       (* max() of an empty sequence *)
  | x :: l' => Ok (fold_left Nat.max l' x)
  end.

(** The pieces joined into the line of row [r]. *)
Fixpoint row_cells (values : Board) (width : nat) (r : string) (cs : list string)
  : outcome (list string) :=
  match cs with
  | [] => Ok []
  | c :: cs' =>
      match dict_get values (r ++ c)%string with
      | None => Raise (KeyError (r ++ c)%string)
      | Some v =>
          match row_cells values width r cs' with
          | Ok l => Ok ((center v width ++ (if str_contains c "36" then "|" else ""))%string :: l)
          | Raise e => Raise e
          | Timeout => Timeout
          end
      end
  end.

Fixpoint display_rows (values : Board) (width : nat) (separator : string)
         (rs : list string) (out : list string) : outcome unit * list string :=
  match rs with
  | [] => (Ok tt, out)
  | r :: rs' =>
      match row_cells values width r (chars cols) with
      | Ok cells =>
          let out := out ++ [String.concat "" cells] in
          let out := if str_contains r "CF" then out ++ [separator] else out in
          display_rows values width separator rs' out
      | Raise e => (Raise e, out)
      | Timeout => (Timeout, out)
      end
  end.

Definition display (values : Board) (out : list string) : outcome unit * list string :=
  match lengths_of values boxes with
  | Ok lens =>
      match py_max lens with
      | Ok m =>
          let width := 1 + m in
          let separator := String.concat "+" (repeat (str_repeat "-" (width * 3)) 3) in
          display_rows values width separator (chars rows) out
      | Raise e => (Raise e, out)
      | Timeout => (Timeout, out)
      end
  | Raise e => (Raise e, out)
  | Timeout => (Timeout, out)
  end.

(** The widest value of a board that has every box. *)
Definition max_len (values : Board) : nat :=
  fold_left Nat.max (map (len_at values) boxes) 0.

(** The lines [display] writes for a board of width [width]. *)
Definition row_line (values : Board) (width : nat) (r : string) : string :=
  String.concat ""
    (map (fun c => (center (value_at values (r ++ c)%string) width
                    ++ (if str_contains c "36" then "|" else ""))%string)
         (chars cols)).

(** ** Vocabulary for the exact effect of [eliminate] *)

(** [s] with the characters that fail [f] deleted. *)
Fixpoint str_filter (f : ascii -> bool) (s : string) : string :=
  match s with
  | EmptyString => EmptyString
  | String c s' => if f c then String c (str_filter f s') else str_filter f s'
  end.

(** Some peer of [p] among [done] is fixed to the digit [c] in [V]. *)
Definition taken_by (done : list string) (V : Board) (p : string) (c : ascii) : bool :=
  existsb (fun q => mem q done && String.eqb (value_at V q) (String c ""))
          (peers_at p).

(** Some peer of [p] is fixed to the digit [c] in [V]. *)
Definition taken (V : Board) (p : string) (c : ascii) : bool :=
  existsb (fun q => String.eqb (value_at V q) (String c "")) (peers_at p).

(** [Cons] as a check. *)
Definition consb (V : Board) : bool :=
  forallb (fun q =>
             forallb (fun p => negb ((len_at V q =? 1) &&
                                     String.eqb (value_at V p) (value_at V q)))
                     (peers_at q)) boxes.

(** A board with a naked twin: A1 and A2 hold 1 and 2, every other box all
    nine digits. *)
Definition twin_pair_board :=
  Eval vm_compute in
    dict_set (dict_set (initial_board (str_repeat "." 81)) "A1" "12") "A2" "12".

(** [diag_solved] without the boxes A2 and I9. *)
Definition holey_board :=
  Eval vm_compute in
    filter (fun kv => negb (mem (fst kv) ["A2"; "I9"])) diag_solved.

(** The twin [(b1, b2)] of board [V] is done in [W]: if both members still
    hold their two digits in [W], no box that is a peer of both holds
    either digit. *)
Definition twins_done (V W : Board) (b1 b2 : string) : Prop :=
  forall a b p,
    dict_get V b1 = Some (String a (String b "")) ->
    dict_get V b2 = Some (String a (String b "")) ->
    dict_get W b1 = Some (String a (String b "")) ->
    dict_get W b2 = Some (String a (String b "")) ->
    In p (peers_at b1) -> In p (peers_at b2) ->
    exists w, dict_get W p = Some w /\ occurs a w = false /\ occurs b w = false.


(** * Strings *)

Section Strings.

#[local] Hint Constructors subseq : core.

Lemma subseq_refl s : subseq s s.
Proof. induction s; auto. Qed.

Lemma subseq_empty_l s : subseq "" s.
Proof. induction s; auto. Qed.

Lemma subseq_length s t : subseq s t -> String.length s <= String.length t.
Proof. induction 1; simpl; lia. Qed.

Lemma subseq_trans s t u : subseq s t -> subseq t u -> subseq s u.
Proof.
  intros Hst Htu. revert s Hst.
  induction Htu; intros s0 Hst; auto.
  inversion Hst; subst; auto.
Qed.

Lemma subseq_length_eq s t :
  subseq s t -> String.length s = String.length t -> s = t.
Proof.
  induction 1; simpl; intros Hlen; auto.
  - f_equal. apply IHsubseq. lia.
  - apply subseq_length in H. lia.
Qed.

Lemma subseq_occurs c s t : subseq s t -> occurs c s = true -> occurs c t = true.
Proof.
  induction 1; simpl; auto.
  - intros Ho. apply orb_true_iff in Ho. apply orb_true_iff.
    destruct Ho; auto.
  - intros Ho. apply orb_true_iff. auto.
Qed.

Lemma subseq_occurs_false c s t :
  subseq s t -> occurs c t = false -> occurs c s = false.
Proof.
  intros Hs Ht. destruct (occurs c s) eqn:E; auto.
  rewrite (subseq_occurs _ _ _ Hs E) in Ht. discriminate.
Qed.

Lemma subseq_empty_r s : subseq s "" -> s = "".
Proof. inversion 1; auto. Qed.

Lemma subseq_single s c :
  subseq s (String c "") -> s = "" \/ s = String c "".
Proof.
  intros H. inversion H as [|c0 s0 t0 H0|c0 s0 t0 H0]; subst.
  - apply subseq_empty_r in H0. subst. auto.
  - apply subseq_empty_r in H0. auto.
Qed.

Lemma occurs_subseq c s : occurs c s = true -> subseq (String c "") s.
Proof.
  induction s as [|c' s IH]; simpl; [discriminate|].
  intros Ho. destruct (Ascii.eqb c c') eqn:E.
  - apply Ascii.eqb_eq in E. subst. constructor. apply subseq_empty_l.
  - simpl in Ho. auto.
Qed.

Lemma length_one s : String.length s = 1 -> exists c, s = String c "".
Proof.
  destruct s as [|c [|c' s]]; simpl; intros H; try discriminate. eauto.
Qed.

Lemma length_zero s : String.length s = 0 -> s = "".
Proof. destruct s; simpl; auto; discriminate. Qed.

Lemma str_remove_from_subseq old : forall s skip, subseq (str_remove_from old skip s) s.
Proof.
  induction s as [|c s IH]; intros skip; cbn [str_remove_from]; auto.
  destruct skip; auto.
  destruct old; auto.
  destruct (prefix (String a old) (String c s)); auto.
Qed.

Lemma str_remove_subseq old s : subseq (str_remove old s) s.
Proof. apply str_remove_from_subseq. Qed.

Lemma str_remove_empty s : str_remove "" s = s.
Proof.
  unfold str_remove. induction s; simpl; auto. f_equal. auto.
Qed.

Lemma prefix_single c c' s :
  prefix (String c "") (String c' s) = Ascii.eqb c c'.
Proof.
  simpl. destruct (ascii_dec c c') as [->|Hn].
  - rewrite Ascii.eqb_refl. destruct s; reflexivity.
  - symmetry. apply Ascii.eqb_neq. auto.
Qed.

Lemma str_remove_single_cons c c' s :
  str_remove (String c "") (String c' s) =
  if Ascii.eqb c c' then str_remove (String c "") s
  else String c' (str_remove (String c "") s).
Proof.
  unfold str_remove. cbn [str_remove_from].
  rewrite prefix_single. reflexivity.
Qed.

Lemma occurs_str_remove c s : occurs c (str_remove (String c "") s) = false.
Proof.
  induction s as [|c' s IH]; [reflexivity|].
  rewrite str_remove_single_cons.
  destruct (Ascii.eqb c c') eqn:E; auto.
  simpl. rewrite E. auto.
Qed.

Lemma str_remove_absent c s :
  occurs c s = false -> str_remove (String c "") s = s.
Proof.
  induction s as [|c' s IH]; [reflexivity|].
  simpl. intros H. apply orb_false_iff in H. destruct H as [E H].
  rewrite str_remove_single_cons, E. f_equal. auto.
Qed.

Lemma str_contains_single c s : str_contains (String c "") s = occurs c s.
Proof.
  induction s as [|c' s IH]; [reflexivity|].
  cbn [str_contains occurs]. rewrite prefix_single, IH. reflexivity.
Qed.

Lemma chars_In x s :
  In x (chars s) <-> exists c, x = String c "" /\ occurs c s = true.
Proof.
  induction s as [|c' s IH]; simpl.
  - split; [tauto|]. intros (c & _ & H). discriminate.
  - rewrite IH. split.
    + intros [<-|(c & -> & H)].
      * exists c'. rewrite Ascii.eqb_refl. auto.
      * exists c. rewrite H, orb_true_r. auto.
    + intros (c & -> & H). apply orb_true_iff in H. destruct H as [H|H].
      * apply Ascii.eqb_eq in H. subst. auto.
      * right. eauto.
Qed.

Lemma chars_length s : length (chars s) = String.length s.
Proof. induction s; simpl; auto. Qed.

Lemma occurs_single a c : occurs a (String c "") = Ascii.eqb a c.
Proof. simpl. apply orb_false_r. Qed.

Lemma canonical_subseq s t : canonical t -> subseq s t -> canonical s.
Proof. unfold canonical. intros. eapply subseq_trans; eauto. Qed.

End Strings.


(** * Dicts *)

Section Dicts.

Context {V : Type}.
Implicit Types (d : dict V) (k : string) (v : V).

Lemma dict_get_set_same d k v : dict_get (dict_set d k v) k = Some v.
Proof.
  induction d as [|[k' v'] d IH]; simpl.
  - rewrite String.eqb_refl. reflexivity.
  - destruct (String.eqb k k') eqn:E; simpl; rewrite E; auto.
Qed.

Lemma dict_get_set_other d k k' v :
  k <> k' -> dict_get (dict_set d k v) k' = dict_get d k'.
Proof.
  intros Hn. induction d as [|[k0 v0] d IH]; simpl.
  - apply String.eqb_neq in Hn. rewrite String.eqb_sym, Hn. reflexivity.
  - destruct (String.eqb k k0) eqn:E; simpl.
    + apply String.eqb_eq in E. subst k0.
      apply String.eqb_neq in Hn. rewrite String.eqb_sym, Hn. reflexivity.
    + rewrite IH. reflexivity.
Qed.

Lemma dict_keys_set d k v old :
  dict_get d k = Some old -> dict_keys (dict_set d k v) = dict_keys d.
Proof.
  unfold dict_keys. induction d as [|[k0 v0] d IH]; simpl; [discriminate|].
  destruct (String.eqb k k0) eqn:E; simpl; auto.
  intros H. f_equal. auto.
Qed.

Lemma dict_get_In d k : In k (dict_keys d) -> exists v, dict_get d k = Some v.
Proof.
  unfold dict_keys. induction d as [|[k0 v0] d IH]; simpl; [tauto|].
  intros [->|H].
  - rewrite String.eqb_refl. eauto.
  - destruct (String.eqb k k0); eauto.
Qed.

Lemma dict_get_Some_In d k v : dict_get d k = Some v -> In (k, v) d.
Proof.
  induction d as [|[k0 v0] d IH]; simpl; [discriminate|].
  destruct (String.eqb k k0) eqn:E.
  - apply String.eqb_eq in E. intros [= ->]. subst. auto.
  - auto.
Qed.

Lemma dict_get_key_In d k v : dict_get d k = Some v -> In k (dict_keys d).
Proof.
  intros H. apply dict_get_Some_In in H. unfold dict_keys.
  apply in_map_iff. exists (k, v). auto.
Qed.

Lemma In_dict_get d k v :
  NoDup (dict_keys d) -> In (k, v) d -> dict_get d k = Some v.
Proof.
  unfold dict_keys. induction d as [|[k0 v0] d IH]; simpl; [tauto|].
  intros Hnd [[= -> ->]|Hin].
  - rewrite String.eqb_refl. reflexivity.
  - inversion Hnd as [|? ? Hni Hnd']; subst.
    destruct (String.eqb k k0) eqn:E.
    + apply String.eqb_eq in E. subst. exfalso. apply Hni.
      apply in_map_iff. exists (k0, v). auto.
    + auto.
Qed.

Lemma dict_of_nodup_aux (l : list (string * V)) : forall d,
  NoDup (dict_keys d ++ map fst l) ->
  fold_left (fun d kv => dict_set d (fst kv) (snd kv)) l d = d ++ l.
Proof.
  induction l as [|[k v] l IH]; intros d Hnd; simpl.
  - rewrite app_nil_r. reflexivity.
  - assert (Hset : dict_set d k v = d ++ [(k, v)]).
    { assert (Hni : ~ In k (dict_keys d)).
      { intros Hin. apply NoDup_remove_2 in Hnd. apply Hnd.
        apply in_or_app. auto. }
      clear -Hni. unfold dict_keys in Hni.
      induction d as [|[k0 v0] d IHd]; simpl; auto.
      simpl in Hni. destruct (String.eqb k k0) eqn:E.
      - apply String.eqb_eq in E. subst. tauto.
      - f_equal. apply IHd. tauto. }
    rewrite Hset, IH.
    + rewrite <- app_assoc. reflexivity.
    + unfold dict_keys in *. rewrite map_app. simpl.
      rewrite <- app_assoc. exact Hnd.
Qed.

Lemma dict_of_nodup (l : list (string * V)) :
  NoDup (map fst l) -> dict_of l = l.
Proof. intros H. unfold dict_of. rewrite dict_of_nodup_aux; auto. Qed.

End Dicts.

(** * The monad *)

Lemma bind_Ok {A B} (m : M A) (f : A -> M B) s a s1 :
  m s = (Ok a, s1) -> bind m f s = f a s1.
Proof. unfold bind. intros ->. reflexivity. Qed.

Lemma bind_inv {A B} (m : M A) (f : A -> M B) s b s' :
  bind m f s = (Ok b, s') ->
  exists a s1, m s = (Ok a, s1) /\ f a s1 = (Ok b, s').
Proof.
  unfold bind. destruct (m s) as [[a|e|] s1]; try discriminate. eauto.
Qed.

Lemma getitem_Ok {A} (d : dict A) k v s :
  dict_get d k = Some v -> getitem d k s = (Ok v, s).
Proof. unfold getitem. intros ->. reflexivity. Qed.

Lemma getitem_inv {A} (d : dict A) k v s s' :
  getitem d k s = (Ok v, s') -> dict_get d k = Some v /\ s' = s.
Proof.
  unfold getitem. destruct (dict_get d k); cbv [ret raise]; intros [= ]; subst; auto.
Qed.

(** Total-correctness rule for [foldM]: the invariant is indexed by the
    elements already processed. *)
Lemma foldM_total {A X} (I : list X -> A -> state -> Prop) (f : A -> X -> M A) l :
  (forall done x rest a s, l = done ++ x :: rest -> I done a s ->
     exists a' s', f a x s = (Ok a', s') /\ I (done ++ [x]) a' s') ->
  forall a s, I [] a s ->
  exists a' s', foldM f l a s = (Ok a', s') /\ I l a' s'.
Proof.
  intros Hstep.
  assert (G : forall rest done a s, l = done ++ rest -> I done a s ->
              exists a' s', foldM f rest a s = (Ok a', s') /\ I l a' s').
  { induction rest as [|x rest IH]; intros done a s El HI; simpl.
    - rewrite app_nil_r in El. subst done. exists a, s. split; [reflexivity|exact HI].
    - destruct (Hstep done x rest a s El HI) as (a1 & s1 & E1 & HI1).
      rewrite (bind_Ok _ _ _ _ _ E1).
      apply (IH (done ++ [x])); auto.
      rewrite <- app_assoc. exact El. }
  intros a s HI. apply (G l [] a s); auto.
Qed.

(** A simpler rule when the invariant does not depend on progress. *)
Lemma foldM_inv {A X} (I : A -> state -> Prop) (f : A -> X -> M A) l :
  (forall x a s, In x l -> I a s -> exists a' s', f a x s = (Ok a', s') /\ I a' s') ->
  forall a s, I a s -> exists a' s', foldM f l a s = (Ok a', s') /\ I a' s'.
Proof.
  intros Hstep a s HI.
  apply (foldM_total (fun _ => I) f l); auto.
  intros done x rest a0 s0 El. apply Hstep. subst. apply in_or_app. simpl. auto.
Qed.

Lemma filterM_total {X} (p : X -> M bool) (q : X -> bool) l s :
  (forall x, In x l -> p x s = (Ok (q x), s)) ->
  filterM p l s = (Ok (filter q l), s).
Proof.
  induction l as [|x l IH]; intros H; simpl; [reflexivity|].
  rewrite (bind_Ok _ _ _ _ _ (H x (or_introl eq_refl))).
  rewrite (bind_Ok _ _ _ _ _ (IH (fun y Hy => H y (or_intror Hy)))).
  destruct (q x); reflexivity.
Qed.

Lemma allM_total {X} (p : X -> M bool) (q : X -> bool) l s :
  (forall x, In x l -> p x s = (Ok (q x), s)) ->
  allM p l s = (Ok (forallb q l), s).
Proof.
  induction l as [|x l IH]; intros H; simpl; [reflexivity|].
  rewrite (bind_Ok _ _ _ _ _ (H x (or_introl eq_refl))).
  destruct (q x); simpl.
  - apply IH. intros y Hy. apply H. right. exact Hy.
  - reflexivity.
Qed.

(** * Topology *)

Lemma topology_ok_true : topology_ok = true.
Proof. vm_compute. reflexivity. Qed.

Lemma mem_In x l : mem x l = true <-> In x l.
Proof.
  unfold mem. rewrite existsb_exists. split.
  - intros (y & Hin & E). apply String.eqb_eq in E. subst. auto.
  - intros H. exists x. rewrite String.eqb_refl. auto.
Qed.

Lemma nodupb_NoDup l : nodupb l = true -> NoDup l.
Proof.
  induction l as [|x l IH]; intros E; constructor.
  - simpl in E. apply andb_true_iff in E. destruct E as [E _].
    intros Hin. apply mem_In in Hin. rewrite Hin in E. discriminate.
  - apply IH. simpl in E. apply andb_true_iff in E. tauto.
Qed.

Lemma boxes_NoDup : NoDup boxes.
Proof. apply nodupb_NoDup. vm_compute. reflexivity. Qed.

Lemma boxes_length : length boxes = 81.
Proof. reflexivity. Qed.

Lemma peers_defined q : In q boxes -> dict_get peers q = Some (peers_at q).
Proof.
  intros Hq. pose proof topology_ok_true as T. unfold topology_ok in T.
  apply andb_true_iff in T. destruct T as [T _].
  rewrite forallb_forall in T. specialize (T q Hq).
  unfold peers_at. destruct (dict_get peers q); [reflexivity|discriminate].
Qed.

Lemma peers_facts q p :
  In q boxes -> In p (peers_at q) -> p <> q /\ In p boxes /\ In q (peers_at p).
Proof.
  intros Hq Hp. pose proof topology_ok_true as T. unfold topology_ok in T.
  apply andb_true_iff in T. destruct T as [T _].
  rewrite forallb_forall in T. specialize (T q Hq).
  unfold peers_at in Hp. destruct (dict_get peers q) as [ps|]; [|discriminate].
  apply andb_true_iff in T. destruct T as [T1 T2].
  apply andb_true_iff in T1. destruct T1 as [T1 _].
  rewrite forallb_forall in T2. specialize (T2 p Hp).
  apply andb_true_iff in T2. destruct T2 as [T2 T3].
  apply mem_In in T2, T3. repeat split; auto.
  intros ->. apply mem_In in Hp. rewrite Hp in T1. discriminate.
Qed.

Lemma peers_NoDup q : In q boxes -> NoDup (peers_at q).
Proof.
  intros Hq. pose proof topology_ok_true as T. unfold topology_ok in T.
  apply andb_true_iff in T. destruct T as [T _].
  rewrite forallb_forall in T. specialize (T q Hq).
  unfold peers_at. destruct (dict_get peers q) as [ps|]; [|discriminate].
  apply andb_true_iff in T. destruct T as [T1 _].
  apply andb_true_iff in T1. destruct T1 as [_ T1].
  apply nodupb_NoDup. exact T1.
Qed.

Lemma peers_irrefl q : In q boxes -> ~ In q (peers_at q).
Proof. intros Hq Hin. destruct (peers_facts q q Hq Hin) as [H _]. apply H. reflexivity. Qed.

Lemma peers_in_boxes q p : In q boxes -> In p (peers_at q) -> In p boxes.
Proof. intros Hq Hp. destruct (peers_facts q p Hq Hp) as (_ & H & _). exact H. Qed.

Lemma peers_sym q p : In q boxes -> In p (peers_at q) -> In q (peers_at p).
Proof. intros Hq Hp. destruct (peers_facts q p Hq Hp) as (_ & _ & H). exact H. Qed.

Lemma unit_facts u b1 b2 :
  In u unitlist -> In b1 u -> In b2 u ->
  length u = 9 /\ In b1 boxes /\ (b1 <> b2 -> In b2 (peers_at b1)).
Proof.
  intros Hu H1 H2. pose proof topology_ok_true as T. unfold topology_ok in T.
  apply andb_true_iff in T. destruct T as [_ T].
  rewrite forallb_forall in T. specialize (T u Hu).
  apply andb_true_iff in T. destruct T as [T0 T].
  apply andb_true_iff in T0. destruct T0 as [T0 _].
  rewrite forallb_forall in T. specialize (T b1 H1).
  apply andb_true_iff in T. destruct T as [T1 T].
  rewrite forallb_forall in T. specialize (T b2 H2).
  apply Nat.eqb_eq in T0. apply mem_In in T1. repeat split; auto.
  intros Hn. apply orb_true_iff in T. destruct T as [T|T].
  - apply String.eqb_eq in T. contradiction.
  - apply mem_In. exact T.
Qed.

Lemma unit_NoDup u : In u unitlist -> NoDup u /\ length u = 9.
Proof.
  intros Hu. pose proof topology_ok_true as T. unfold topology_ok in T.
  apply andb_true_iff in T. destruct T as [_ T].
  rewrite forallb_forall in T. specialize (T u Hu).
  apply andb_true_iff in T. destruct T as [T0 _].
  apply andb_true_iff in T0. destruct T0 as [T0 T1].
  apply Nat.eqb_eq in T0. split; auto. apply nodupb_NoDup. exact T1.
Qed.

Lemma unit_in_boxes u b : In u unitlist -> In b u -> In b boxes.
Proof. intros Hu Hb. destruct (unit_facts u b b Hu Hb Hb) as (_ & H & _). exact H. Qed.


(** * Boards ordered by shrinking *)

Lemma shrinks_refl V : shrinks V V.
Proof.
  unfold shrinks. induction V; constructor; auto.
  split; auto using subseq_refl.
Qed.

Lemma shrinks_trans U W V : shrinks U W -> shrinks W V -> shrinks U V.
Proof.
  unfold shrinks. intros H. revert V.
  induction H as [|u w U W [Hk Hs] H IH]; intros V HV; inversion HV as [|? v ? V' [Hk' Hs'] HV']; subst;
    constructor; auto.
  split; [congruence|eapply subseq_trans; eauto].
Qed.

Lemma shrinks_keys W V : shrinks W V -> dict_keys W = dict_keys V.
Proof.
  unfold dict_keys. induction 1 as [|w v W V [Hk _] H IH]; simpl; congruence.
Qed.

Lemma shrinks_get W V k v :
  shrinks W V -> dict_get V k = Some v ->
  exists w, dict_get W k = Some w /\ subseq w v.
Proof.
  induction 1 as [|[kw w] [kv v'] W V [Hk Hs] H IH]; simpl in *; [discriminate|].
  subst kw. destruct (String.eqb k kv); auto.
  intros [= ->]. eauto.
Qed.

Lemma shrinks_get_inv W V k w :
  shrinks W V -> dict_get W k = Some w ->
  exists v, dict_get V k = Some v /\ subseq w v.
Proof.
  induction 1 as [|[kw w'] [kv v] W V [Hk Hs] H IH]; simpl in *; [discriminate|].
  subst kw. destruct (String.eqb k kv); auto.
  intros [= ->]. eauto.
Qed.

Lemma shrinks_set V k old value :
  dict_get V k = Some old -> subseq value old -> shrinks (dict_set V k value) V.
Proof.
  intros Hg Hs. induction V as [|[k0 v0] V IH]; simpl in *; [discriminate|].
  destruct (String.eqb k k0).
  - injection Hg as ->. constructor; [split; auto|apply shrinks_refl].
  - constructor; [split; auto using subseq_refl|apply IH; exact Hg].
Qed.

Lemma shrinks_size W V : shrinks W V -> sizeB W <= sizeB V.
Proof.
  unfold sizeB. induction 1 as [|w v W V [_ Hs] H IH]; simpl; auto.
  apply subseq_length in Hs. lia.
Qed.

Lemma size_set V k old value :
  dict_get V k = Some old ->
  sizeB (dict_set V k value) + String.length old = sizeB V + String.length value.
Proof.
  unfold sizeB. induction V as [|[k0 v0] V IH]; simpl; [discriminate|].
  destruct (String.eqb k k0); simpl.
  - intros [= ->]. lia.
  - intros H. specialize (IH H). lia.
Qed.

Lemma wf_shrinks W V : wf V -> shrinks W V -> wf W.
Proof. unfold wf. intros HV H. rewrite (shrinks_keys _ _ H). exact HV. Qed.

Lemma wf_get V k : wf V -> In k boxes -> exists v, dict_get V k = Some v.
Proof. unfold wf. intros <- H. apply dict_get_In. exact H. Qed.

Lemma wf_get_In V k v : wf V -> dict_get V k = Some v -> In k boxes.
Proof. unfold wf. intros <- H. eapply dict_get_key_In; eauto. Qed.

Lemma wf_set V k old value : wf V -> dict_get V k = Some old -> wf (dict_set V k value).
Proof. unfold wf. intros HV Hg. rewrite (dict_keys_set _ _ _ _ Hg). exact HV. Qed.

Lemma canonicalB_shrinks W V : canonicalB V -> shrinks W V -> canonicalB W.
Proof.
  unfold canonicalB. intros HV H. revert HV.
  induction H as [|w v W V [_ Hs] H IH]; intros HV; constructor;
    inversion HV; subst; auto.
  eapply canonical_subseq; eauto.
Qed.

Lemma canonicalB_get V k v : canonicalB V -> dict_get V k = Some v -> canonical v.
Proof.
  unfold canonicalB. intros HV Hg. apply dict_get_Some_In in Hg.
  rewrite Forall_forall in HV. apply (HV _ Hg).
Qed.

(** * Snapshot chains *)

Lemma Chain_shrinks new : forall V V', Chain V new V' -> shrinks V' V.
Proof.
  induction new as [|B new IH]; simpl; intros V V' H; auto.
  destruct H as (H1 & _ & H2). eapply shrinks_trans; eauto.
Qed.

Lemma Chain_weaken new : forall V0 V V',
  shrinks V V0 -> Chain V new V' -> Chain V0 new V'.
Proof.
  destruct new as [|B new]; simpl; intros V0 V V' H0 H.
  - eapply shrinks_trans; eauto.
  - destruct H as (H1 & H2 & H3). repeat split; auto.
    + eapply shrinks_trans; eauto.
    + apply shrinks_size in H0. lia.
Qed.

Lemma Chain_app n1 : forall n2 V V1 V2,
  Chain V n1 V1 -> Chain V1 n2 V2 -> Chain V (n1 ++ n2) V2.
Proof.
  induction n1 as [|B n1 IH]; simpl; intros n2 V V1 V2 H1 H2.
  - eapply Chain_weaken; eauto.
  - destruct H1 as (Ha & Hb & Hc). repeat split; eauto.
Qed.

Lemma Chain_Forall new : forall V V',
  Chain V new V' -> Forall (fun B => shrinks B V /\ shrinks V' B) new.
Proof.
  induction new as [|B new IH]; simpl; intros V V' H; constructor.
  - destruct H as (H1 & _ & H2). split; auto. eapply Chain_shrinks; eauto.
  - destruct H as (H1 & _ & H2). specialize (IH _ _ H2).
    eapply Forall_impl; [|exact IH]. simpl. intros B' [Ha Hb]. split; auto.
    eapply shrinks_trans; eauto.
Qed.

Lemma Chain_Sep new : forall V V', Chain V new V' -> Sep new.
Proof.
  induction new as [|B new IH]; simpl; intros V V' H; auto.
  destruct H as (_ & _ & H). destruct new as [|B' new']; auto.
  split; [|eapply IH; eauto].
  simpl in H. destruct H as (_ & Hlt & _). intros ->. lia.
Qed.

Lemma Sep_app l1 l2 :
  Sep l1 -> Sep l2 ->
  (forall l1' a b l2', l1 = l1' ++ [a] -> l2 = b :: l2' -> a <> b) ->
  Sep (l1 ++ l2).
Proof.
  induction l1 as [|a l1 IH]; intros H1 H2 Hj; [exact H2|].
  destruct l1 as [|a' l1'].
  - destruct l2 as [|b l2']; [exact I|]. split; [|exact H2].
    apply (Hj [] a b l2'); reflexivity.
  - destruct H1 as [Hn H1]. split; [exact Hn|].
    apply IH; auto.
    intros l0 x b l2' El E2. apply (Hj (a :: l0) x b l2'); auto.
    simpl. rewrite El. reflexivity.
Qed.

(** * [assign_value] *)

Lemma assign_value_same W box value s :
  dict_get W box = Some value -> assign_value W box value s = (Ok W, s).
Proof.
  intros Hg. unfold assign_value.
  rewrite (bind_Ok _ _ _ _ _ (getitem_Ok _ _ _ _ Hg)).
  rewrite String.eqb_refl. reflexivity.
Qed.

Lemma assign_value_change W box value old s :
  dict_get W box = Some old -> old <> value ->
  assign_value W box value s =
  (Ok (dict_set W box value),
   mkState (if String.length value =? 1
            then assignments s ++ [dict_set W box value] else assignments s)
           (stores s ++ [mkStore ByAssign box old value])).
Proof.
  intros Hg Hn. unfold assign_value.
  rewrite (bind_Ok _ _ _ _ _ (getitem_Ok _ _ _ _ Hg)).
  apply String.eqb_neq in Hn. rewrite Hn.
  unfold bind, setitem, append_assignment, ret. rewrite Hg.
  destruct (String.length value =? 1); reflexivity.
Qed.

Lemma assign_value_total W box value old s :
  dict_get W box = Some old ->
  exists W' s', assign_value W box value s = (Ok W', s') /\
                dict_get W' box = Some value /\
                (forall k, k <> box -> dict_get W' k = dict_get W k).
Proof.
  intros Hg. destruct (String.eqb old value) eqn:E.
  - apply String.eqb_eq in E. subst old.
    exists W, s. rewrite assign_value_same; auto.
  - apply String.eqb_neq in E.
    eexists _, _. rewrite (assign_value_change _ _ _ _ _ Hg E).
    split; [reflexivity|]. split.
    + apply dict_get_set_same.
    + intros k Hk. apply dict_get_set_other. auto.
Qed.

(** * Runs of [assign_value] calls *)

Section Asteps.

Variable Phi : Board -> string -> string -> Prop.

Lemma asteps_trans V s V1 s1 V2 s2 :
  asteps Phi V s V1 s1 -> asteps Phi V1 s1 V2 s2 -> asteps Phi V s V2 s2.
Proof.
  induction 1; intros Hrest; auto.
  eapply asteps_cons; eauto.
Qed.

Lemma asteps_one V s box value old V1 s1 :
  dict_get V box = Some old -> subseq value old -> Phi V box value ->
  assign_value V box value s = (Ok V1, s1) ->
  asteps Phi V s V1 s1.
Proof. intros. eapply asteps_cons; eauto. apply asteps_nil. Qed.

Lemma asteps_snoc V s V1 s1 box value old V2 s2 :
  asteps Phi V s V1 s1 ->
  dict_get V1 box = Some old -> subseq value old -> Phi V1 box value ->
  assign_value V1 box value s1 = (Ok V2, s2) ->
  asteps Phi V s V2 s2.
Proof. intros H ? ? ? ?. eapply asteps_trans; [exact H|]. eapply asteps_one; eauto. Qed.

(** What every run guarantees: the board shrinks, the record grows by a
    chain of snapshots, and the snapshots are in one-to-one correspondence
    with the fixing events, all of them issued by [assign_value]. *)
Lemma asteps_trace V s V' s' :
  asteps Phi V s V' s' ->
  exists new evs,
    assignments s' = assignments s ++ new /\
    stores s' = stores s ++ evs /\
    Chain V new V' /\
    Forall (fun e => by_assign e = true) evs /\
    fixings evs = length new.
Proof.
  induction 1 as [W s|W s box value old W1 s1 W2 s2 Hg Hs HP Ha Hrest IH].
  - exists [], []. rewrite !app_nil_r. simpl. repeat split; auto.
    apply shrinks_refl.
  - destruct IH as (new & evs & E1 & E2 & Hc & Hb & Hf).
    destruct (String.eqb old value) eqn:E.
    + apply String.eqb_eq in E. subst old.
      rewrite assign_value_same in Ha by auto. injection Ha as <- <-.
      exists new, evs. auto.
    + pose proof E as En. apply String.eqb_neq in En.
      rewrite (assign_value_change _ _ _ _ _ Hg En) in Ha.
      injection Ha as <- <-. simpl in E1, E2.
      assert (Hsh : shrinks (dict_set W box value) W) by (eapply shrinks_set; eauto).
      assert (Hlt : sizeB (dict_set W box value) < sizeB W).
      { pose proof (size_set W box old value Hg) as Hsz.
        assert (String.length value < String.length old).
        { pose proof (subseq_length _ _ Hs).
          destruct (Nat.eq_dec (String.length value) (String.length old)) as [El|]; [|lia].
          apply subseq_length_eq in El; auto. congruence. }
        lia. }
      destruct (String.length value =? 1) eqn:L.
      * exists (dict_set W box value :: new), (mkStore ByAssign box old value :: evs).
        rewrite E1, E2, <- !app_assoc. simpl. repeat split; auto.
        unfold fixings in *. simpl. unfold is_fixing at 1. simpl.
        rewrite E, L. simpl. f_equal. exact Hf.
      * exists new, (mkStore ByAssign box old value :: evs).
        rewrite E1, E2, <- !app_assoc. simpl. repeat split; auto.
        -- eapply Chain_weaken; eauto.
        -- unfold fixings in *. simpl. unfold is_fixing at 1. simpl.
           rewrite E, L. simpl. exact Hf.
Qed.

Lemma asteps_shrinks V s V' s' : asteps Phi V s V' s' -> shrinks V' V.
Proof.
  intros H. destruct (asteps_trace _ _ _ _ H) as (new & evs & _ & _ & Hc & _).
  eapply Chain_shrinks; eauto.
Qed.

End Asteps.

Lemma asteps_weaken (Phi Psi : Board -> string -> string -> Prop) V s V' s' :
  (forall W b v, Phi W b v -> Psi W b v) ->
  asteps Phi V s V' s' -> asteps Psi V s V' s'.
Proof.
  intros Himp. induction 1; [apply asteps_nil|eapply asteps_cons; eauto].
Qed.


(** * Quiet evolution: nothing fixed is touched, nothing becomes fixed *)

Lemma agree_fixed_refl V : agree_fixed V V.
Proof. intros k v H _. exact H. Qed.

Lemma agree_fixed_trans U V W : agree_fixed U V -> agree_fixed V W -> agree_fixed U W.
Proof. intros H1 H2 k v Hg Hl. apply H2; auto. Qed.

Lemma quiet_refl V : quiet V V.
Proof. repeat split; auto using shrinks_refl, agree_fixed_refl. Qed.

Lemma quiet_trans U V W : quiet U V -> quiet V W -> quiet U W.
Proof.
  intros (S1 & A1 & B1) (S2 & A2 & B2). repeat split.
  - eapply shrinks_trans; eauto.
  - eapply agree_fixed_trans; eauto.
  - eapply agree_fixed_trans; eauto.
Qed.

Lemma agree_fixed_set V k old value :
  dict_get V k = Some old -> String.length old <> 1 -> agree_fixed V (dict_set V k value).
Proof.
  intros Hg Hl k' v Hg' Hl'. destruct (String.eqb k k') eqn:E.
  - apply String.eqb_eq in E. subst k'. congruence.
  - apply String.eqb_neq in E. rewrite dict_get_set_other; auto.
Qed.

Lemma quiet_set V k old value :
  dict_get V k = Some old -> subseq value old ->
  String.length old <> 1 -> String.length value <> 1 ->
  quiet V (dict_set V k value).
Proof.
  intros Hg Hs Ho Hv. repeat split.
  - eapply shrinks_set; eauto.
  - eapply agree_fixed_set; eauto.
  - intros k' v Hg' Hl'. destruct (String.eqb k k') eqn:E.
    + apply String.eqb_eq in E. subst k'. rewrite dict_get_set_same in Hg'. congruence.
    + apply String.eqb_neq in E. rewrite dict_get_set_other in Hg'; auto.
Qed.

Lemma Elim_Cons W : Elim W -> Cons W.
Proof.
  intros HE q p a Hq Hp Hp'. specialize (HE q p a _ Hq Hp Hp').
  simpl in HE. rewrite Ascii.eqb_refl in HE. discriminate.
Qed.

Lemma Cons_quiet V W : Cons V -> quiet V W -> Cons W.
Proof.
  intros HC (_ & _ & HB) q p a Hq Hp Hp'.
  apply (HC q p a); auto.
Qed.

Lemma Elim_quiet V W : Elim V -> quiet V W -> Elim W.
Proof.
  intros HE (HS & _ & HB) q p a w Hq Hp Hw.
  destruct (shrinks_get_inv _ _ _ _ HS Hw) as (v & Hv & Hsub).
  eapply subseq_occurs_false; [exact Hsub|].
  apply (HE q p a v); auto.
Qed.

Lemma assign_value_cases W box value old s W1 s1 :
  dict_get W box = Some old ->
  assign_value W box value s = (Ok W1, s1) ->
  (old = value /\ W1 = W /\ s1 = s) \/
  (old <> value /\ W1 = dict_set W box value /\
   stores s1 = stores s ++ [mkStore ByAssign box old value] /\
   ((String.length value = 1 /\ assignments s1 = assignments s ++ [W1]) \/
    (String.length value <> 1 /\ assignments s1 = assignments s))).
Proof.
  intros Hg Ha. destruct (String.eqb old value) eqn:E.
  - apply String.eqb_eq in E. subst old.
    rewrite assign_value_same in Ha by auto. injection Ha as <- <-. auto.
  - apply String.eqb_neq in E.
    rewrite (assign_value_change _ _ _ _ _ Hg E) in Ha.
    injection Ha as <- <-. right. simpl. repeat split; auto.
    destruct (String.length value =? 1) eqn:L.
    + apply Nat.eqb_eq in L. auto.
    + apply Nat.eqb_neq in L. auto.
Qed.

Section Quiet.

Variable Phi : Board -> string -> string -> Prop.
Variable J : Board -> Prop.

(** In a [J]-board no allowed call changes a fixed box, and [J] survives
    quiet evolution. *)
Hypothesis Hsafe : forall W box value old,
  J W -> Phi W box value -> dict_get W box = Some old ->
  String.length old = 1 -> value = old.
Hypothesis HJ : forall V W, J V -> quiet V W -> J W.

(** Until the first snapshot the run is quiet, and the first snapshot still
    shows every box that was fixed at the start. *)
Lemma asteps_quiet V s V' s' :
  asteps Phi V s V' s' -> J V ->
  forall new, assignments s' = assignments s ++ new ->
  (new = [] -> quiet V V' /\ J V') /\
  (forall B rest, new = B :: rest -> agree_fixed V B).
Proof.
  induction 1 as [W s|W s box value old W1 s1 W2 s2 Hg Hs HP Ha Hrest IH];
    intros HJW new Enew.
  - assert (new = []).
    { apply (app_inv_head (assignments s)). rewrite app_nil_r. auto. }
    subst new. split; [intros _; split; auto using quiet_refl|discriminate].
  - destruct (asteps_trace _ _ _ _ _ Hrest) as (new' & _ & E' & _).
    destruct (assign_value_cases _ _ _ _ _ _ _ Hg Ha)
      as [(-> & -> & ->)|(Hn & -> & _ & [[L E1]|[L E1]])].
    + apply IH; auto.
    + assert (Ho : String.length old <> 1).
      { intros Ho. apply Hn. symmetry. eapply Hsafe; eauto. }
      rewrite E1, <- app_assoc in E'. rewrite E' in Enew.
      apply app_inv_head in Enew. subst new. split; [discriminate|].
      intros B rest [= <- <-]. eapply agree_fixed_set; eauto.
    + assert (Ho : String.length old <> 1).
      { intros Ho. apply Hn. symmetry. eapply Hsafe; eauto. }
      assert (Q : quiet W (dict_set W box value)) by (eapply quiet_set; eauto).
      rewrite E1 in IH. destruct (IH (HJ _ _ HJW Q) new Enew) as [IH1 IH2].
      split.
      * intros En. destruct (IH1 En). split; auto. eapply quiet_trans; eauto.
      * intros B rest En. eapply agree_fixed_trans; [apply Q|]. eapply IH2; eauto.
Qed.

End Quiet.

(** The three instances. *)

Lemma safe_PhiE W box value old :
  Cons W -> PhiE W box value -> dict_get W box = Some old ->
  String.length old = 1 -> value = old.
Proof.
  intros HC (q & dq & old' & Hq & Hlen & Hp & Hold & ->) Hg Ho.
  assert (old' = old) by congruence. subst old'.
  destruct (length_one _ Ho) as (b & ->).
  destruct dq as [|a [|? ?]]; simpl in Hlen; try lia.
  - apply str_remove_empty.
  - apply str_remove_absent. rewrite occurs_single.
    destruct (Ascii.eqb a b) eqn:E; auto.
    apply Ascii.eqb_eq in E. subst b. exfalso. exact (HC q box a Hq Hp Hg).
Qed.

Lemma safe_PhiO W box value old :
  PhiO W box value -> dict_get W box = Some old ->
  String.length old = 1 -> value = old.
Proof.
  intros (d & old' & -> & Hold & Hocc) Hg Ho.
  assert (old' = old) by congruence. subst old'.
  destruct (length_one _ Ho) as (b & ->).
  rewrite occurs_single in Hocc. apply Ascii.eqb_eq in Hocc. congruence.
Qed.

Lemma safe_PhiT W box value old :
  wf W /\ Elim W -> PhiT W box value -> dict_get W box = Some old ->
  String.length old = 1 -> value = old.
Proof.
  intros [Hwf HE] (b1 & a & b & old' & Hb1 & Hp & Hold & ->) Hg Ho.
  assert (old' = old) by congruence. subst old'.
  destruct (length_one _ Ho) as (c & ->).
  assert (Hb1in : In b1 boxes) by (eapply wf_get_In; eauto).
  pose proof (peers_sym _ _ Hb1in Hp) as Hsym.
  pose proof (HE box b1 c _ Hg Hsym Hb1) as Hocc.
  simpl in Hocc. apply orb_false_iff in Hocc. destruct Hocc as [Ea Hocc].
  apply orb_false_iff in Hocc. destruct Hocc as [Eb _].
  rewrite (str_remove_absent a (String c "")).
  - apply str_remove_absent. rewrite occurs_single.
    rewrite Ascii.eqb_sym. exact Eb.
  - rewrite occurs_single. rewrite Ascii.eqb_sym. exact Ea.
Qed.

Lemma quiet_wf V W : wf V -> quiet V W -> wf W.
Proof. intros H (S & _). eapply wf_shrinks; eauto. Qed.


(** * The propagators *)

Lemma wf_NoDup V : wf V -> NoDup (dict_keys V).
Proof. unfold wf. intros ->. apply boxes_NoDup. Qed.

Lemma keys_with_len_In V n q :
  NoDup (dict_keys V) ->
  (In q (keys_with_len n V) <->
   exists v, dict_get V q = Some v /\ String.length v = n).
Proof.
  intros Hnd. unfold keys_with_len. rewrite in_map_iff. split.
  - intros ([k v] & <- & Hin). apply filter_In in Hin. destruct Hin as [Hin Hl].
    simpl in *. apply Nat.eqb_eq in Hl. exists v. split; auto.
    apply In_dict_get; auto.
  - intros (v & Hg & Hl). exists (q, v). split; auto.
    apply filter_In. split; [apply dict_get_Some_In; auto|].
    simpl. apply Nat.eqb_eq. auto.
Qed.

Lemma asteps_wf Phi V s W s' : wf V -> asteps Phi V s W s' -> wf W.
Proof. intros Hwf H. eapply wf_shrinks; eauto. eapply asteps_shrinks; eauto. Qed.

Lemma ElimAt_shrinks q W W' v :
  ElimAt q W -> shrinks W' W -> dict_get W q = Some v -> String.length v <= 1 ->
  ElimAt q W'.
Proof.
  intros HE HS Hq Hl a p w Hq' Hp Hw.
  destruct (shrinks_get_inv _ _ _ _ HS Hq') as (v' & Hv' & Hsub).
  assert (v' = v) by congruence. subst v'.
  assert (v = String a "").
  { symmetry. apply subseq_length_eq; auto.
    apply subseq_length in Hsub. simpl in *. lia. }
  subst v.
  destruct (shrinks_get_inv _ _ _ _ HS Hw) as (w0 & Hw0 & Hsub0).
  eapply subseq_occurs_false; [exact Hsub0|].
  eapply HE; eauto.
Qed.

Lemma eliminate_spec V s :
  wf V ->
  exists V' s', eliminate V s = (Ok V', s') /\
                asteps PhiE V s V' s' /\ ElimPost V V'.
Proof.
  intros Hwf. unfold eliminate.
  pose proof (wf_NoDup _ Hwf) as Hnd.
  match goal with |- context [foldM ?f _ _] => set (outer := f) end.
  destruct (foldM_total
              (fun done W s1 => asteps PhiE V s W s1 /\ forall q, In q done -> ElimAt q W)
              outer (keys_with_len 1 V)) with (a := V) (s := s)
    as (V' & s' & E & HA & HD).
  - (* one fixed box *)
    intros done q rest W s1 El [HA HD].
    assert (Hq : In q (keys_with_len 1 V)).
    { rewrite El. apply in_or_app. simpl. auto. }
    apply keys_with_len_In in Hq; auto. destruct Hq as (v & Hv & Hlv).
    assert (HwfW : wf W) by (eapply asteps_wf; eauto).
    pose proof (asteps_shrinks _ _ _ _ _ HA) as HSW.
    assert (Hqb : In q boxes) by exact (wf_get_In _ _ _ Hwf Hv).
    destruct (shrinks_get _ _ _ _ HSW Hv) as (dq & Hdq & Hsub).
    assert (Hldq : String.length dq <= 1).
    { apply subseq_length in Hsub. lia. }
    unfold outer at 1.
    rewrite (bind_Ok _ _ _ _ _ (getitem_Ok _ _ _ _ Hdq)).
    rewrite (bind_Ok _ _ _ _ _ (getitem_Ok _ _ _ _ (peers_defined _ Hqb))).
    destruct (foldM_total
                (fun donep W2 s2 =>
                   asteps PhiE W s1 W2 s2 /\ dict_get W2 q = Some dq /\
                   forall p, In p donep -> forall a w,
                     dq = String a "" -> dict_get W2 p = Some w -> occurs a w = false)
                (fun values peer => v0 <- getitem values peer ;;
                                    assign_value values peer (str_remove dq v0))
                (peers_at q)) with (a := W) (s := s1)
      as (W' & s2 & E2 & HA2 & Hq2 & HP2).
    + (* one peer *)
      intros donep p restp W2 s2 Elp (HA2 & Hq2 & HP2).
      assert (Hp : In p (peers_at q)).
      { rewrite Elp. apply in_or_app. simpl. auto. }
      destruct (peers_facts _ _ Hqb Hp) as (Hne & Hpb & _).
      assert (HwfW2 : wf W2) by (eapply asteps_wf; eauto).
      destruct (wf_get _ _ HwfW2 Hpb) as (w & Hw).
      rewrite (bind_Ok _ _ _ _ _ (getitem_Ok _ _ _ _ Hw)).
      destruct (assign_value_total W2 p (str_remove dq w) w s2 Hw)
        as (W3 & s3 & E3 & Hsame & Hother).
      exists W3, s3. split; [exact E3|]. split; [|split].
      * eapply asteps_snoc; eauto using str_remove_subseq.
        exists q, dq, w. auto.
      * rewrite Hother; auto.
      * intros p' Hp' a w' -> Hw'.
        destruct (String.eqb p' p) eqn:Ep.
        -- apply String.eqb_eq in Ep. subst p'.
           rewrite Hsame in Hw'. injection Hw' as <-. apply occurs_str_remove.
        -- apply String.eqb_neq in Ep. rewrite Hother in Hw' by auto.
           apply in_app_or in Hp'. destruct Hp' as [Hp'|[->|[]]]; [|congruence].
           eapply HP2; eauto.
    + repeat split; auto using asteps_nil. intros p [].
    + exists W', s2. split; [exact E2|]. split.
      * eapply asteps_trans; eauto.
      * intros q' Hq'. apply in_app_or in Hq'. destruct Hq' as [Hq'|[<-|[]]].
        -- assert (Hq'k : In q' (keys_with_len 1 V)).
           { rewrite El. apply in_or_app. auto. }
           apply keys_with_len_In in Hq'k; auto. destruct Hq'k as (v' & Hv' & Hlv').
           destruct (shrinks_get _ _ _ _ HSW Hv') as (d' & Hd' & Hsub').
           eapply ElimAt_shrinks; eauto using asteps_shrinks.
           apply subseq_length in Hsub'. lia.
        -- intros a p w Hqa Hp Hw. eapply HP2; eauto. congruence.
  - split; [apply asteps_nil|]. intros q [].
  - exists V', s'. split; [exact E|]. split; [exact HA|].
    intros q v a p w Hv Hlv Hq' Hp Hw.
    assert (Hk : In q (keys_with_len 1 V)) by (apply keys_with_len_In; eauto).
    exact (HD q Hk a p w Hq' Hp Hw).
Qed.

Lemma only_choice_spec V s :
  wf V ->
  exists V' s', only_choice V s = (Ok V', s') /\ asteps PhiO V s V' s'.
Proof.
  intros Hwf. unfold only_choice.
  apply (foldM_inv (fun W s1 => asteps PhiO V s W s1)); [|apply asteps_nil].
  intros unit W s1 Hu HA.
  apply (foldM_inv (fun W s1 => asteps PhiO V s W s1)); [|exact HA].
  clear W s1 HA. intros digit W s1 Hd HA.
  assert (HwfW : wf W) by (eapply asteps_wf; eauto).
  apply chars_In in Hd. destruct Hd as (d & -> & _).
  assert (EF : filterM (fun box => v <- getitem W box ;;
                                  ret (str_contains (String d "") v)) unit s1 =
               (Ok (filter (fun box => match dict_get W box with
                                       | Some v => str_contains (String d "") v
                                       | None => false
                                       end) unit), s1)).
  { apply filterM_total. intros box Hb.
    destruct (wf_get _ _ HwfW (unit_in_boxes _ _ Hu Hb)) as (v & Hv).
    rewrite (bind_Ok _ _ _ _ _ (getitem_Ok _ _ _ _ Hv)), Hv. reflexivity. }
  rewrite (bind_Ok _ _ _ _ _ EF). clear EF.
  match goal with |- context [filter ?f unit] => set (pl := filter f unit) end.
  assert (Hpl : forall box, In box pl -> exists old,
               dict_get W box = Some old /\ occurs d old = true).
  { intros box Hb. apply filter_In in Hb. destruct Hb as [_ Hb].
    destruct (dict_get W box) as [old|]; [|discriminate].
    rewrite str_contains_single in Hb. eauto. }
  destruct pl as [|box [|box' pl']].
  - exists W, s1. split; [reflexivity|exact HA].
  - destruct (Hpl box (or_introl eq_refl)) as (old & Hold & Hocc).
    destruct (assign_value_total W box (String d "") old s1 Hold)
      as (W3 & s3 & E3 & _).
    exists W3, s3. split; [exact E3|].
    eapply asteps_snoc; eauto using occurs_subseq.
    exists d, old. auto.
  - exists W, s1. split; [reflexivity|exact HA].
Qed.

Lemma unit_pairs_In unit b1 b2 :
  In (b1, b2) (unit_pairs unit) <-> In b1 unit /\ In b2 unit.
Proof.
  unfold unit_pairs. rewrite in_flat_map. split.
  - intros (x & Hx & Hin). apply in_map_iff in Hin.
    destruct Hin as (y & [= <- <-] & Hy). auto.
  - intros [H1 H2]. exists b1. split; auto. apply in_map_iff. eauto.
Qed.

Lemma twins_of_total W unit s :
  wf W -> In unit unitlist ->
  twins_of W unit s = (Ok (filter (twin_cond W) (unit_pairs unit)), s).
Proof.
  intros Hwf Hu. unfold twins_of. apply filterM_total.
  intros [b1 b2] Hin. apply unit_pairs_In in Hin. destruct Hin as [H1 H2].
  destruct (wf_get _ _ Hwf (unit_in_boxes _ _ Hu H1)) as (v1 & Hv1).
  destruct (wf_get _ _ Hwf (unit_in_boxes _ _ Hu H2)) as (v2 & Hv2).
  unfold is_twin, twin_cond. simpl.
  rewrite (bind_Ok _ _ _ _ _ (getitem_Ok _ _ _ _ Hv1)).
  rewrite (bind_Ok _ _ _ _ _ (getitem_Ok _ _ _ _ Hv2)).
  rewrite Hv1, Hv2. reflexivity.
Qed.

Lemma shared_peers_total b1 b2 s :
  In b1 boxes -> In b2 boxes ->
  shared_peers b1 b2 s =
  (Ok (pset_inter (peers_at b1) (pset_diff (pset_diff (peers_at b2) [b1]) [b2])), s).
Proof.
  intros H1 H2. unfold shared_peers.
  rewrite (bind_Ok _ _ _ _ _ (getitem_Ok _ _ _ _ (peers_defined _ H1))).
  rewrite (bind_Ok _ _ _ _ _ (getitem_Ok _ _ _ _ (peers_defined _ H2))).
  reflexivity.
Qed.

(** One twin, processed on a board where its first member has at most two
    candidates left. *)
Lemma twin_step_spec W b1 b2 v s :
  wf W -> In b1 boxes -> In b2 boxes ->
  dict_get W b1 = Some v -> String.length v <= 2 ->
  exists W' s', twin_step W (b1, b2) s = (Ok W', s') /\ asteps PhiT W s W' s'.
Proof.
  intros Hwf H1 H2 Hv Hl. unfold twin_step.
  rewrite (bind_Ok _ _ _ _ _ (getitem_Ok _ _ _ _ Hv)).
  destruct (String.length v <? 2) eqn:L.
  - exists W, s. split; [reflexivity|apply asteps_nil].
  - apply Nat.ltb_ge in L.
    destruct v as [|a [|b [|? ?]]]; simpl in Hl, L; try lia.
    cbn [chars].
    rewrite (bind_Ok _ _ _ _ _ (shared_peers_total _ _ _ H1 H2)).
    match goal with |- context [foldM ?f ?l W s] =>
      destruct (foldM_inv (fun W3 s3 => asteps PhiT W s W3 s3 /\
                             dict_get W3 b1 = Some (String a (String b ""))) f l)
        with (a := W) (s := s) as (W' & s' & E & HA' & _)
    end.
    3:{ exists W', s'. split; assumption. }
    2:{ split; [apply asteps_nil|exact Hv]. }
    intros p W3 s3 Hp [HA Hb1].
    apply filter_In in Hp. destruct Hp as [Hp _].
    destruct (peers_facts _ _ H1 Hp) as (Hne & Hpb & _).
    assert (HwfW3 : wf W3) by (eapply asteps_wf; eauto).
    destruct (wf_get _ _ HwfW3 Hpb) as (w & Hw).
    rewrite (bind_Ok _ _ _ _ _ (getitem_Ok _ _ _ _ Hw)).
    destruct (assign_value_total W3 p
                (str_remove (String b "") (str_remove (String a "") w)) w s3 Hw)
      as (W4 & s4 & E4 & _ & Hother).
    exists W4, s4. split; [exact E4|]. split.
    + eapply asteps_snoc; eauto.
      * eapply subseq_trans; apply str_remove_subseq.
      * exists b1, a, b, w. auto.
    + rewrite Hother; auto.
Qed.

Lemma twin_cond_len W tw :
  twin_cond W tw = true ->
  exists v, dict_get W (fst tw) = Some v /\ String.length v = 2.
Proof.
  unfold twin_cond. destruct (dict_get W (fst tw)) as [v1|]; [|discriminate].
  destruct (dict_get W (snd tw)) as [v2|]; [|discriminate].
  intros H. apply andb_true_iff in H. destruct H as [H _].
  apply andb_true_iff in H. destruct H as [H _].
  apply andb_true_iff in H. destruct H as [Ha Hb].
  apply Nat.eqb_eq in Ha, Hb. exists v1. split; auto. lia.
Qed.

Lemma naked_twins_spec V s :
  wf V ->
  exists V' s', naked_twins V s = (Ok V', s') /\ asteps PhiT V s V' s'.
Proof.
  intros Hwf. unfold naked_twins.
  apply (foldM_inv (fun W s1 => asteps PhiT V s W s1)); [|apply asteps_nil].
  intros unit W s1 Hu HA.
  assert (HwfW : wf W) by (eapply asteps_wf; eauto).
  rewrite (bind_Ok _ _ _ _ _ (twins_of_total _ _ _ HwfW Hu)).
  destruct (foldM_inv (fun W2 s2 => asteps PhiT W s1 W2 s2) twin_step
                      (filter (twin_cond W) (unit_pairs unit))) with (a := W) (s := s1)
    as (W' & s' & E & HA').
  - intros [b1 b2] W2 s2 Hin HA2.
    apply filter_In in Hin. destruct Hin as [Hin Hc].
    apply unit_pairs_In in Hin. destruct Hin as [H1 H2].
    destruct (twin_cond_len _ _ Hc) as (v & Hv & Hlv). simpl in Hv.
    pose proof (asteps_shrinks _ _ _ _ _ HA2) as HS.
    destruct (shrinks_get _ _ _ _ HS Hv) as (v' & Hv' & Hsub).
    destruct (twin_step_spec W2 b1 b2 v' s2) as (W3 & s3 & E3 & HA3); auto.
    + eapply wf_shrinks; eauto.
    + eapply unit_in_boxes; eauto.
    + eapply unit_in_boxes; eauto.
    + apply subseq_length in Hsub. lia.
    + exists W3, s3. split; auto. eapply asteps_trans; eauto.
  - apply asteps_nil.
  - exists W', s'. split; auto. eapply asteps_trans; eauto.
Qed.


(** * Counting fixed boxes *)

Lemma n_solved_cons k v V :
  n_solved ((k, v) :: V) = (if String.length v =? 1 then 1 else 0) + n_solved V.
Proof.
  unfold n_solved, keys_with_len. simpl.
  destruct (String.length v =? 1); reflexivity.
Qed.

Lemma n_solved_le V : n_solved V <= length V.
Proof.
  unfold n_solved, keys_with_len. rewrite length_map. apply filter_length_le.
Qed.

Lemma no_empty_cons k v V :
  no_empty ((k, v) :: V) <-> String.length v <> 0 /\ no_empty V.
Proof.
  unfold no_empty. split.
  - intros H. inversion H; subst. auto.
  - intros [H1 H2]. constructor; auto.
Qed.

Lemma count_mono W V : shrinks W V -> no_empty W -> n_solved V <= n_solved W.
Proof.
  induction 1 as [|[kw w] [kv v] W V [Hk Hs] H IH]; intros Hne; auto.
  apply no_empty_cons in Hne. destruct Hne as [Hw Hne].
  rewrite !n_solved_cons. specialize (IH Hne). simpl in Hs.
  apply subseq_length in Hs.
  destruct (String.length v =? 1) eqn:Lv; destruct (String.length w =? 1) eqn:Lw; try lia.
  apply Nat.eqb_eq in Lv. apply Nat.eqb_neq in Lw. lia.
Qed.

(** If a pass neither empties a box nor changes the count, the fixed boxes
    at its end were already fixed, with the same digit, at its start. *)
Lemma fixed_back W V :
  shrinks W V -> no_empty W -> n_solved W = n_solved V -> agree_fixed W V.
Proof.
  induction 1 as [|[kw w] [kv v] W V [Hk Hs] H IH]; intros Hne Hn k x Hg Hl.
  - discriminate.
  - apply no_empty_cons in Hne. destruct Hne as [Hw Hne].
    rewrite !n_solved_cons in Hn. simpl in Hk, Hs. subst kw.
    pose proof (count_mono _ _ H Hne) as Hmono.
    pose proof (subseq_length _ _ Hs) as Hlen.
    simpl in *. destruct (String.eqb k kv).
    + injection Hg as ->. f_equal. symmetry. apply subseq_length_eq; auto.
      destruct (String.length v =? 1) eqn:Lv.
      * apply Nat.eqb_eq in Lv. lia.
      * rewrite Hl in Hn. simpl in Hn. lia.
    + apply IH; auto.
      destruct (String.length v =? 1) eqn:Lv; destruct (String.length w =? 1) eqn:Lw; try lia.
      apply Nat.eqb_eq in Lv. apply Nat.eqb_neq in Lw. lia.
Qed.

Lemma quiet_n_solved_aux W V :
  shrinks W V -> NoDup (dict_keys V) -> agree_fixed V W -> agree_fixed W V ->
  n_solved W = n_solved V.
Proof.
  induction 1 as [|[kw w] [kv v] W V [Hk Hs] H IH]; intros Hnd HA HB; auto.
  simpl in Hk. subst kw. rewrite !n_solved_cons.
  inversion Hnd as [|? ? Hni Hnd']; subst.
  assert (Htail : forall (X Y : Board) x y, agree_fixed ((kv, x) :: X) ((kv, y) :: Y) ->
                    ~ In kv (dict_keys X) -> agree_fixed X Y).
  { intros X Y x y HXY HnX k z Hg Hl.
    assert (k <> kv).
    { intros ->. apply HnX. eapply dict_get_key_In; eauto. }
    specialize (HXY k z). simpl in HXY.
    apply String.eqb_neq in H0. rewrite H0 in HXY. auto. }
  rewrite IH; auto.
  - f_equal.
    destruct (String.length v =? 1) eqn:Lv; destruct (String.length w =? 1) eqn:Lw; auto.
    + apply Nat.eqb_eq in Lv. specialize (HA kv v). simpl in HA.
      rewrite String.eqb_refl in HA. specialize (HA eq_refl Lv).
      injection HA as ->. rewrite Lv in Lw. discriminate.
    + apply Nat.eqb_eq in Lw. specialize (HB kv w). simpl in HB.
      rewrite String.eqb_refl in HB. specialize (HB eq_refl Lw).
      injection HB as ->. rewrite Lw in Lv. discriminate.
  - eapply Htail; eauto.
  - eapply Htail; eauto. rewrite (shrinks_keys _ _ H). exact Hni.
Qed.

Lemma quiet_n_solved V W : wf V -> quiet V W -> n_solved W = n_solved V.
Proof.
  intros Hwf (HS & HA & HB). apply quiet_n_solved_aux; auto using wf_NoDup.
Qed.

Lemma no_empty_check V :
  (length (keys_with_len 0 V) =? 0) = true <-> no_empty V.
Proof.
  unfold keys_with_len, no_empty. rewrite length_map, Nat.eqb_eq.
  induction V as [|[k v] V IH]; simpl.
  - split; auto.
  - destruct (String.length v =? 0) eqn:L; simpl.
    + apply Nat.eqb_eq in L. split; [discriminate|].
      intros H. inversion H; subst. simpl in *. contradiction.
    + apply Nat.eqb_neq in L. rewrite IH. split.
      * intros H. constructor; auto.
      * intros H. inversion H; auto.
Qed.

Lemma no_empty_get V k v : no_empty V -> dict_get V k = Some v -> v <> "".
Proof.
  unfold no_empty. intros H Hg. apply dict_get_Some_In in Hg.
  rewrite Forall_forall in H. specialize (H _ Hg). simpl in H.
  intros ->. apply H. reflexivity.
Qed.

(** * One pass of the three propagators *)

Lemma grows_refl s : grows s s [] [].
Proof. unfold grows. rewrite !app_nil_r. auto. Qed.

Lemma grows_trans s s1 s2 n1 n2 e1 e2 :
  grows s s1 n1 e1 -> grows s1 s2 n2 e2 -> grows s s2 (n1 ++ n2) (e1 ++ e2).
Proof.
  unfold grows. intros [A1 B1] [A2 B2]. rewrite A2, B2, A1, B1, !app_assoc. auto.
Qed.

Lemma grows_new_unique s s' n1 e1 n2 :
  grows s s' n1 e1 -> assignments s' = assignments s ++ n2 -> n2 = n1.
Proof.
  unfold grows. intros [A _] B. rewrite A in B. apply app_inv_head in B. auto.
Qed.

Lemma fixings_app e1 e2 : fixings (e1 ++ e2) = fixings e1 + fixings e2.
Proof. unfold fixings. rewrite filter_app, length_app. reflexivity. Qed.

Lemma assign_fixings_app e1 e2 :
  assign_fixings (e1 ++ e2) = assign_fixings e1 + assign_fixings e2.
Proof. unfold assign_fixings. rewrite filter_app, length_app. reflexivity. Qed.

Lemma assign_fixings_all evs :
  Forall (fun e => by_assign e = true) evs -> assign_fixings evs = fixings evs.
Proof.
  unfold assign_fixings, fixings. induction 1 as [|e evs He H IH]; simpl; auto.
  rewrite He, andb_true_r. destruct (is_fixing e); simpl; auto.
Qed.

Lemma asteps_grows Phi V s V' s' :
  asteps Phi V s V' s' ->
  exists new evs, grows s s' new evs /\ Chain V new V' /\
                  Forall (fun e => by_assign e = true) evs /\
                  fixings evs = length new.
Proof.
  intros H. destruct (asteps_trace _ _ _ _ _ H) as (new & evs & A & B & C & D & E).
  exists new, evs. unfold grows. auto.
Qed.

(** Everything the later proofs need to know about one pass. *)
Lemma one_pass_spec V s :
  wf V ->
  exists V3 s3 new evs,
    one_pass V s = (Ok V3, s3) /\
    grows s s3 new evs /\ Chain V new V3 /\
    Forall (fun e => by_assign e = true) evs /\ fixings evs = length new /\
    (no_empty V3 -> n_solved V3 = n_solved V -> Elim V3) /\
    (Cons V -> (new = [] -> quiet V V3) /\
               (forall B rest, new = B :: rest -> agree_fixed V B)).
Proof.
  intros Hwf. unfold one_pass.
  destruct (eliminate_spec V s Hwf) as (V1 & s1 & E1 & A1 & HP).
  assert (Hwf1 : wf V1) by (eapply asteps_wf; eauto).
  destruct (only_choice_spec V1 s1 Hwf1) as (V2 & s2 & E2 & A2).
  assert (Hwf2 : wf V2) by (eapply asteps_wf; eauto).
  destruct (naked_twins_spec V2 s2 Hwf2) as (V3 & s3 & E3 & A3).
  destruct (asteps_grows _ _ _ _ _ A1) as (n1 & e1 & G1 & C1 & F1 & N1).
  destruct (asteps_grows _ _ _ _ _ A2) as (n2 & e2 & G2 & C2 & F2 & N2).
  destruct (asteps_grows _ _ _ _ _ A3) as (n3 & e3 & G3 & C3 & F3 & N3).
  pose proof (asteps_shrinks _ _ _ _ _ A1) as S1.
  pose proof (asteps_shrinks _ _ _ _ _ A2) as S2.
  pose proof (asteps_shrinks _ _ _ _ _ A3) as S3.
  exists V3, s3, (n1 ++ n2 ++ n3), (e1 ++ e2 ++ e3).
  rewrite (bind_Ok _ _ _ _ _ E1), (bind_Ok _ _ _ _ _ E2).
  split; [exact E3|]. split; [|split; [|split; [|split; [|split]]]].
  - eapply grows_trans; eauto. eapply grows_trans; eauto.
  - eapply Chain_app; eauto. eapply Chain_app; eauto.
  - apply Forall_app. split; auto. apply Forall_app. auto.
  - rewrite !fixings_app, !length_app. lia.
  - (* the count did not move and nothing is empty *)
    intros Hne Hn q p a w Hq Hp Hw.
    assert (S31 : shrinks V3 V1) by (eapply shrinks_trans; eauto).
    assert (S30 : shrinks V3 V) by (eapply shrinks_trans; eauto).
    pose proof (fixed_back _ _ S30 Hne Hn q _ Hq eq_refl) as HqV.
    destruct (shrinks_get_inv _ _ _ _ S31 Hq) as (v1 & Hv1 & Hsub1).
    destruct (shrinks_get _ _ _ _ S1 HqV) as (v1' & Hv1' & Hsub1').
    assert (v1' = v1) by congruence. subst v1'.
    assert (v1 = String a "").
    { apply subseq_length_eq; auto. apply subseq_length in Hsub1. simpl in *.
      apply subseq_length in Hsub1'. simpl in *. lia. }
    subst v1.
    destruct (shrinks_get_inv _ _ _ _ S31 Hw) as (w1 & Hw1 & Hsubw).
    eapply subseq_occurs_false; [exact Hsubw|].
    eapply (HP q (String a "") a p w1); eauto.
  - (* starting from a consistent board *)
    intros HC.
    destruct (asteps_quiet PhiE Cons safe_PhiE Cons_quiet _ _ _ _ A1 HC n1 (proj1 G1))
      as [Q1 B1].
    destruct n1 as [|B n1'].
    2:{ split; [discriminate|]. intros B' rest [= <- <-]. eapply B1; eauto. }
    destruct (Q1 eq_refl) as [QV1 HC1].
    assert (HE1 : Elim V1).
    { intros q p a w Hq Hp Hw.
      destruct QV1 as (_ & _ & HB).
      eapply (HP q (String a "") a p w); eauto. }
    destruct (asteps_quiet PhiO (fun _ => True)
                (fun W b v o _ => safe_PhiO W b v o) (fun _ _ _ _ => I)
                _ _ _ _ A2 I n2 (proj1 G2)) as [Q2 B2].
    destruct n2 as [|B n2'].
    2:{ split; [discriminate|]. intros B' rest [= <- <-].
        eapply agree_fixed_trans; [apply QV1|]. eapply B2; eauto. }
    destruct (Q2 eq_refl) as [QV2 _].
    assert (HE2 : Elim V2) by (eapply Elim_quiet; eauto).
    destruct (asteps_quiet PhiT (fun W => wf W /\ Elim W) safe_PhiT
                (fun X Y HX Q => conj (quiet_wf _ _ (proj1 HX) Q)
                                      (Elim_quiet _ _ (proj2 HX) Q))
                _ _ _ _ A3 (conj Hwf2 HE2) n3 (proj1 G3)) as [Q3 B3].
    simpl. split.
    + intros ->. destruct (Q3 eq_refl) as [QV3 _].
      eapply quiet_trans; eauto. eapply quiet_trans; eauto.
    + intros B rest ->.
      eapply agree_fixed_trans; [apply QV1|].
      eapply agree_fixed_trans; [apply QV2|]. eapply B3; eauto.
Qed.


(** * [reduce_puzzle] *)

Lemma bind_assoc {A B C} (m : M A) (f : A -> M B) (g : B -> M C) s :
  bind (bind m f) g s = bind m (fun x => bind (f x) g) s.
Proof. unfold bind. destruct (m s) as [[a|e|] s1]; reflexivity. Qed.

Lemma reduce_puzzle_unfold fuel V s :
  reduce_puzzle (S fuel) V s =
  bind (one_pass V)
       (fun V3 =>
          if negb (length (keys_with_len 0 V3) =? 0) then ret RFalse
          else if n_solved V3 =? n_solved V then ret (RBoard V3)
          else reduce_puzzle fuel V3) s.
Proof.
  unfold one_pass. cbn [reduce_puzzle]. unfold bind.
  destruct (eliminate V s) as [[V1|e|] s1]; try reflexivity.
  destruct (only_choice V1 s1) as [[V2|e|] s2]; try reflexivity.
Qed.

Lemma wf_length V : wf V -> length V = 81.
Proof.
  unfold wf, dict_keys. intros H. rewrite <- (length_map fst), H. reflexivity.
Qed.

Lemma reduce_puzzle_spec fuel : forall V s r s',
  wf V -> reduce_puzzle fuel V s = (Ok r, s') -> ReducePost V s r s'.
Proof.
  induction fuel as [|fuel IH]; intros V s r s' Hwf E; [discriminate|].
  rewrite reduce_puzzle_unfold in E.
  destruct (one_pass_spec V s Hwf)
    as (V3 & s3 & n1 & e1 & E1 & G1 & C1 & F1 & N1 & HElim & HCons).
  rewrite (bind_Ok _ _ _ _ _ E1) in E.
  destruct (length (keys_with_len 0 V3) =? 0) eqn:Hemp; simpl in E.
  - apply no_empty_check in Hemp.
    destruct (n_solved V3 =? n_solved V) eqn:Hred.
    + apply Nat.eqb_eq in Hred. injection E as <- <-.
      exists n1, e1, V3.
      split; [exact G1|]. split; [exact C1|]. split; [exact F1|]. split; [exact N1|].
      split; [right; auto|].
      intros HC. destruct (HCons HC) as [Hq Hfirst]. split; auto.
    + apply Nat.eqb_neq in Hred.
      assert (Hwf3 : wf V3).
      { eapply wf_shrinks; eauto. eapply Chain_shrinks; eauto. }
      destruct (IH _ _ _ _ Hwf3 E)
        as (n2 & e2 & V' & G2 & C2 & F2 & N2 & Hr & _).
      exists (n1 ++ n2), (e1 ++ e2), V'. split; [|split; [|split; [|split; [|split]]]].
      * eapply grows_trans; eauto.
      * eapply Chain_app; eauto.
      * apply Forall_app; auto.
      * rewrite fixings_app, length_app. lia.
      * exact Hr.
      * intros HC. destruct (HCons HC) as [Hq Hfirst].
        destruct n1 as [|B n1'].
        -- exfalso. apply Hred. apply quiet_n_solved; auto.
        -- split; [discriminate|]. intros B' rest [= <- <-]. eapply Hfirst; eauto.
  - injection E as <- <-.
    exists n1, e1, V3.
    split; [exact G1|]. split; [exact C1|]. split; [exact F1|]. split; [exact N1|].
    split; [left; reflexivity|].
    intros HC. destruct (HCons HC) as [Hq Hfirst]. split; auto.
Qed.

(** The loop stops: every pass that neither fails nor ends the loop fixes
    at least one more box, and there are 81 boxes. *)
Lemma reduce_puzzle_total fuel : forall V s,
  wf V -> 82 <= fuel + n_solved V ->
  exists r s', reduce_puzzle fuel V s = (Ok r, s').
Proof.
  induction fuel as [|fuel IH]; intros V s Hwf Hf.
  - pose proof (n_solved_le V). rewrite (wf_length _ Hwf) in H. simpl in Hf. lia.
  - rewrite reduce_puzzle_unfold.
    destruct (one_pass_spec V s Hwf)
      as (V3 & s3 & n1 & e1 & E1 & G1 & C1 & _).
    rewrite (bind_Ok _ _ _ _ _ E1).
    destruct (length (keys_with_len 0 V3) =? 0) eqn:Hemp; simpl.
    + destruct (n_solved V3 =? n_solved V) eqn:Hred.
      * eexists _, _. reflexivity.
      * apply Nat.eqb_neq in Hred. apply no_empty_check in Hemp.
        pose proof (Chain_shrinks _ _ _ C1) as S3.
        pose proof (count_mono _ _ S3 Hemp).
        apply IH; [eapply wf_shrinks; eauto|lia].
    + eexists _, _. reflexivity.
Qed.

Lemma ReducePost_shrinks V s B s' : ReducePost V s (RBoard B) s' -> shrinks B V.
Proof.
  intros (new & evs & V' & _ & C & _ & _ & [Hr|(Hr & _)] & _); [discriminate|].
  injection Hr as ->. eapply Chain_shrinks; eauto.
Qed.


(** * [search] *)

Lemma len_at_get V b v : dict_get V b = Some v -> len_at V b = String.length v.
Proof. unfold len_at. intros ->. reflexivity. Qed.

Lemma all_check_total P s :
  wf P ->
  allM (fun b => v <- getitem P b ;; ret (String.length v =? 1)) boxes s =
  (Ok (forallb (fun b => len_at P b =? 1) boxes), s).
Proof.
  intros Hwf. apply allM_total. intros b Hb.
  destruct (wf_get _ _ Hwf Hb) as (v & Hv).
  rewrite (bind_Ok _ _ _ _ _ (getitem_Ok _ _ _ _ Hv)), (len_at_get _ _ _ Hv).
  reflexivity.
Qed.

Lemma all_check_fixed P :
  wf P -> forallb (fun b => len_at P b =? 1) boxes = true -> all_fixed P.
Proof.
  intros Hwf H. rewrite forallb_forall in H.
  unfold all_fixed. apply Forall_forall. intros [k v] Hin. simpl.
  assert (Hg : dict_get P k = Some v).
  { apply In_dict_get; auto. apply wf_NoDup; auto. }
  specialize (H k (wf_get_In _ _ _ Hwf Hg)).
  rewrite (len_at_get _ _ _ Hg) in H. apply Nat.eqb_eq. exact H.
Qed.

Lemma all_fixed_get P k v : all_fixed P -> dict_get P k = Some v -> String.length v = 1.
Proof.
  unfold all_fixed. intros H Hg. apply dict_get_Some_In in Hg.
  rewrite Forall_forall in H. apply (H _ Hg).
Qed.

Lemma collect_total P : forall bs acc s,
  (forall b, In b bs -> In b boxes) -> wf P ->
  foldM (fun acc b => v <- getitem P b ;; ret (acc ++ [(String.length v, b)])) bs acc s =
  (Ok (acc ++ map (fun b => (len_at P b, b)) bs), s).
Proof.
  induction bs as [|b bs IH]; intros acc s Hin Hwf; simpl.
  - rewrite app_nil_r. reflexivity.
  - destruct (wf_get _ _ Hwf (Hin b (or_introl eq_refl))) as (v & Hv).
    rewrite (bind_Ok _ _ _ _ _ (bind_Ok _ _ _ _ _ (getitem_Ok _ _ _ _ Hv))).
    rewrite IH; [|intros b' Hb'; apply Hin; right; exact Hb'|exact Hwf].
    rewrite <- app_assoc, (len_at_get _ _ _ Hv). reflexivity.
Qed.

Lemma branch_candidates_total P s :
  wf P ->
  branch_candidates P s =
  (Ok (map (fun b => (len_at P b, b)) (filter (fun b => 1 <? len_at P b) boxes)), s).
Proof.
  intros Hwf. unfold branch_candidates.
  assert (EF : filterM (fun b => v <- getitem P b ;; ret (1 <? String.length v)) boxes s =
               (Ok (filter (fun b => 1 <? len_at P b) boxes), s)).
  { apply filterM_total. intros b Hb.
    destruct (wf_get _ _ Hwf Hb) as (v & Hv).
    rewrite (bind_Ok _ _ _ _ _ (getitem_Ok _ _ _ _ Hv)), (len_at_get _ _ _ Hv).
    reflexivity. }
  rewrite (bind_Ok _ _ _ _ _ EF).
  rewrite collect_total; auto.
  intros b Hb. apply filter_In in Hb. tauto.
Qed.

Lemma min_pair_In l x : min_pair l = Some x -> In x l.
Proof.
  revert x. induction l as [|y l IH]; intros x; simpl; [discriminate|].
  destruct (min_pair l) as [z|].
  - intros [= <-]. destruct (pair_ltb z y); auto.
  - intros [= <-]. auto.
Qed.

Lemma min_pair_Some l : l <> [] -> exists x, min_pair l = Some x.
Proof.
  destruct l as [|y l]; [congruence|]. intros _. simpl.
  destruct (min_pair l); eauto.
Qed.

Lemma candidate_facts P n box :
  In (n, box) (map (fun b => (len_at P b, b)) (filter (fun b => 1 <? len_at P b) boxes)) ->
  In box boxes /\ exists v, dict_get P box = Some v /\ 2 <= String.length v.
Proof.
  intros H. apply in_map_iff in H. destruct H as (b & [= <- <-] & Hb).
  apply filter_In in Hb. destruct Hb as [Hb Hl]. split; auto.
  apply Nat.ltb_lt in Hl. unfold len_at in Hl.
  destruct (dict_get P b) as [v|]; [|lia]. exists v. split; auto.
Qed.

(** Fixing a box of a reduced board to one of its candidates cannot clash
    with a fixed peer. *)
Lemma Cons_branch P box vbox c :
  wf P -> Elim P -> dict_get P box = Some vbox -> occurs c vbox = true ->
  Cons (dict_set P box (String c "")).
Proof.
  intros Hwf HE Hbox Hc q p a Hq Hp Hp'.
  assert (Hboxb : In box boxes) by (eapply wf_get_In; eauto).
  destruct (String.eqb box q) eqn:Eq.
  - apply String.eqb_eq in Eq. subst q.
    rewrite dict_get_set_same in Hq. injection Hq as <-.
    destruct (peers_facts _ _ Hboxb Hp) as (Hne & Hpb & Hsym).
    rewrite dict_get_set_other in Hp' by auto.
    pose proof (HE p box c vbox Hp' Hsym Hbox). congruence.
  - apply String.eqb_neq in Eq. rewrite dict_get_set_other in Hq by auto.
    destruct (String.eqb box p) eqn:Ep.
    + apply String.eqb_eq in Ep. subst p.
      rewrite dict_get_set_same in Hp'. injection Hp' as <-.
      pose proof (HE q box c vbox Hq Hp Hbox). congruence.
    + apply String.eqb_neq in Ep. rewrite dict_get_set_other in Hp' by auto.
      pose proof (HE q p a _ Hq Hp Hp') as H. simpl in H.
      rewrite Ascii.eqb_refl in H. discriminate.
Qed.

Lemma setitem_branch P box vbox v s :
  dict_get P box = Some vbox ->
  setitem ByBranch P box v s =
  (Ok (dict_set P box v),
   mkState (assignments s) (stores s ++ [mkStore ByBranch box vbox v])).
Proof. intros H. unfold setitem. rewrite H. reflexivity. Qed.

Lemma canonicalB_set P box vbox v :
  canonicalB P -> dict_get P box = Some vbox -> subseq v vbox ->
  canonicalB (dict_set P box v).
Proof.
  intros HC Hg Hs. eapply canonicalB_shrinks; eauto. eapply shrinks_set; eauto.
Qed.

Lemma subseq_NoDup_chars s t : subseq s t -> NoDup (chars t) -> NoDup (chars s).
Proof.
  induction 1 as [|c s t H IH|c s t H IH]; simpl; intros Hnd; auto.
  - inversion Hnd as [|? ? Hni Hnd']; subst. constructor; auto.
    intros Hin. apply Hni. apply chars_In in Hin. destruct Hin as (c' & [= <-] & Ho).
    apply chars_In. exists c. split; auto. eapply subseq_occurs; eauto.
  - inversion Hnd; subst. auto.
Qed.

Lemma canonical_NoDup s : canonical s -> NoDup (chars s).
Proof.
  intros H. eapply subseq_NoDup_chars; [exact H|].
  apply nodupb_NoDup. vm_compute. reflexivity.
Qed.

Section TryValues.

Variable rec : Board -> M pyres.
Hypothesis Hrec : forall W s r s',
  wf W -> canonicalB W -> rec W s = (Ok r, s') -> SearchPost W s r s'.

Variables (P : Board) (box vbox : string).
Hypothesis HwfP : wf P.
Hypothesis HcanP : canonicalB P.
Hypothesis HElimP : Elim P.
Hypothesis Hbox : dict_get P box = Some vbox.
Hypothesis Hlen : 2 <= String.length vbox.

Lemma try_values_spec : forall vs,
  NoDup vs -> incl vs (chars vbox) ->
  forall s r s', try_values rec P box vs s = (Ok r, s') ->
  exists new evs,
    grows s s' new evs /\
    assign_fixings evs = length new /\
    fixings evs = length new + branch_stores evs /\
    Sep new /\
    Forall (fun B => shrinks B P /\
                     exists v x, In v vs /\ dict_get B box = Some x /\ subseq x v) new /\
    (forall B rest, new = B :: rest ->
       agree_fixed P B /\ exists v, In v vs /\ dict_get B box = Some v) /\
    (forall B, r = RBoard B -> shrinks B P /\ all_fixed B /\ Elim B).
Proof.
  induction vs as [|v vs IH]; intros Hnd Hincl s r s' E.
  - simpl in E. injection E as <- <-. exists [], [].
    split; [apply grows_refl|]. repeat split; auto; try discriminate.
  - cbn [try_values] in E.
    rewrite (bind_Ok _ _ _ _ _ (setitem_branch _ _ _ v s Hbox)) in E.
    apply bind_inv in E. destruct E as (r1 & s1 & E1 & E).
    set (sa := mkState (assignments s) (stores s ++ [mkStore ByBranch box vbox v])) in *.
    set (Vj := dict_set P box v) in *.
    assert (Hv : In v (chars vbox)) by (apply Hincl; left; reflexivity).
    apply chars_In in Hv. destruct Hv as (c & Hvc & Hocc).
    assert (Hsub : subseq v vbox) by (subst v; apply occurs_subseq; auto).
    assert (HSj : shrinks Vj P) by (eapply shrinks_set; eauto).
    assert (Hwfj : wf Vj) by (eapply wf_set; eauto).
    assert (Hcanj : canonicalB Vj) by (eapply canonicalB_set; eauto).
    assert (HCj : Cons Vj) by (subst v; eapply Cons_branch; eauto).
    assert (Hjbox : dict_get Vj box = Some v) by apply dict_get_set_same.
    assert (HAj : agree_fixed P Vj).
    { eapply agree_fixed_set; eauto. lia. }
    destruct (Hrec _ _ _ _ Hwfj Hcanj E1)
      as (n1 & e1 & [G1a G1b] & AF1 & FX1 & Sep1 & All1 & First1 & Res1).
    set (e0 := mkStore ByBranch box vbox v) in *.
    assert (He0 : is_fixing e0 = true).
    { unfold is_fixing, e0. simpl. subst v. simpl.
      destruct (String.eqb vbox (String c "")) eqn:Eb; auto.
      apply String.eqb_eq in Eb. rewrite Eb in Hlen. simpl in Hlen. lia. }
    assert (G1 : grows s s1 n1 (e0 :: e1)).
    { split; [exact G1a|]. rewrite G1b. unfold sa. simpl.
      rewrite <- app_assoc. reflexivity. }
    assert (AF1' : assign_fixings (e0 :: e1) = length n1).
    { unfold assign_fixings in *. simpl. rewrite He0. simpl. exact AF1. }
    assert (FX1' : fixings (e0 :: e1) = length n1 + branch_stores (e0 :: e1)).
    { unfold fixings, branch_stores in *. simpl. rewrite He0. simpl. lia. }
    assert (All1' : Forall (fun B => shrinks B P /\
                     exists v0 x, In v0 (v :: vs) /\ dict_get B box = Some x /\ subseq x v0) n1).
    { eapply Forall_impl; [|exact All1]. simpl. intros B HB. split.
      - eapply shrinks_trans; eauto.
      - destruct (shrinks_get _ _ _ _ HB Hjbox) as (x & Hx & Hxs).
        exists v, x. split; [left; reflexivity|]. split; assumption. }
    assert (First1' : forall B rest, n1 = B :: rest ->
               agree_fixed P B /\ exists v0, In v0 (v :: vs) /\ dict_get B box = Some v0).
    { intros B rest En. pose proof (First1 HCj B rest En) as HA. split.
      - eapply agree_fixed_trans; eauto.
      - exists v. split; [left; reflexivity|].
        apply HA; [exact Hjbox|rewrite Hvc; reflexivity]. }
    destruct (truthy r1) eqn:T.
    + injection E as <- <-. exists n1, (e0 :: e1).
      split; [exact G1|]. split; [exact AF1'|]. split; [exact FX1'|].
      split; [exact Sep1|]. split; [exact All1'|]. split; [exact First1'|].
      intros B ->. destruct (Res1 B eq_refl) as (H1 & H2 & H3).
      split; [eapply shrinks_trans; eauto|]. split; assumption.
    + inversion Hnd as [|? ? Hni Hnd']; subst.
      assert (Hincl' : incl vs (chars vbox)).
      { intros x Hx. apply Hincl. right. exact Hx. }
      destruct (IH Hnd' Hincl' _ _ _ E)
        as (n2 & e2 & G2 & AF2 & FX2 & Sep2 & All2 & First2 & Res2).
      exists (n1 ++ n2), ((e0 :: e1) ++ e2).
      split; [eapply grows_trans; eauto|].
      split; [rewrite assign_fixings_app, length_app; lia|].
      split.
      { unfold branch_stores in *. rewrite fixings_app, filter_app, !length_app. lia. }
      split.
      { apply Sep_app; auto.
        intros l1' a b l2' Ea Eb Hab. subst b.
        rewrite Forall_forall in All1.
        assert (Ha : In a n1).
        { rewrite Ea. apply in_or_app. right. left. reflexivity. }
        destruct (shrinks_get _ _ _ _ (All1 a Ha) Hjbox) as (xa & Hxa & Hxs).
        destruct (First2 a l2' Eb) as (_ & v' & Hv' & Hav').
        assert (xa = v') by congruence. subst xa.
        assert (Hv'c : In v' (chars vbox)) by (apply Hincl'; auto).
        apply chars_In in Hv'c. destruct Hv'c as (c' & -> & _).
        apply subseq_single in Hxs. destruct Hxs as [Hxs|Hxs]; [discriminate|].
        apply Hni. rewrite <- Hxs. exact Hv'. }
      split.
      { apply Forall_app. split; auto.
        eapply Forall_impl; [|exact All2]. simpl.
        intros B (HB & v0 & x & Hv0 & Hx & Hxs). split; auto.
        exists v0, x. split; [right; exact Hv0|]. split; assumption. }
      split.
      { intros B rest En. destruct n1 as [|B1 n1'].
        - simpl in En. destruct (First2 B rest En) as (HA & v0 & Hv0 & Hx).
          split; [exact HA|]. exists v0. split; [right; exact Hv0|exact Hx].
        - injection En as <- <-. eapply First1'; eauto. }
      exact Res2.
Qed.

End TryValues.


Lemma branch_stores_all evs :
  Forall (fun e => by_assign e = true) evs -> branch_stores evs = 0.
Proof.
  unfold branch_stores. induction 1 as [|e evs He H IH]; simpl; auto.
  rewrite He. simpl. exact IH.
Qed.

Lemma branch_stores_app e1 e2 :
  branch_stores (e1 ++ e2) = branch_stores e1 + branch_stores e2.
Proof. unfold branch_stores. rewrite filter_app, length_app. reflexivity. Qed.

Lemma Forall_last_In {A} (Q : A -> Prop) l l' a :
  Forall Q l -> l = l' ++ [a] -> Q a.
Proof.
  intros H ->. rewrite Forall_forall in H. apply H.
  apply in_or_app. right. left. reflexivity.
Qed.

(** Partial correctness of [search], for any fuel. *)
Lemma search_spec loops depth : forall V s r s',
  wf V -> canonicalB V -> search loops depth V s = (Ok r, s') -> SearchPost V s r s'.
Proof.
  induction depth as [|depth IH]; intros V s r s' Hwf Hcan E; [discriminate|].
  cbn [search] in E. apply bind_inv in E. destruct E as (r0 & s0 & E0 & E).
  destruct (reduce_puzzle_spec _ _ _ _ _ Hwf E0)
    as (n0 & e0 & V' & G0 & C0 & F0 & N0 & Hr & HCons).
  pose proof (assign_fixings_all _ F0) as AF0.
  pose proof (branch_stores_all _ F0) as BS0.
  pose proof (Chain_Forall _ _ _ C0) as All0.
  pose proof (Chain_shrinks _ _ _ C0) as S0.
  assert (All0' : Forall (fun B => shrinks B V) n0).
  { eapply Forall_impl; [|exact All0]. simpl. tauto. }
  assert (Stop : forall r1,
             (forall B, r1 = RBoard B -> shrinks B V /\ all_fixed B /\ Elim B) ->
             SearchPost V s r1 s0).
  { intros r1 Hres. exists n0, e0.
    split; [exact G0|]. split; [lia|]. split; [lia|].
    split; [eapply Chain_Sep; eauto|]. split; [exact All0'|].
    split; [|exact Hres]. intros HC. apply (proj2 (HCons HC)). }
  destruct Hr as [-> | (-> & Hne & HE)].
  - injection E as <- <-. apply Stop. intros B [=].
  - assert (Hwf' : wf V') by (eapply wf_shrinks; eauto).
    assert (Hcan' : canonicalB V') by (eapply canonicalB_shrinks; eauto).
    rewrite (bind_Ok _ _ _ _ _ (all_check_total V' s0 Hwf')) in E.
    destruct (forallb (fun b => len_at V' b =? 1) boxes) eqn:D.
    + injection E as <- <-. apply Stop. intros B [= <-].
      split; [exact S0|]. split; [apply all_check_fixed; auto|exact HE].
    + rewrite (bind_Ok _ _ _ _ _ (branch_candidates_total V' s0 Hwf')) in E.
      destruct (min_pair _) as [[n box]|] eqn:Mp; [|discriminate].
      apply min_pair_In in Mp. apply candidate_facts in Mp.
      destruct Mp as (Hboxb & vbox & Hbox & Hlen).
      rewrite (bind_Ok _ _ _ _ _ (getitem_Ok _ _ _ _ Hbox)) in E.
      destruct (try_values_spec (search loops depth) IH V' box vbox
                  Hwf' Hcan' HE Hbox Hlen (chars vbox)
                  (canonical_NoDup _ (canonicalB_get _ _ _ Hcan' Hbox))
                  (incl_refl _) _ _ _ E)
        as (n1 & e1 & G1 & AF1 & FX1 & Sep1 & All1 & First1 & Res1).
      exists (n0 ++ n1), (e0 ++ e1).
      split; [eapply grows_trans; eauto|].
      split; [rewrite assign_fixings_app, length_app; lia|].
      split; [rewrite fixings_app, branch_stores_app, length_app; lia|].
      split.
      { apply Sep_app; auto; [eapply Chain_Sep; eauto|].
        intros l1' a b l2' Ea Eb Hab. subst b.
        destruct (Forall_last_In _ _ _ _ All0 Ea) as [_ HSa].
        destruct (shrinks_get_inv _ _ _ _ HSa Hbox) as (xa & Hxa & Hxs).
        destruct (First1 a l2' Eb) as (_ & v & Hv & Hav).
        assert (xa = v) by congruence. subst xa.
        apply chars_In in Hv. destruct Hv as (c & -> & _).
        apply subseq_length in Hxs. simpl in Hxs. lia. }
      split.
      { apply Forall_app. split; [exact All0'|].
        eapply Forall_impl; [|exact All1]. simpl.
        intros B [HB _]. eapply shrinks_trans; eauto. }
      split.
      { intros HC B rest En. destruct (HCons HC) as [Hq Hfirst].
        destruct n0 as [|B0 n0'].
        - simpl in En. destruct (First1 B rest En) as [HA _].
          eapply agree_fixed_trans; [|exact HA]. apply (Hq eq_refl eq_refl).
        - injection En as <- <-. eapply Hfirst; eauto. }
      intros B HB. destruct (Res1 B HB) as (H1 & H2 & H3).
      split; [eapply shrinks_trans; eauto|]. split; assumption.
Qed.

(** * Termination of [search] *)

Lemma unfixed_cons k v V :
  unfixed ((k, v) :: V) = (if 1 <? String.length v then 1 else 0) + unfixed V.
Proof. unfold unfixed. simpl. destruct (1 <? String.length v); reflexivity. Qed.

Lemma unfixed_le V : unfixed V <= length V.
Proof. unfold unfixed. apply filter_length_le. Qed.

Lemma unfixed_shrinks W V : shrinks W V -> unfixed W <= unfixed V.
Proof.
  induction 1 as [|[kw w] [kv v] W V [_ Hs] H IH]; auto.
  rewrite !unfixed_cons. simpl in Hs. apply subseq_length in Hs.
  destruct (1 <? String.length w) eqn:Lw; destruct (1 <? String.length v) eqn:Lv; try lia.
  apply Nat.ltb_lt in Lw. apply Nat.ltb_ge in Lv. lia.
Qed.

Lemma unfixed_set P box vbox v :
  dict_get P box = Some vbox -> 2 <= String.length vbox -> String.length v = 1 ->
  unfixed (dict_set P box v) < unfixed P.
Proof.
  intros Hg Hl Hv. induction P as [|[k0 v0] P IH]; simpl in Hg; [discriminate|].
  simpl. destruct (String.eqb box k0).
  - injection Hg as ->. rewrite !unfixed_cons.
    replace (1 <? String.length v) with false by (symmetry; apply Nat.ltb_ge; lia).
    replace (1 <? String.length vbox) with true by (symmetry; apply Nat.ltb_lt; lia).
    lia.
  - rewrite !unfixed_cons. specialize (IH Hg). lia.
Qed.

Lemma forallb_false {A} (f : A -> bool) l :
  forallb f l = false -> exists x, In x l /\ f x = false.
Proof.
  induction l as [|x l IH]; simpl; [discriminate|].
  destruct (f x) eqn:E; simpl.
  - intros H. destruct (IH H) as (y & Hy & Hf). eauto.
  - intros _. eauto.
Qed.

Lemma try_values_total rec P box vbox :
  dict_get P box = Some vbox ->
  (forall v s, In v (chars vbox) -> exists r s', rec (dict_set P box v) s = (Ok r, s')) ->
  forall vs s, incl vs (chars vbox) ->
  exists r s', try_values rec P box vs s = (Ok r, s').
Proof.
  intros Hbox Hrec. induction vs as [|v vs IH]; intros s Hincl.
  - eexists _, _. reflexivity.
  - cbn [try_values].
    rewrite (bind_Ok _ _ _ _ _ (setitem_branch _ _ _ v s Hbox)).
    destruct (Hrec v (mkState (assignments s) (stores s ++ [mkStore ByBranch box vbox v])))
      as (r1 & s1 & E1).
    { apply Hincl. left. reflexivity. }
    rewrite (bind_Ok _ _ _ _ _ E1).
    destruct (truthy r1).
    + eexists _, _. reflexivity.
    + apply IH. intros x Hx. apply Hincl. right. exact Hx.
Qed.

(** With 82 loop iterations allowed and a recursion depth above the number
    of unfixed boxes, [search] returns: no exception, no timeout. *)
Lemma search_total loops depth : forall V s,
  wf V -> 82 <= loops -> unfixed V < depth ->
  exists r s', search loops depth V s = (Ok r, s').
Proof.
  intros V s Hwf Hloops. revert V s Hwf.
  induction depth as [|depth IH]; intros V s Hwf Hd; [lia|].
  cbn [search].
  destruct (reduce_puzzle_total loops V s Hwf) as (r0 & s0 & E0); [lia|].
  rewrite (bind_Ok _ _ _ _ _ E0).
  destruct (reduce_puzzle_spec _ _ _ _ _ Hwf E0)
    as (n0 & e0 & V' & G0 & C0 & F0 & N0 & Hr & _).
  pose proof (Chain_shrinks _ _ _ C0) as S0.
  destruct Hr as [-> | (-> & Hne & HE)].
  - eexists _, _. reflexivity.
  - assert (Hwf' : wf V') by (eapply wf_shrinks; eauto).
    rewrite (bind_Ok _ _ _ _ _ (all_check_total V' s0 Hwf')).
    destruct (forallb (fun b => len_at V' b =? 1) boxes) eqn:D.
    + eexists _, _. reflexivity.
    + rewrite (bind_Ok _ _ _ _ _ (branch_candidates_total V' s0 Hwf')).
      apply forallb_false in D. destruct D as (b & Hb & Hlb).
      apply Nat.eqb_neq in Hlb.
      destruct (wf_get _ _ Hwf' Hb) as (vb & Hvb).
      rewrite (len_at_get _ _ _ Hvb) in Hlb.
      assert (Hvb0 : String.length vb <> 0).
      { intros H0. apply length_zero in H0. subst vb.
        eapply no_empty_get; eauto. }
      destruct (min_pair_Some
                  (map (fun b => (len_at V' b, b))
                       (filter (fun b => 1 <? len_at V' b) boxes)))
        as ([n box] & Mp).
      { intros Hnil. apply map_eq_nil in Hnil.
        assert (Hin : In b (filter (fun b => 1 <? len_at V' b) boxes)).
        { apply filter_In. split; auto. rewrite (len_at_get _ _ _ Hvb).
          apply Nat.ltb_lt. lia. }
        rewrite Hnil in Hin. destruct Hin. }
      rewrite Mp.
      apply min_pair_In in Mp. apply candidate_facts in Mp.
      destruct Mp as (Hboxb & vbox & Hbox & Hlen).
      rewrite (bind_Ok _ _ _ _ _ (getitem_Ok _ _ _ _ Hbox)).
      apply (try_values_total _ _ _ vbox); auto using incl_refl.
      intros v s1 Hv. apply IH.
      * eapply wf_set; eauto.
      * apply chars_In in Hv. destruct Hv as (c & -> & _).
        pose proof (unfixed_set V' box vbox (String c "") Hbox Hlen eq_refl).
        pose proof (unfixed_shrinks _ _ S0). lia.
Qed.


(** * [grid_values] *)

Lemma map_fst_combine_eq {A B} (l : list A) (l' : list B) :
  length l = length l' -> map fst (combine l l') = l.
Proof.
  revert l'. induction l as [|x l IH]; intros [|y l'] H; simpl in *; try discriminate; auto.
  f_equal. apply IH. lia.
Qed.

Lemma grid_values_inv grid s V s' :
  grid_values grid s = (Ok V, s') ->
  s' = s /\ V = initial_board grid /\ valid_grid grid.
Proof.
  unfold grid_values.
  destruct (String.length grid =? 81) eqn:L; cbn [negb]; [|discriminate].
  destruct (forallb _ (chars grid)) eqn:F; cbn [negb]; [|discriminate].
  rewrite length_map, chars_length, L. cbn [negb].
  rewrite dict_of_nodup.
  - intros [= <- <-]. repeat split.
    + apply Nat.eqb_eq. exact L.
    + apply Forall_forall. rewrite forallb_forall in F. exact F.
  - rewrite map_fst_combine_eq; [apply boxes_NoDup|].
    rewrite length_map, chars_length. apply Nat.eqb_eq in L. rewrite L. reflexivity.
Qed.

Lemma grid_values_total grid s :
  valid_grid grid -> grid_values grid s = (Ok (initial_board grid), s).
Proof.
  intros [L F]. unfold grid_values.
  rewrite L. cbn [Nat.eqb negb].
  assert (Fb : forallb (fun c => str_contains c (digits ++ ".")%string) (chars grid) = true).
  { apply forallb_forall. rewrite Forall_forall in F. exact F. }
  rewrite Fb. cbn [negb]. rewrite length_map, chars_length, L. cbn [Nat.eqb negb].
  rewrite dict_of_nodup; [reflexivity|].
  rewrite map_fst_combine_eq; [apply boxes_NoDup|].
  rewrite length_map, chars_length, L. reflexivity.
Qed.

Lemma initial_board_wf grid : valid_grid grid -> wf (initial_board grid).
Proof.
  intros [L _]. unfold wf, dict_keys, initial_board.
  apply map_fst_combine_eq. rewrite length_map, chars_length, L. reflexivity.
Qed.

Lemma grid_char_canonical c :
  str_contains (String c "") (digits ++ ".")%string = true ->
  canonical (if String.eqb (String c "") "." then digits else String c "").
Proof.
  intros H. destruct (String.eqb (String c "") ".") eqn:E.
  - apply subseq_refl.
  - rewrite str_contains_single in H. apply occurs_subseq.
    apply String.eqb_neq in E.
    change (digits ++ ".")%string with "123456789." in H.
    cbn [occurs] in H.
    repeat (apply orb_true_iff in H; destruct H as [H|H];
            [apply Ascii.eqb_eq in H; subst c; reflexivity|]).
    apply orb_true_iff in H. destruct H as [H|H]; [|discriminate].
    apply Ascii.eqb_eq in H. subst c. exfalso. apply E. reflexivity.
Qed.

Lemma initial_board_canonical grid : valid_grid grid -> canonicalB (initial_board grid).
Proof.
  intros [_ F]. unfold canonicalB, initial_board. apply Forall_forall.
  intros [k v] Hin. apply in_combine_r in Hin. apply in_map_iff in Hin.
  destruct Hin as (c & <- & Hc). simpl.
  rewrite Forall_forall in F. pose proof (F c Hc) as Hcc.
  apply chars_In in Hc. destruct Hc as (x & -> & _).
  apply grid_char_canonical. exact Hcc.
Qed.

(** * Solved boards *)

Lemma canonical_single_digit c : canonical (String c "") -> In (String c "") (chars digits).
Proof.
  intros H. apply chars_In. exists c. split; auto.
  eapply subseq_occurs; [exact H|]. simpl. rewrite Ascii.eqb_refl. reflexivity.
Qed.

Lemma holders_count B u d :
  (forall b, In b u -> exists v, dict_get B b = Some v) ->
  length (holders B u d) = count_occ string_dec (map (value_at B) u) d.
Proof.
  intros H. unfold holders. induction u as [|b u IH]; [reflexivity|].
  destruct (H b (or_introl eq_refl)) as (v & Hv).
  assert (Hval : value_at B b = v) by (unfold value_at; rewrite Hv; reflexivity).
  cbn [map filter count_occ]. rewrite Hv, Hval.
  rewrite <- IH by (intros b' Hb'; apply H; right; exact Hb').
  destruct (string_dec v d) as [->|Hn].
  - rewrite String.eqb_refl. reflexivity.
  - apply String.eqb_neq in Hn. rewrite Hn. reflexivity.
Qed.

(** A well-formed canonical board in which every box is fixed and no fixed
    digit occurs in a peer is a solved board. *)
Lemma solved_from_Elim B :
  wf B -> canonicalB B -> all_fixed B -> Elim B -> solved_board B.
Proof.
  intros Hwf Hcan Hfix HE.
  assert (Hval : forall b, In b boxes ->
            exists c, dict_get B b = Some (String c "") /\ In (String c "") (chars digits)).
  { intros b Hb. destruct (wf_get _ _ Hwf Hb) as (v & Hv).
    destruct (length_one _ (all_fixed_get _ _ _ Hfix Hv)) as (c & ->).
    exists c. split; auto. apply canonical_single_digit.
    eapply canonicalB_get; eauto. }
  split; [exact Hwf|]. split.
  - intros b Hb. destruct (Hval b Hb) as (c & Hc & Hd). eauto.
  - intros u d Hu Hd.
    destruct (unit_NoDup u Hu) as [Hnd Hlen].
    rewrite holders_count.
    2:{ intros b Hb. destruct (Hval b (unit_in_boxes _ _ Hu Hb)) as (c & Hc & _). eauto. }
    assert (Hperm : Permutation (map (value_at B) u) (chars digits)).
    { apply NoDup_Permutation_bis.
      - apply NoDup_map_NoDup_ForallPairs; auto.
        intros b1 b2 H1 H2 Heq.
        destruct (string_dec b1 b2) as [|Hne]; auto. exfalso.
        destruct (unit_facts u b1 b2 Hu H1 H2) as (_ & Hb1 & Hpeer).
        destruct (Hval b1 Hb1) as (c1 & Hc1 & _).
        destruct (Hval b2 (unit_in_boxes _ _ Hu H2)) as (c2 & Hc2 & _).
        unfold value_at in Heq. rewrite Hc1, Hc2 in Heq. injection Heq as <-.
        pose proof (HE b1 b2 c1 _ Hc1 (Hpeer Hne) Hc2) as Ho.
        simpl in Ho. rewrite Ascii.eqb_refl in Ho. discriminate.
      - rewrite length_map, Hlen. apply Nat.eq_le_incl. reflexivity.
      - intros x Hx. apply in_map_iff in Hx. destruct Hx as (b & <- & Hb).
        destruct (Hval b (unit_in_boxes _ _ Hu Hb)) as (c & Hc & Hcd).
        unfold value_at. rewrite Hc. exact Hcd. }
    rewrite (proj1 (Permutation_count_occ string_dec _ _) Hperm d).
    apply NoDup_count_occ'; auto.
    apply nodupb_NoDup. vm_compute. reflexivity.
Qed.

(** A board below the initial board that has every box fixed carries every
    given digit of the grid. *)
Lemma carries_givens grid B :
  valid_grid grid -> shrinks B (initial_board grid) -> all_fixed B ->
  Forall2 (fun box c => c = "." \/ dict_get B box = Some c) boxes (chars grid).
Proof.
  intros Hv HS Hfix.
  assert (Hlen : length boxes = length (chars grid)).
  { destruct Hv as [L _]. rewrite chars_length, L. reflexivity. }
  assert (G : forall box c, In (box, c) (combine boxes (chars grid)) ->
              c = "." \/ dict_get B box = Some c).
  { intros box c Hin.
    destruct (String.eqb c ".") eqn:E; [left; apply String.eqb_eq; exact E|right].
    assert (Hin' : In (box, c) (initial_board grid)).
    { unfold initial_board. clear -Hin E. revert Hin.
      generalize boxes as bs. induction (chars grid) as [|c0 cs IH]; intros [|b bs];
        simpl; auto.
      intros [Heq|H]; [left|right; auto].
      injection Heq as Hb Hc. subst b c0. rewrite E. reflexivity. }
    apply In_dict_get in Hin'; [|apply wf_NoDup, initial_board_wf; exact Hv].
    destruct (shrinks_get _ _ _ _ HS Hin') as (w & Hw & Hsub).
    rewrite Hw. f_equal.
    pose proof (all_fixed_get _ _ _ Hfix Hw) as Hl.
    apply in_combine_r in Hin. apply chars_In in Hin. destruct Hin as (x & -> & _).
    apply subseq_single in Hsub. destruct Hsub as [Hs|Hs]; subst w;
      [discriminate|reflexivity]. }
  revert G Hlen. generalize (chars grid) as cs. generalize boxes as bs.
  induction bs as [|b bs IH]; intros [|c cs] G Hlen; simpl in *; try discriminate;
    constructor; auto.
Qed.

(** * [solve] *)

Lemma truthy_board B : wf B -> truthy (RBoard B) = true.
Proof.
  intros Hwf. pose proof (wf_length _ Hwf). destruct B; [discriminate|reflexivity].
Qed.

Lemma solve_inv loops depth grid s r s' :
  solve loops depth grid s = (Ok r, s') ->
  valid_grid grid /\
  exists r0, search loops depth (initial_board grid) s = (Ok r0, s') /\
             r = (if truthy r0 then r0 else RFalse).
Proof.
  unfold solve. intros E. apply bind_inv in E. destruct E as (V & s1 & E1 & E).
  apply grid_values_inv in E1. destruct E1 as (-> & -> & Hv).
  apply bind_inv in E. destruct E as (r0 & s2 & E2 & E).
  split; auto. exists r0. destruct (truthy r0); injection E as <- <-; auto.
Qed.

Lemma solve_post loops depth grid s r s' :
  solve loops depth grid s = (Ok r, s') ->
  valid_grid grid /\
  (r = RFalse \/ exists B, r = RBoard B /\ wf B) /\
  exists r0, SearchPost (initial_board grid) s r0 s' /\
             (forall B, r = RBoard B -> r0 = RBoard B).
Proof.
  intros E. apply solve_inv in E. destruct E as (Hv & r0 & E0 & ->).
  split; auto.
  pose proof (search_spec _ _ _ _ _ _ (initial_board_wf _ Hv)
                (initial_board_canonical _ Hv) E0) as HP.
  split.
  - destruct r0 as [B| |]; simpl; auto. destruct B; auto.
    right. eexists. split; [reflexivity|].
    destruct HP as (_ & _ & _ & _ & _ & _ & _ & _ & Hres).
    destruct (Hres _ eq_refl) as (HS & _).
    eapply wf_shrinks; eauto. apply initial_board_wf; auto.
  - exists r0. split; auto. intros B. destruct (truthy r0); congruence.
Qed.

Lemma solve_board_solution loops depth grid s B s' :
  solve loops depth grid s = (Ok (RBoard B), s') -> solution_of grid B.
Proof.
  intros E. apply solve_post in E. destruct E as (Hv & _ & r0 & HP & Hr).
  specialize (Hr B eq_refl). subst r0.
  destruct HP as (_ & _ & _ & _ & _ & _ & _ & _ & Hres).
  destruct (Hres _ eq_refl) as (HS & Hfix & HE).
  split.
  - apply solved_from_Elim; auto.
    + eapply wf_shrinks; eauto. apply initial_board_wf; auto.
    + eapply canonicalB_shrinks; eauto. apply initial_board_canonical; auto.
  - apply carries_givens; auto.
Qed.

Lemma solve_total loops depth grid s :
  valid_grid grid -> 82 <= loops -> 82 <= depth ->
  exists r s', solve loops depth grid s = (Ok r, s') /\
               (r = RFalse \/ exists B, r = RBoard B).
Proof.
  intros Hv Hl Hd. unfold solve.
  rewrite (bind_Ok _ _ _ _ _ (grid_values_total grid s Hv)).
  destruct (search_total loops depth (initial_board grid) s) as (r0 & s' & E0).
  - apply initial_board_wf; auto.
  - exact Hl.
  - pose proof (unfixed_le (initial_board grid)).
    rewrite (wf_length _ (initial_board_wf _ Hv)) in H. lia.
  - rewrite (bind_Ok _ _ _ _ _ E0).
    destruct (truthy r0) eqn:T.
    + exists r0, s'. split; [reflexivity|].
      destruct r0; try discriminate. right. eauto.
    + exists RFalse, s'. split; [reflexivity|]. left. reflexivity.
Qed.

(** * A sharper bound for canonical boards

    On a reduced canonical board, a box that still has two candidates is
    never the only unfixed box: the other eight boxes of its row would hold
    eight distinct digits, all absent from it. *)

Lemma box_in_some_unit box : In box boxes -> exists u, In u unitlist /\ In box u.
Proof.
  intros Hb.
  assert (F : forallb (fun b => existsb (mem b) unitlist) boxes = true)
    by (vm_compute; reflexivity).
  rewrite forallb_forall in F. specialize (F box Hb).
  apply existsb_exists in F. destruct F as (u & Hu & Hm).
  apply mem_In in Hm. eauto.
Qed.

Lemma one_unfixed P k v :
  dict_get P k = Some v -> 2 <= String.length v -> 1 <= unfixed P.
Proof.
  induction P as [|[k0 v0] P IH]; simpl; [discriminate|].
  intros Hg Hl. rewrite unfixed_cons. destruct (String.eqb k k0).
  - injection Hg as ->.
    replace (1 <? String.length v) with true by (symmetry; apply Nat.ltb_lt; lia). lia.
  - specialize (IH Hg Hl). lia.
Qed.

Lemma two_unfixed P k1 k2 v1 v2 :
  dict_get P k1 = Some v1 -> dict_get P k2 = Some v2 -> k1 <> k2 ->
  2 <= String.length v1 -> 2 <= String.length v2 -> 2 <= unfixed P.
Proof.
  induction P as [|[k0 v0] P IH]; simpl; [discriminate|].
  intros H1 H2 Hne L1 L2. rewrite unfixed_cons.
  destruct (String.eqb k1 k0) eqn:E1; destruct (String.eqb k2 k0) eqn:E2.
  - apply String.eqb_eq in E1, E2. congruence.
  - injection H1 as ->. pose proof (one_unfixed _ _ _ H2 L2).
    replace (1 <? String.length v1) with true by (symmetry; apply Nat.ltb_lt; lia). lia.
  - injection H2 as ->. pose proof (one_unfixed _ _ _ H1 L1).
    replace (1 <? String.length v2) with true by (symmetry; apply Nat.ltb_lt; lia). lia.
  - specialize (IH H1 H2 Hne L1 L2). lia.
Qed.

Lemma filter_out_length (l : list string) x :
  NoDup l -> In x l ->
  length (filter (fun y => negb (String.eqb y x)) l) + 1 = length l.
Proof.
  induction l as [|y l IH]; simpl; [tauto|].
  intros Hnd Hin. inversion Hnd as [|? ? Hni Hnd']; subst.
  destruct (String.eqb y x) eqn:E; simpl.
  - apply String.eqb_eq in E. subst y.
    assert (Hall : filter (fun y => negb (String.eqb y x)) l = l).
    { clear -Hni. induction l as [|z l IHl]; simpl; auto.
      simpl in Hni. destruct (String.eqb z x) eqn:Ez; simpl.
      - apply String.eqb_eq in Ez. subst. tauto.
      - f_equal. apply IHl. tauto. }
    rewrite Hall. lia.
  - destruct Hin as [->|Hin]; [rewrite String.eqb_refl in E; discriminate|].
    specialize (IH Hnd' Hin). lia.
Qed.

Lemma branch_needs_two P box vbox :
  wf P -> canonicalB P -> no_empty P -> Elim P ->
  dict_get P box = Some vbox -> 2 <= String.length vbox ->
  2 <= unfixed P.
Proof.
  intros Hwf Hcan Hne HE Hbox Hlen.
  destruct (le_lt_dec 2 (unfixed P)) as [|Hlt]; auto. exfalso.
  assert (Hboxb : In box boxes) by (eapply wf_get_In; eauto).
  destruct (box_in_some_unit box Hboxb) as (u & Hu & Hbu).
  destruct (unit_NoDup u Hu) as [Hnd Hlu].
  set (others := filter (fun y => negb (String.eqb y box)) u).
  assert (Hoth : forall b, In b others ->
             In b u /\ b <> box /\
             exists c, dict_get P b = Some (String c "") /\ In (String c "") (chars digits)).
  { intros b Hb. apply filter_In in Hb. destruct Hb as [Hb Hn].
    apply negb_true_iff, String.eqb_neq in Hn. repeat split; auto.
    destruct (wf_get _ _ Hwf (unit_in_boxes _ _ Hu Hb)) as (v & Hv).
    assert (Hv1 : String.length v = 1).
    { pose proof (no_empty_get _ _ _ Hne Hv) as Hv0.
      destruct (le_lt_dec 2 (String.length v)) as [Hv2|Hv2].
      - pose proof (two_unfixed _ _ _ _ _ Hv Hbox Hn Hv2 Hlen). lia.
      - destruct v as [|c [|? ?]]; simpl in *; try lia. congruence. }
    destruct (length_one _ Hv1) as (c & ->). exists c. split; auto.
    apply canonical_single_digit. eapply canonicalB_get; eauto. }
  assert (Hnd1 : NoDup (chars vbox)).
  { apply canonical_NoDup. eapply canonicalB_get; eauto. }
  assert (Hnd2 : NoDup (map (value_at P) others)).
  { apply NoDup_map_NoDup_ForallPairs; [|apply NoDup_filter; exact Hnd].
    intros b1 b2 H1 H2 Heq.
    destruct (string_dec b1 b2) as [|Hn]; auto. exfalso.
    destruct (Hoth _ H1) as (Hu1 & _ & c1 & Hc1 & _).
    destruct (Hoth _ H2) as (Hu2 & _ & c2 & Hc2 & _).
    destruct (unit_facts u b1 b2 Hu Hu1 Hu2) as (_ & _ & Hpeer).
    unfold value_at in Heq. rewrite Hc1, Hc2 in Heq. injection Heq as <-.
    pose proof (HE b1 b2 c1 _ Hc1 (Hpeer Hn) Hc2) as Ho.
    simpl in Ho. rewrite Ascii.eqb_refl in Ho. discriminate. }
  assert (Hnd3 : NoDup (chars vbox ++ map (value_at P) others)).
  { apply NoDup_app; auto. intros x Hx Hx'.
    apply chars_In in Hx. destruct Hx as (c & -> & Hocc).
    apply in_map_iff in Hx'. destruct Hx' as (b & Hval & Hb).
    destruct (Hoth _ Hb) as (Hub & Hnb & c' & Hc' & _).
    unfold value_at in Hval. rewrite Hc' in Hval. injection Hval as ->.
    destruct (unit_facts u b box Hu Hub Hbu) as (_ & _ & Hpeer).
    pose proof (HE b box c _ Hc' (Hpeer Hnb) Hbox). congruence. }
  assert (Hincl : incl (chars vbox ++ map (value_at P) others) (chars digits)).
  { intros x Hx. apply in_app_or in Hx. destruct Hx as [Hx|Hx].
    - apply chars_In in Hx. destruct Hx as (c & -> & Hocc).
      apply chars_In. exists c. split; auto.
      eapply subseq_occurs; [|exact Hocc]. eapply canonicalB_get; eauto.
    - apply in_map_iff in Hx. destruct Hx as (b & <- & Hb).
      destruct (Hoth _ Hb) as (_ & _ & c & Hc & Hd).
      unfold value_at. rewrite Hc. exact Hd. }
  pose proof (NoDup_incl_length Hnd3 Hincl) as Hle.
  rewrite length_app, length_map, chars_length in Hle.
  pose proof (filter_out_length u box Hnd Hbu) as Hf. fold others in Hf.
  change (length (chars digits)) with 9 in Hle. lia.
Qed.

(** For canonical boards 81 nested calls, the first included, are enough. *)
Lemma search_total_canonical loops depth : forall V s,
  wf V -> canonicalB V -> 82 <= loops -> 1 <= depth -> unfixed V <= depth ->
  exists r s', search loops depth V s = (Ok r, s').
Proof.
  intros V s Hwf Hcan Hloops. revert V s Hwf Hcan.
  induction depth as [|depth IH]; intros V s Hwf Hcan Hd1 Hd; [lia|].
  cbn [search].
  destruct (reduce_puzzle_total loops V s Hwf) as (r0 & s0 & E0); [lia|].
  rewrite (bind_Ok _ _ _ _ _ E0).
  destruct (reduce_puzzle_spec _ _ _ _ _ Hwf E0)
    as (n0 & e0 & V' & G0 & C0 & F0 & N0 & Hr & _).
  pose proof (Chain_shrinks _ _ _ C0) as S0.
  destruct Hr as [-> | (-> & Hne & HE)].
  - eexists _, _. reflexivity.
  - assert (Hwf' : wf V') by (eapply wf_shrinks; eauto).
    assert (Hcan' : canonicalB V') by (eapply canonicalB_shrinks; eauto).
    rewrite (bind_Ok _ _ _ _ _ (all_check_total V' s0 Hwf')).
    destruct (forallb (fun b => len_at V' b =? 1) boxes) eqn:D.
    + eexists _, _. reflexivity.
    + rewrite (bind_Ok _ _ _ _ _ (branch_candidates_total V' s0 Hwf')).
      apply forallb_false in D. destruct D as (b & Hb & Hlb).
      apply Nat.eqb_neq in Hlb.
      destruct (wf_get _ _ Hwf' Hb) as (vb & Hvb).
      rewrite (len_at_get _ _ _ Hvb) in Hlb.
      assert (Hvb0 : String.length vb <> 0).
      { intros H0. apply length_zero in H0. subst vb.
        eapply no_empty_get; eauto. }
      destruct (min_pair_Some
                  (map (fun b => (len_at V' b, b))
                       (filter (fun b => 1 <? len_at V' b) boxes)))
        as ([n box] & Mp).
      { intros Hnil. apply map_eq_nil in Hnil.
        assert (Hin : In b (filter (fun b => 1 <? len_at V' b) boxes)).
        { apply filter_In. split; auto. rewrite (len_at_get _ _ _ Hvb).
          apply Nat.ltb_lt. lia. }
        rewrite Hnil in Hin. destruct Hin. }
      rewrite Mp.
      apply min_pair_In in Mp. apply candidate_facts in Mp.
      destruct Mp as (Hboxb & vbox & Hbox & Hlen).
      rewrite (bind_Ok _ _ _ _ _ (getitem_Ok _ _ _ _ Hbox)).
      pose proof (branch_needs_two V' box vbox Hwf' Hcan' Hne HE Hbox Hlen) as Htwo.
      pose proof (unfixed_shrinks _ _ S0) as Hmono.
      apply (try_values_total _ _ _ vbox); auto using incl_refl.
      intros v s1 Hv.
      apply chars_In in Hv. destruct Hv as (c & -> & Hocc).
      pose proof (unfixed_set V' box vbox (String c "") Hbox Hlen eq_refl).
      apply IH.
      * eapply wf_set; eauto.
      * eapply canonicalB_set; eauto. apply occurs_subseq. exact Hocc.
      * lia.
      * lia.
Qed.


(** * Naked twins, pair by pair *)

Lemma twins_detected W unit b1 b2 :
  In (b1, b2) (filter (twin_cond W) (unit_pairs unit)) <->
  In b1 unit /\ In b2 unit /\ String.ltb b1 b2 = true /\
  exists a b, dict_get W b1 = Some (String a (String b "")) /\
              dict_get W b2 = Some (String a (String b "")).
Proof.
  rewrite filter_In, unit_pairs_In. unfold twin_cond. simpl. split.
  - intros [[H1 H2] Hc].
    destruct (dict_get W b1) as [v1|]; [|discriminate].
    destruct (dict_get W b2) as [v2|]; [|discriminate].
    apply andb_true_iff in Hc. destruct Hc as [Hc Hlt].
    apply andb_true_iff in Hc. destruct Hc as [Hc Heq].
    apply andb_true_iff in Hc. destruct Hc as [_ Hl].
    apply String.eqb_eq in Heq. subst v2. apply Nat.eqb_eq in Hl.
    destruct v1 as [|a [|b [|? ?]]]; try discriminate.
    repeat split; auto. exists a, b. auto.
  - intros (H1 & H2 & Hlt & a & b & -> & ->). split; auto.
    rewrite String.eqb_refl, Hlt. reflexivity.
Qed.

Lemma twin_step_skip W b1 b2 v s :
  dict_get W b1 = Some v -> String.length v < 2 ->
  twin_step W (b1, b2) s = (Ok W, s).
Proof.
  intros Hv Hl. unfold twin_step.
  rewrite (bind_Ok _ _ _ _ _ (getitem_Ok _ _ _ _ Hv)).
  apply Nat.ltb_lt in Hl. rewrite Hl. reflexivity.
Qed.

Lemma shared_peers_In b1 b2 k :
  In b1 boxes -> In b2 boxes ->
  (In k (pset_inter (peers_at b1) (pset_diff (pset_diff (peers_at b2) [b1]) [b2])) <->
   In k (peers_at b1) /\ In k (peers_at b2) /\ k <> b1 /\ k <> b2).
Proof.
  intros H1 H2. unfold pset_inter, pset_diff.
  rewrite filter_In, mem_In, !filter_In. simpl.
  rewrite !orb_false_r, !negb_true_iff, !String.eqb_neq. tauto.
Qed.

Lemma assign_value_wf W box value old s W' s' :
  wf W -> dict_get W box = Some old ->
  assign_value W box value s = (Ok W', s') -> wf W'.
Proof.
  intros Hwf Hg Ha.
  destruct (assign_value_cases _ _ _ _ _ _ _ Hg Ha) as [(_ & -> & _)|(_ & -> & _)]; auto.
  eapply wf_set; eauto.
Qed.

Lemma mem_app x l1 l2 : mem x (l1 ++ l2) = mem x l1 || mem x l2.
Proof. unfold mem. apply existsb_app. Qed.

Lemma mem_false x l : ~ In x l -> mem x l = false.
Proof.
  intros H. destruct (mem x l) eqn:E; auto. apply mem_In in E. contradiction.
Qed.

(** ** Sweeping a set of boxes

    Both inner loops over a set of peers store, in every box of the set, a
    function of the value the box held before.  The board they produce is
    therefore the same in whatever order the set is visited. *)

Lemma sweep_exact (g : string -> string) l W s :
  wf W -> NoDup l -> (forall p, In p l -> In p boxes) ->
  exists W' s',
    foldM (fun values p => w <- getitem values p ;; assign_value values p (g w)) l W s
    = (Ok W', s') /\
    wf W' /\
    forall k, dict_get W' k =
              if mem k l then option_map g (dict_get W k) else dict_get W k.
Proof.
  intros Hwf Hnd Hin.
  apply (foldM_total
           (fun done W3 s3 =>
              wf W3 /\ forall k, dict_get W3 k =
                                 if mem k done then option_map g (dict_get W k)
                                 else dict_get W k)); [|split; auto].
  intros done p rest W3 s3 El [Hwf3 HI].
  assert (Hp : In p l) by (rewrite El; apply in_or_app; right; left; reflexivity).
  assert (Hpd : ~ In p done).
  { rewrite El in Hnd. apply NoDup_remove_2 in Hnd.
    intros Hd. apply Hnd. apply in_or_app. auto. }
  destruct (wf_get _ _ Hwf (Hin p Hp)) as (w & Hw).
  assert (Hw3 : dict_get W3 p = Some w).
  { rewrite HI, (mem_false _ _ Hpd). exact Hw. }
  rewrite (bind_Ok _ _ _ _ _ (getitem_Ok _ _ _ _ Hw3)).
  destruct (assign_value_total W3 p (g w) w s3 Hw3) as (W4 & s4 & E4 & Hsame & Hother).
  exists W4, s4. split; [exact E4|]. split.
  - eapply assign_value_wf; eauto.
  - intros k. rewrite mem_app. simpl. rewrite orb_false_r.
    destruct (String.eqb k p) eqn:Ek.
    + apply String.eqb_eq in Ek. subst k.
      rewrite orb_true_r, Hsame, Hw. reflexivity.
    + rewrite orb_false_r. apply String.eqb_neq in Ek.
      rewrite Hother by auto. apply HI.
Qed.

Lemma board_ext (W1 W2 : Board) :
  dict_keys W1 = dict_keys W2 -> NoDup (dict_keys W1) ->
  (forall k, dict_get W1 k = dict_get W2 k) -> W1 = W2.
Proof.
  revert W2. induction W1 as [|[k1 v1] W1 IH]; intros [|[k2 v2] W2] Hk Hnd Hg;
    simpl in Hk; try discriminate; auto.
  injection Hk as -> Hk. inversion Hnd as [|? ? Hni Hnd']; subst.
  pose proof (Hg k2) as H0. simpl in H0. rewrite String.eqb_refl in H0.
  injection H0 as ->. f_equal. apply IH; auto.
  intros k. specialize (Hg k). simpl in Hg.
  destruct (String.eqb k k2) eqn:E; auto.
  apply String.eqb_eq in E. subst k.
  assert (N1 : dict_get W1 k2 = None).
  { destruct (dict_get W1 k2) eqn:G; auto. exfalso. apply Hni.
    eapply dict_get_key_In; eauto. }
  assert (N2 : dict_get W2 k2 = None).
  { destruct (dict_get W2 k2) eqn:G; auto. exfalso. apply Hni.
    rewrite Hk. exact (dict_get_key_In _ _ _ G). }
  congruence.
Qed.

Lemma sweep_order_irrelevant (g : string -> string) l l' W s W1 s1 W2 s2 :
  wf W -> NoDup l -> (forall p, In p l -> In p boxes) -> Permutation l l' ->
  foldM (fun values p => w <- getitem values p ;; assign_value values p (g w)) l W s
  = (Ok W1, s1) ->
  foldM (fun values p => w <- getitem values p ;; assign_value values p (g w)) l' W s
  = (Ok W2, s2) ->
  W1 = W2.
Proof.
  intros Hwf Hnd Hin Hperm E1 E2.
  destruct (sweep_exact g l W s Hwf Hnd Hin) as (X1 & t1 & F1 & Hwf1 & HX1).
  destruct (sweep_exact g l' W s Hwf) as (X2 & t2 & F2 & Hwf2 & HX2).
  { eapply Permutation_NoDup; eauto. }
  { intros p Hp. apply Hin. eapply Permutation_in; [|exact Hp].
    apply Permutation_sym. exact Hperm. }
  rewrite E1 in F1. injection F1 as <- <-.
  rewrite E2 in F2. injection F2 as <- <-.
  apply board_ext.
  - unfold wf in *. congruence.
  - apply wf_NoDup. exact Hwf1.
  - intros k. rewrite HX1, HX2.
    assert (Hm : mem k l = mem k l').
    { destruct (mem k l) eqn:A; destruct (mem k l') eqn:B; auto.
      - apply mem_In in A. apply (Permutation_in _ Hperm) in A.
        apply mem_In in A. congruence.
      - apply mem_In in B. apply (Permutation_in _ (Permutation_sym Hperm)) in B.
        apply mem_In in B. congruence. }
    rewrite Hm. reflexivity.
Qed.

(** A processed twin removes its two digits from the boxes that are peers
    of both members, and from no other box. *)
Lemma twin_step_exact W b1 b2 a b s :
  wf W -> In b1 boxes -> In b2 boxes ->
  dict_get W b1 = Some (String a (String b "")) ->
  exists W' s',
    twin_step W (b1, b2) s = (Ok W', s') /\
    forall k, dict_get W' k =
              if mem k (peers_at b1) && mem k (peers_at b2)
              then option_map (strip a b) (dict_get W k)
              else dict_get W k.
Proof.
  intros Hwf H1 H2 Hv. unfold twin_step.
  rewrite (bind_Ok _ _ _ _ _ (getitem_Ok _ _ _ _ Hv)).
  cbn [String.length Nat.ltb Nat.leb chars].
  rewrite (bind_Ok _ _ _ _ _ (shared_peers_total _ _ _ H1 H2)).
  set (sp := pset_inter _ _).
  assert (Hsp : forall k, In k sp <-> In k (peers_at b1) /\ In k (peers_at b2)).
  { intros k. unfold sp. rewrite shared_peers_In; auto. split; [tauto|].
    intros [Ha Hb]. repeat split; auto.
    - intros ->. exact (peers_irrefl _ H1 Ha).
    - intros ->. exact (peers_irrefl _ H2 Hb). }
  assert (Hnd : NoDup sp).
  { unfold sp, pset_inter. apply NoDup_filter. apply peers_NoDup; auto. }
  destruct (sweep_exact (strip a b) sp W s Hwf Hnd) as (W' & s' & E & _ & HI).
  { intros p Hp. apply Hsp in Hp. eapply peers_in_boxes; [exact H1|tauto]. }
  exists W', s'. split; [exact E|]. intros k. rewrite HI.
  destruct (mem k sp) eqn:Em.
  - apply mem_In, Hsp in Em. destruct Em as [Ha Hb].
    apply mem_In in Ha, Hb. rewrite Ha, Hb. reflexivity.
  - destruct (mem k (peers_at b1) && mem k (peers_at b2)) eqn:Eb; auto.
    apply andb_true_iff in Eb. destruct Eb as [Ha Hb].
    apply mem_In in Ha, Hb.
    assert (In k sp) by (apply Hsp; auto).
    apply mem_In in H. congruence.
Qed.

(** * Runs that leave the board unchanged *)

Lemma asteps_unchanged Phi V s s' :
  asteps Phi V s V s' -> s' = s.
Proof.
  intros H.
  assert (G : forall V0 s0 V1 s1, asteps Phi V0 s0 V1 s1 ->
              sizeB V1 = sizeB V0 -> s1 = s0).
  { clear. induction 1 as [|W s box value old W1 s1 W2 s2 Hg Hs HP Ha Hrest IH];
      intros Hsz; auto.
    pose proof (shrinks_size _ _ (asteps_shrinks _ _ _ _ _ Hrest)) as Hle.
    destruct (assign_value_cases _ _ _ _ _ _ _ Hg Ha)
      as [(-> & -> & ->)|(Hn & -> & _)]; auto.
    exfalso. pose proof (size_set W box old value Hg) as Hset.
    assert (String.length value < String.length old).
    { pose proof (subseq_length _ _ Hs).
      destruct (Nat.eq_dec (String.length value) (String.length old)) as [El|]; [|lia].
      apply subseq_length_eq in El; auto. congruence. }
    lia. }
  eapply G; eauto.
Qed.

(** * Canonical strings *)

Lemma subseqs_complete s u : subseq s u -> In s (subseqs u).
Proof.
  induction 1 as [|c s t H IH|c s t H IH]; simpl.
  - left. reflexivity.
  - apply in_or_app. left. apply in_map. exact IH.
  - apply in_or_app. right. exact IH.
Qed.

Lemma canonical_ascending s : canonical s -> ascending s = true.
Proof.
  intros H. apply subseqs_complete in H.
  assert (F : forallb ascending (subseqs digits) = true) by (vm_compute; reflexivity).
  rewrite forallb_forall in F. apply F. exact H.
Qed.

Lemma same_set_eq u : forall s t,
  subseq s u -> subseq t u -> NoDup (chars u) ->
  (forall c, occurs c s = occurs c t) -> s = t.
Proof.
  induction u as [|c0 u IH]; intros s t Hs Ht Hnd Hocc.
  - apply subseq_empty_r in Hs, Ht. congruence.
  - simpl in Hnd. inversion Hnd as [|? ? Hni Hnd']; subst.
    assert (Hc0 : forall x, subseq x u -> occurs c0 x = false).
    { intros x Hx. destruct (occurs c0 x) eqn:E; auto.
      exfalso. apply Hni. apply chars_In. exists c0. split; auto.
      eapply subseq_occurs; eauto. }
    assert (Htail : forall s1 t1, subseq s1 u -> subseq t1 u ->
               (forall c, occurs c (String c0 s1) = occurs c (String c0 t1)) ->
               forall c, occurs c s1 = occurs c t1).
    { intros s1 t1 H1 H2 H c. specialize (H c). simpl in H.
      destruct (Ascii.eqb c c0) eqn:E; auto.
      apply Ascii.eqb_eq in E. subst c. rewrite !Hc0; auto. }
    inversion Hs as [|c1 s1 u1 Hs1|c1 s1 u1 Hs1]; subst;
      inversion Ht as [|c2 t1 u2 Ht1|c2 t1 u2 Ht1]; subst.
    + f_equal. apply IH; auto.
    + exfalso. specialize (Hocc c0). simpl in Hocc.
      rewrite Ascii.eqb_refl, (Hc0 _ Ht1) in Hocc. discriminate.
    + exfalso. specialize (Hocc c0). simpl in Hocc.
      rewrite Ascii.eqb_refl, (Hc0 _ Hs1) in Hocc. discriminate.
    + apply IH; auto.
Qed.

Lemma canonical_eq_iff s t :
  canonical s -> canonical t ->
  (String.eqb s t = true <-> forall c, occurs c s = occurs c t).
Proof.
  intros Hs Ht. rewrite String.eqb_eq. split.
  - intros ->. reflexivity.
  - apply (same_set_eq digits); auto.
    apply nodupb_NoDup. vm_compute. reflexivity.
Qed.

(** * The ghost history is never read *)

Lemma blind_ret {A} (a : A) : ghost_blind (ret a).
Proof. intros s1 s2 H. simpl. auto. Qed.

Lemma blind_raise {A} e : ghost_blind (@raise A e).
Proof. intros s1 s2 H. simpl. auto. Qed.

Lemma blind_timeout {A} : ghost_blind (@timeout A).
Proof. intros s1 s2 H. simpl. auto. Qed.

Lemma blind_bind {A B} (m : M A) (f : A -> M B) :
  ghost_blind m -> (forall a, ghost_blind (f a)) -> ghost_blind (bind m f).
Proof.
  intros Hm Hf s1 s2 H. unfold bind.
  destruct (Hm s1 s2 H) as [E1 E2].
  destruct (m s1) as [[a|e|] t1]; destruct (m s2) as [[a'|e'|] t2];
    simpl in *; try discriminate; try (injection E1 as <-); auto.
  apply Hf. exact E2.
Qed.

Lemma blind_getitem {A} (d : dict A) k : ghost_blind (getitem d k).
Proof. unfold getitem. destruct (dict_get d k); [apply blind_ret|apply blind_raise]. Qed.

Lemma blind_append V : ghost_blind (append_assignment V).
Proof. intros s1 s2 H. simpl. rewrite H. auto. Qed.

Lemma blind_setitem w V box value : ghost_blind (setitem w V box value).
Proof. intros s1 s2 H. simpl. auto. Qed.

Lemma blind_foldM {A X} (f : A -> X -> M A) l :
  (forall a x, ghost_blind (f a x)) -> forall a, ghost_blind (foldM f l a).
Proof.
  intros Hf. induction l as [|x l IH]; intros a; simpl.
  - apply blind_ret.
  - apply blind_bind; auto.
Qed.

Lemma blind_filterM {X} (p : X -> M bool) l :
  (forall x, ghost_blind (p x)) -> ghost_blind (filterM p l).
Proof.
  intros Hp. induction l as [|x l IH]; simpl.
  - apply blind_ret.
  - apply blind_bind; auto. intros b. apply blind_bind; auto.
    intros r. apply blind_ret.
Qed.

Lemma blind_allM {X} (p : X -> M bool) l :
  (forall x, ghost_blind (p x)) -> ghost_blind (allM p l).
Proof.
  intros Hp. induction l as [|x l IH]; simpl.
  - apply blind_ret.
  - apply blind_bind; auto. intros [|]; [exact IH|apply blind_ret].
Qed.

Lemma blind_assign_value V box value : ghost_blind (assign_value V box value).
Proof.
  unfold assign_value. apply blind_bind; [apply blind_getitem|].
  intros old. destruct (String.eqb old value); [apply blind_ret|].
  apply blind_bind; [apply blind_setitem|]. intros V'.
  apply blind_bind; [|intros _; apply blind_ret].
  destruct (String.length value =? 1); [apply blind_append|apply blind_ret].
Qed.

Lemma blind_eliminate V : ghost_blind (eliminate V).
Proof.
  unfold eliminate. apply blind_foldM. intros W box.
  apply blind_bind; [apply blind_getitem|]. intros digit.
  apply blind_bind; [apply blind_getitem|]. intros ps.
  apply blind_foldM. intros W' peer.
  apply blind_bind; [apply blind_getitem|]. intros v. apply blind_assign_value.
Qed.

Lemma blind_only_choice V : ghost_blind (only_choice V).
Proof.
  unfold only_choice. apply blind_foldM. intros W unit.
  apply blind_foldM. intros W' digit.
  apply blind_bind.
  - apply blind_filterM. intros box.
    apply blind_bind; [apply blind_getitem|]. intros v. apply blind_ret.
  - intros [|box [|? ?]]; try apply blind_ret. apply blind_assign_value.
Qed.

Lemma blind_twin_step V tw : ghost_blind (twin_step V tw).
Proof.
  unfold twin_step. destruct tw as [b1 b2].
  apply blind_bind; [apply blind_getitem|]. intros v.
  destruct (String.length v <? 2); [apply blind_ret|].
  destruct (chars v) as [|v1 [|v2 [|? ?]]]; try apply blind_raise.
  apply blind_bind.
  - unfold shared_peers. apply blind_bind; [apply blind_getitem|]. intros p1.
    apply blind_bind; [apply blind_getitem|]. intros p2. apply blind_ret.
  - intros sp. apply blind_foldM. intros W p.
    apply blind_bind; [apply blind_getitem|]. intros w. apply blind_assign_value.
Qed.

Lemma blind_naked_twins V : ghost_blind (naked_twins V).
Proof.
  unfold naked_twins. apply blind_foldM. intros W unit.
  apply blind_bind.
  - unfold twins_of. apply blind_filterM. intros tw. unfold is_twin.
    apply blind_bind; [apply blind_getitem|]. intros v1.
    apply blind_bind; [apply blind_getitem|]. intros v2. apply blind_ret.
  - intros twins. apply blind_foldM. intros W' tw. apply blind_twin_step.
Qed.

Lemma blind_reduce_puzzle fuel : forall V, ghost_blind (reduce_puzzle fuel V).
Proof.
  induction fuel as [|fuel IH]; intros V; cbn [reduce_puzzle].
  - apply blind_timeout.
  - apply blind_bind; [apply blind_eliminate|]. intros V1.
    apply blind_bind; [apply blind_only_choice|]. intros V2.
    apply blind_bind; [apply blind_naked_twins|]. intros V3.
    destruct (negb _); [apply blind_ret|].
    destruct (_ =? _); [apply blind_ret|apply IH].
Qed.

Lemma blind_try_values rec V box vs :
  (forall W, ghost_blind (rec W)) -> ghost_blind (try_values rec V box vs).
Proof.
  intros Hrec. induction vs as [|v vs IH]; cbn [try_values].
  - apply blind_ret.
  - apply blind_bind; [apply blind_setitem|]. intros W.
    apply blind_bind; [apply Hrec|]. intros r.
    destruct (truthy r); [apply blind_ret|exact IH].
Qed.

Lemma blind_search loops depth : forall V, ghost_blind (search loops depth V).
Proof.
  induction depth as [|depth IH]; intros V; cbn [search].
  - apply blind_timeout.
  - apply blind_bind; [apply blind_reduce_puzzle|].
    intros [P| |]; [|apply blind_ret|apply blind_raise].
    apply blind_bind.
    { apply blind_allM. intros b. apply blind_bind; [apply blind_getitem|].
      intros v. apply blind_ret. }
    intros [|]; [apply blind_ret|].
    apply blind_bind.
    { unfold branch_candidates. apply blind_bind.
      - apply blind_filterM. intros b. apply blind_bind; [apply blind_getitem|].
        intros v. apply blind_ret.
      - intros bs. apply blind_foldM. intros acc b.
        apply blind_bind; [apply blind_getitem|]. intros v. apply blind_ret. }
    intros cands. destruct (min_pair cands) as [[n box]|]; [|apply blind_raise].
    apply blind_bind; [apply blind_getitem|]. intros vbox.
    apply blind_try_values. exact IH.
Qed.

(** Results and record of [solve] do not depend on the ghost history. *)
Lemma blind_solve loops depth grid : ghost_blind (solve loops depth grid).
Proof.
  unfold solve. apply blind_bind.
  - unfold grid_values.
    destruct (negb _); [apply blind_raise|].
    destruct (negb _); [apply blind_raise|].
    destruct (negb _); [apply blind_raise|apply blind_ret].
  - intros V. apply blind_bind; [apply blind_search|]. intros r.
    destruct (truthy r); apply blind_ret.
Qed.


(** * The claims *)

Lemma valid_gridb_ok grid : valid_gridb grid = true -> valid_grid grid.
Proof.
  unfold valid_gridb, valid_grid. intros H. apply andb_true_iff in H.
  destruct H as [H1 H2]. apply Nat.eqb_eq in H1. split; auto.
  apply Forall_forall. rewrite forallb_forall in H2. exact H2.
Qed.

Lemma has_empty_check V k :
  wf V -> dict_get V k = Some "" -> (length (keys_with_len 0 V) =? 0) = false.
Proof.
  intros Hwf Hk. apply Nat.eqb_neq. intros Hlen.
  assert (Hin : In k (keys_with_len 0 V)).
  { apply keys_with_len_In; [apply wf_NoDup; auto|]. exists "". auto. }
  destruct (keys_with_len 0 V); [destruct Hin|discriminate].
Qed.

Lemma shrinks_lengths W V :
  shrinks W V ->
  forall k v, dict_get V k = Some v ->
  exists v', dict_get W k = Some v' /\ subseq v' v /\ String.length v' <= String.length v.
Proof.
  intros HS k v Hv. destruct (shrinks_get _ _ _ _ HS Hv) as (v' & Hv' & Hsub).
  exists v'. repeat split; auto. apply subseq_length. exact Hsub.
Qed.

Lemma holders_two B u d x y rest :
  u = x :: y :: rest -> dict_get B x = Some d -> dict_get B y = Some d ->
  2 <= length (holders B u d).
Proof.
  intros -> Hx Hy. unfold holders. cbn [filter]. rewrite Hx, Hy, String.eqb_refl.
  simpl. lia.
Qed.

Lemma twin_fives_unsolvable B : ~ solution_of twin_fives_grid B.
Proof.
  intros [(_ & _ & Hunits) Hgiv].
  assert (Hb : boxes = "A1" :: "A2" :: skipn 2 boxes) by reflexivity.
  assert (Hc : chars twin_fives_grid = "5" :: "5" :: skipn 2 (chars twin_fives_grid))
    by reflexivity.
  rewrite Hb, Hc in Hgiv.
  inversion Hgiv as [|? ? ? ? H1 Hrest]; subst.
  inversion Hrest as [|? ? ? ? H2 _]; subst.
  destruct H1 as [H1|H1]; [discriminate|].
  destruct H2 as [H2|H2]; [discriminate|].
  assert (Hu : In (cross "A" cols) unitlist) by (left; reflexivity).
  assert (Hd : In "5" (chars digits)) by (do 4 right; left; reflexivity).
  specialize (Hunits _ _ Hu Hd).
  pose proof (holders_two B (cross "A" cols) "5" "A1" "A2" _ eq_refl H1 H2).
  lia.
Qed.

Lemma Forall_forallb {A} (Q : A -> Prop) (q : A -> bool) l :
  (forall x, q x = true -> Q x) -> forallb q l = true -> Forall Q l.
Proof.
  intros H Hq. apply Forall_forall. rewrite forallb_forall in Hq. auto.
Qed.

Lemma propagator_keeps_canonical (f : Board -> M Board) Phi W s :
  (forall V s0, wf V -> exists V' s', f V s0 = (Ok V', s') /\ asteps Phi V s0 V' s') ->
  wf W -> canonicalB W ->
  exists W' s1, f W s = (Ok W', s1) /\ canonicalB W' /\ wf W'.
Proof.
  intros Hf Hwf Hcan. destruct (Hf W s Hwf) as (W' & s1 & E & HA).
  exists W', s1. split; auto. split.
  - eapply canonicalB_shrinks; eauto. eapply asteps_shrinks; eauto.
  - eapply asteps_wf; eauto.
Qed.

Lemma eliminate_asteps V s :
  wf V -> exists V' s', eliminate V s = (Ok V', s') /\ asteps PhiE V s V' s'.
Proof.
  intros Hwf. destruct (eliminate_spec V s Hwf) as (V' & s' & E & HA & _). eauto.
Qed.

Lemma fixed_point_pass V s s1 s2 s3 :
  wf V ->
  eliminate V s = (Ok V, s1) -> only_choice V s = (Ok V, s2) ->
  naked_twins V s = (Ok V, s3) ->
  one_pass V s = (Ok V, s).
Proof.
  intros Hwf E1 E2 E3.
  assert (s1 = s).
  { destruct (eliminate_spec V s Hwf) as (V' & s' & E & HA & _).
    rewrite E1 in E. injection E as <- <-. eapply asteps_unchanged; eauto. }
  assert (s2 = s).
  { destruct (only_choice_spec V s Hwf) as (V' & s' & E & HA).
    rewrite E2 in E. injection E as <- <-. eapply asteps_unchanged; eauto. }
  assert (s3 = s).
  { destruct (naked_twins_spec V s Hwf) as (V' & s' & E & HA).
    rewrite E3 in E. injection E as <- <-. eapply asteps_unchanged; eauto. }
  subst. unfold one_pass.
  rewrite (bind_Ok _ _ _ _ _ E1), (bind_Ok _ _ _ _ _ E2). exact E3.
Qed.

(** C1: whenever the top-level [solve] returns a board and not the failure
    sentinel, that board has the 81 boxes as keys, every box holds exactly
    one digit 1-9, and every one of the 29 units holds each digit 1-9
    exactly once. *)
Theorem solve_sound loops depth grid s B s' :
  solve loops depth grid s = (Ok (RBoard B), s') ->
  solved_board B /\ length B = 81 /\ length unitlist = 29.
Proof.
  intros E. destruct (solve_board_solution _ _ _ _ _ _ E) as [HS _].
  split; [exact HS|]. split; [|reflexivity].
  apply wf_length. apply HS.
Qed.

Lemma solve_sound_witness :
  exists s', solve 82 82 diag_sudoku_grid init_state = (Ok (RBoard diag_solved), s') /\
             (solved_board diag_solved /\ length diag_solved = 81 /\ length unitlist = 29).
Proof.
  exists (snd (solve 82 82 diag_sudoku_grid init_state)).
  assert (E : solve 82 82 diag_sudoku_grid init_state =
              (Ok (RBoard diag_solved), snd (solve 82 82 diag_sudoku_grid init_state)))
    by (vm_compute; reflexivity).
  split; [exact E|exact (solve_sound _ _ _ _ _ _ E)].
Defined.

(** C2: one pass of the reducer always completes; if it leaves a box with
    an empty candidate string, [reduce_puzzle] returns [False] at once,
    whether or not the count of fixed boxes moved; otherwise it returns the
    board when the count did not move and runs the next pass when it did;
    so every board [reduce_puzzle] returns has a non-empty candidate string
    in every box, whichever pass ended the loop. *)
Theorem reduce_puzzle_contradiction fuel V s :
  wf V ->
  exists V3 s3,
    one_pass V s = (Ok V3, s3) /\
    ((exists k, dict_get V3 k = Some "") ->
     reduce_puzzle (S fuel) V s = (Ok RFalse, s3)) /\
    (no_empty V3 -> n_solved V3 = n_solved V ->
     reduce_puzzle (S fuel) V s = (Ok (RBoard V3), s3)) /\
    (no_empty V3 -> n_solved V3 <> n_solved V ->
     reduce_puzzle (S fuel) V s = reduce_puzzle fuel V3 s3) /\
    (forall B s', reduce_puzzle (S fuel) V s = (Ok (RBoard B), s') ->
                  forall k v, dict_get B k = Some v -> v <> "").
Proof.
  intros Hwf.
  destruct (one_pass_spec V s Hwf) as (V3 & s3 & n1 & e1 & E1 & _ & C1 & _).
  exists V3, s3. split; [exact E1|]. split; [|split; [|split]].
  - intros (k & Hk). rewrite reduce_puzzle_unfold, (bind_Ok _ _ _ _ _ E1).
    rewrite (has_empty_check V3 k); auto.
    eapply wf_shrinks; eauto. eapply Chain_shrinks; eauto.
  - intros Hne Hn. rewrite reduce_puzzle_unfold, (bind_Ok _ _ _ _ _ E1).
    apply no_empty_check in Hne. rewrite Hne, Hn, Nat.eqb_refl. reflexivity.
  - intros Hne Hn. rewrite reduce_puzzle_unfold, (bind_Ok _ _ _ _ _ E1).
    apply no_empty_check in Hne. apply Nat.eqb_neq in Hn. rewrite Hne, Hn. reflexivity.
  - intros B s' E k v Hv.
    destruct (reduce_puzzle_spec _ _ _ _ _ Hwf E)
      as (_ & _ & V' & _ & _ & _ & _ & [Hr|(Hr & Hne & _)] & _); [discriminate|].
    injection Hr as ->. eapply no_empty_get; eauto.
Qed.

Lemma reduce_puzzle_contradiction_witness :
  wf (initial_board twin_fives_grid) /\
  exists V3 s3,
    one_pass (initial_board twin_fives_grid) init_state = (Ok V3, s3) /\
    ((exists k, dict_get V3 k = Some "") ->
     reduce_puzzle 1 (initial_board twin_fives_grid) init_state = (Ok RFalse, s3)) /\
    (no_empty V3 -> n_solved V3 = n_solved (initial_board twin_fives_grid) ->
     reduce_puzzle 1 (initial_board twin_fives_grid) init_state = (Ok (RBoard V3), s3)) /\
    (no_empty V3 -> n_solved V3 <> n_solved (initial_board twin_fives_grid) ->
     reduce_puzzle 1 (initial_board twin_fives_grid) init_state = reduce_puzzle 0 V3 s3) /\
    (forall B s', reduce_puzzle 1 (initial_board twin_fives_grid) init_state
                  = (Ok (RBoard B), s') ->
                  forall k v, dict_get B k = Some v -> v <> "").
Proof.
  assert (Hwf : wf (initial_board twin_fives_grid)) by reflexivity.
  split; [exact Hwf|].
  exact (reduce_puzzle_contradiction 0 (initial_board twin_fives_grid) init_state Hwf).
Defined.

(** The pass on the board with two 5s in row A does empty a box. *)
Example twin_fives_pass :
  exists V3 s3, one_pass (initial_board twin_fives_grid) init_state = (Ok V3, s3) /\
                dict_get V3 "A2" = Some "" /\
                reduce_puzzle 1 (initial_board twin_fives_grid) init_state = (Ok RFalse, s3).
Proof.
  eexists _, _. split; [vm_compute; reflexivity|].
  split; vm_compute; reflexivity.
Qed.

(** C3, as stated, fails: on [rectangle_grid] four boxes change to a
    single-digit value during the run (three through [assign_value], one by
    the branch assignment of [search]), yet the record holds three
    snapshots. *)
Lemma branch_fixing_not_recorded :
  exists s', solve 82 82 rectangle_grid init_state = (Ok (RBoard diag_solved), s') /\
             fixings (stores s') = 4 /\
             branch_stores (stores s') = 1 /\
             length (assignments s') = 3 /\
             length (assignments s') <> fixings (stores s').
Proof.
  exists (snd (solve 82 82 rectangle_grid init_state)).
  split; [vm_compute; reflexivity|].
  split; [vm_compute; reflexivity|].
  split; [vm_compute; reflexivity|].
  split; [vm_compute; reflexivity|].
  vm_compute. discriminate.
Qed.

(** C3, amended: [assign_value] appends a snapshot exactly when it changes a
    box to a one-character value, and across a whole run of [solve] the
    record only grows, its growth has one snapshot per fixing event issued
    by [assign_value] (the fixing events of the run are these plus the
    unrecorded branch assignments of [search]), and no two consecutive
    snapshots of the run are equal. *)
Theorem record_of_solve loops depth grid s r s' :
  solve loops depth grid s = (Ok r, s') ->
  (exists new evs,
     assignments s' = assignments s ++ new /\
     stores s' = stores s ++ evs /\
     length new = assign_fixings evs /\
     fixings evs = length new + branch_stores evs /\
     Sep new) /\
  (forall W box value old s0,
     dict_get W box = Some old ->
     exists W' s0', assign_value W box value s0 = (Ok W', s0') /\
       assignments s0' =
       if negb (String.eqb old value) && (String.length value =? 1)
       then assignments s0 ++ [W'] else assignments s0).
Proof.
  intros E. split.
  - apply solve_post in E. destruct E as (_ & _ & r0 & HP & _).
    destruct HP as (new & evs & [G1 G2] & AF & FX & HSep & _).
    exists new, evs. repeat split; auto.
  - intros W box value old s0 Hg.
    destruct (String.eqb old value) eqn:Eq.
    + apply String.eqb_eq in Eq. subst old. exists W, s0.
      rewrite assign_value_same by auto. auto.
    + apply String.eqb_neq in Eq. eexists _, _.
      rewrite (assign_value_change _ _ _ _ _ Hg Eq). split; [reflexivity|].
      simpl. destruct (String.length value =? 1); reflexivity.
Qed.

Lemma record_of_solve_witness :
  exists s', solve 82 82 rectangle_grid init_state = (Ok (RBoard diag_solved), s') /\
    exists new evs,
      assignments s' = assignments init_state ++ new /\
      stores s' = stores init_state ++ evs /\
      length new = assign_fixings evs /\
      fixings evs = length new + branch_stores evs /\
      Sep new.
Proof.
  exists (snd (solve 82 82 rectangle_grid init_state)).
  assert (E : solve 82 82 rectangle_grid init_state =
              (Ok (RBoard diag_solved), snd (solve 82 82 rectangle_grid init_state)))
    by (vm_compute; reflexivity).
  split; [exact E|exact (proj1 (record_of_solve _ _ _ _ _ _ E))].
Defined.

(** On [rectangle_board] the twin of row A is (A2, A3), holding 6 and 7. *)
Example rectangle_twins :
  twins_of rectangle_board (cross "A" cols) init_state = (Ok [("A2", "A3")], init_state) /\
  dict_get rectangle_board "A2" = Some "67" /\ dict_get rectangle_board "A3" = Some "67".
Proof. repeat split; vm_compute; reflexivity. Qed.

(** C5: on a board that each of the three propagators leaves unchanged, the
    reducer changes neither board nor record; it returns that same board
    (or [False] when some box of it is empty), and running it again on the
    board it returned gives the identical board. *)
Theorem reduce_puzzle_idempotent fuel V s s1 s2 s3 :
  wf V ->
  eliminate V s = (Ok V, s1) -> only_choice V s = (Ok V, s2) ->
  naked_twins V s = (Ok V, s3) ->
  exists r, reduce_puzzle (S fuel) V s = (Ok r, s) /\
            (r = RBoard V \/ (r = RFalse /\ ~ no_empty V)) /\
            (forall B, r = RBoard B ->
                       reduce_puzzle (S fuel) B s = (Ok (RBoard B), s)).
Proof.
  intros Hwf E1 E2 E3.
  pose proof (fixed_point_pass V s s1 s2 s3 Hwf E1 E2 E3) as EP.
  assert (Once : reduce_puzzle (S fuel) V s =
                 (Ok (if length (keys_with_len 0 V) =? 0 then RBoard V else RFalse), s)).
  { rewrite reduce_puzzle_unfold, (bind_Ok _ _ _ _ _ EP), Nat.eqb_refl.
    destruct (length (keys_with_len 0 V) =? 0); reflexivity. }
  destruct (length (keys_with_len 0 V) =? 0) eqn:Hemp.
  - exists (RBoard V). split; [exact Once|]. split; [left; reflexivity|].
    intros B [= <-]. exact Once.
  - exists RFalse. split; [exact Once|]. split.
    + right. split; auto. intros Hne. apply no_empty_check in Hne. congruence.
    + intros B [=].
Qed.

Lemma reduce_puzzle_idempotent_witness :
  (wf diag_solved /\
   eliminate diag_solved init_state = (Ok diag_solved, init_state) /\
   only_choice diag_solved init_state = (Ok diag_solved, init_state) /\
   naked_twins diag_solved init_state = (Ok diag_solved, init_state)) /\
  exists r, reduce_puzzle 1 diag_solved init_state = (Ok r, init_state) /\
            (r = RBoard diag_solved \/ (r = RFalse /\ ~ no_empty diag_solved)) /\
            (forall B, r = RBoard B ->
                       reduce_puzzle 1 B init_state = (Ok (RBoard B), init_state)).
Proof.
  assert (Hwf : wf diag_solved) by reflexivity.
  assert (E1 : eliminate diag_solved init_state = (Ok diag_solved, init_state))
    by (vm_compute; reflexivity).
  assert (E2 : only_choice diag_solved init_state = (Ok diag_solved, init_state))
    by (vm_compute; reflexivity).
  assert (E3 : naked_twins diag_solved init_state = (Ok diag_solved, init_state))
    by (vm_compute; reflexivity).
  split; [repeat split; assumption|].
  exact (reduce_puzzle_idempotent 0 diag_solved init_state _ _ _ Hwf E1 E2 E3).
Defined.

(** C6: each of the three propagators, applied to any board, returns a board
    in which every box holds a subsequence of the string it held before, so
    no candidate string grows. *)
Theorem propagators_monotone V s :
  wf V ->
  (exists V' s', eliminate V s = (Ok V', s') /\
     forall k v, dict_get V k = Some v ->
       exists v', dict_get V' k = Some v' /\ subseq v' v /\
                  String.length v' <= String.length v) /\
  (exists V' s', only_choice V s = (Ok V', s') /\
     forall k v, dict_get V k = Some v ->
       exists v', dict_get V' k = Some v' /\ subseq v' v /\
                  String.length v' <= String.length v) /\
  (exists V' s', naked_twins V s = (Ok V', s') /\
     forall k v, dict_get V k = Some v ->
       exists v', dict_get V' k = Some v' /\ subseq v' v /\
                  String.length v' <= String.length v).
Proof.
  intros Hwf. split; [|split].
  - destruct (eliminate_spec V s Hwf) as (V' & s' & E & HA & _).
    exists V', s'. split; auto. apply shrinks_lengths. eapply asteps_shrinks; eauto.
  - destruct (only_choice_spec V s Hwf) as (V' & s' & E & HA).
    exists V', s'. split; auto. apply shrinks_lengths. eapply asteps_shrinks; eauto.
  - destruct (naked_twins_spec V s Hwf) as (V' & s' & E & HA).
    exists V', s'. split; auto. apply shrinks_lengths. eapply asteps_shrinks; eauto.
Qed.

Lemma propagators_monotone_witness :
  wf (initial_board diag_sudoku_grid) /\
  (exists V' s', eliminate (initial_board diag_sudoku_grid) init_state = (Ok V', s') /\
     forall k v, dict_get (initial_board diag_sudoku_grid) k = Some v ->
       exists v', dict_get V' k = Some v' /\ subseq v' v /\
                  String.length v' <= String.length v) /\
  (exists V' s', only_choice (initial_board diag_sudoku_grid) init_state = (Ok V', s') /\
     forall k v, dict_get (initial_board diag_sudoku_grid) k = Some v ->
       exists v', dict_get V' k = Some v' /\ subseq v' v /\
                  String.length v' <= String.length v) /\
  (exists V' s', naked_twins (initial_board diag_sudoku_grid) init_state = (Ok V', s') /\
     forall k v, dict_get (initial_board diag_sudoku_grid) k = Some v ->
       exists v', dict_get V' k = Some v' /\ subseq v' v /\
                  String.length v' <= String.length v).
Proof.
  assert (Hwf : wf (initial_board diag_sudoku_grid)) by reflexivity.
  split; [exact Hwf|].
  exact (propagators_monotone (initial_board diag_sudoku_grid) init_state Hwf).
Defined.

(** C7: [search] terminates on every board with the 81 boxes: a board has
    at most 81 unfixed boxes, every branch board has fewer unfixed boxes
    than the board [search] was called on, and with 82 loop iterations
    allowed a recursion depth above the number of unfixed boxes (so at most
    81 nested calls below the first) is enough for [search] to return; on a
    board of canonical strings 81 calls, the first included, are enough. *)
Theorem search_terminates loops V s :
  wf V -> 82 <= loops ->
  unfixed V <= 81 /\
  (forall depth, unfixed V < depth ->
     exists r s', search loops depth V s = (Ok r, s')) /\
  (canonicalB V -> forall depth, 81 <= depth ->
     exists r s', search loops depth V s = (Ok r, s')) /\
  (forall P box vbox v,
     shrinks P V -> dict_get P box = Some vbox -> 2 <= String.length vbox ->
     String.length v = 1 -> unfixed (dict_set P box v) < unfixed V).
Proof.
  intros Hwf Hl.
  assert (Hu : unfixed V <= 81).
  { pose proof (unfixed_le V) as H. rewrite (wf_length _ Hwf) in H. exact H. }
  split; [exact Hu|]. split; [|split].
  - intros depth Hd. apply search_total; auto.
  - intros Hcan depth Hd. apply search_total_canonical; auto; lia.
  - intros P box vbox v HS Hg Hlen Hv.
    pose proof (unfixed_set P box vbox v Hg Hlen Hv).
    pose proof (unfixed_shrinks _ _ HS). lia.
Qed.

Lemma search_terminates_witness :
  (wf (initial_board diag_sudoku_grid) /\ 82 <= 82) /\
  unfixed (initial_board diag_sudoku_grid) <= 81 /\
  (forall depth, unfixed (initial_board diag_sudoku_grid) < depth ->
     exists r s', search 82 depth (initial_board diag_sudoku_grid) init_state = (Ok r, s')) /\
  (canonicalB (initial_board diag_sudoku_grid) -> forall depth, 81 <= depth ->
     exists r s', search 82 depth (initial_board diag_sudoku_grid) init_state = (Ok r, s')) /\
  (forall P box vbox v,
     shrinks P (initial_board diag_sudoku_grid) -> dict_get P box = Some vbox ->
     2 <= String.length vbox -> String.length v = 1 ->
     unfixed (dict_set P box v) < unfixed (initial_board diag_sudoku_grid)).
Proof.
  assert (Hwf : wf (initial_board diag_sudoku_grid)) by reflexivity.
  assert (Hl : 82 <= 82) by lia.
  split; [split; [exact Hwf|exact Hl]|].
  exact (search_terminates 82 (initial_board diag_sudoku_grid) init_state Hwf Hl).
Defined.

(** C8: for every accepted grid whose puzzle has no solution, [solve]
    returns [False], which is no board; and whenever [search] comes back
    from the root with [False] or [None], all branches exhausted, [solve]
    returns [False]. *)
Theorem solve_no_solution loops depth grid s :
  valid_grid grid -> 82 <= loops -> 82 <= depth ->
  (forall B, ~ solution_of grid B) ->
  (exists s', solve loops depth grid s = (Ok RFalse, s') /\
              forall B, RFalse <> RBoard B) /\
  (forall r0 s', search loops depth (initial_board grid) s = (Ok r0, s') ->
                 truthy r0 = false ->
                 solve loops depth grid s = (Ok RFalse, s')).
Proof.
  intros Hv Hl Hd Hno. split.
  - destruct (solve_total loops depth grid s Hv Hl Hd) as (r & s' & E & [->|(B & ->)]).
    + exists s'. split; [exact E|]. intros B [=].
    + exfalso. apply (Hno B). eapply solve_board_solution; eauto.
  - intros r0 s' E T. unfold solve.
    rewrite (bind_Ok _ _ _ _ _ (grid_values_total grid s Hv)).
    rewrite (bind_Ok _ _ _ _ _ E), T. reflexivity.
Qed.

Lemma solve_no_solution_witness :
  (valid_grid twin_fives_grid /\ 82 <= 82 /\ 82 <= 82 /\
   forall B, ~ solution_of twin_fives_grid B) /\
  (exists s', solve 82 82 twin_fives_grid init_state = (Ok RFalse, s') /\
              forall B, RFalse <> RBoard B) /\
  (forall r0 s', search 82 82 (initial_board twin_fives_grid) init_state = (Ok r0, s') ->
                 truthy r0 = false ->
                 solve 82 82 twin_fives_grid init_state = (Ok RFalse, s')).
Proof.
  assert (Hv : valid_grid twin_fives_grid) by (apply valid_gridb_ok; reflexivity).
  assert (Hl : 82 <= 82) by lia.
  split; [split; [exact Hv|split; [exact Hl|split; [exact Hl|exact twin_fives_unsolvable]]]|].
  exact (solve_no_solution 82 82 twin_fives_grid init_state Hv Hl Hl twin_fives_unsolvable).
Defined.

(** C9: the topology has 81 boxes and 29 units (9 rows, 9 columns, 9
    squares, 2 diagonals) of 9 boxes each; E5 lies in 5 units and has 32
    peers, every other box of a diagonal lies in 4 units and has 26 peers,
    every box off the diagonals lies in 3 units and has 20 peers; and every
    assertion of [sanity_check] holds. *)
Theorem topology_counts :
  length boxes = 81 /\
  length row_units = 9 /\ length col_units = 9 /\ length square_units = 9 /\
  length diag_units = 2 /\ length unitlist = 29 /\
  Forall (fun u => length u = 9) unitlist /\
  Forall (fun box => (length (units_at box), length (peers_at box)) = expected_counts box)
         boxes /\
  mem "E5" diag_boxes = true /\
  sanity_check = true.
Proof.
  repeat (split; [reflexivity|]).
  split; [|split; [|split; [reflexivity|vm_compute; reflexivity]]].
  - apply (Forall_forallb _ (fun u => length u =? 9)).
    + intros u. apply Nat.eqb_eq.
    + vm_compute. reflexivity.
  - apply (Forall_forallb _ counts_ok).
    + intros box H. unfold counts_ok in H. apply andb_true_iff in H.
      destruct H as [H1 H2]. apply Nat.eqb_eq in H1, H2.
      rewrite H1, H2. destruct (expected_counts box). reflexivity.
    + vm_compute. reflexivity.
Qed.

(** C10: every board [grid_values] builds holds in every box a canonical
    string, that is '123456789' with some digits deleted; each propagator
    maps a board of canonical strings to a board of canonical strings; a
    canonical string is strictly ascending, free of repetitions and made of
    digits only; and two
    canonical strings are equal exactly when they contain the same digits,
    which is what the comparison in [naked_twins] relies on. *)
Theorem canonical_values grid s V s' :
  grid_values grid s = (Ok V, s') ->
  (wf V /\ canonicalB V) /\
  (forall W s0, wf W -> canonicalB W ->
     (exists W' s1, eliminate W s0 = (Ok W', s1) /\ canonicalB W' /\ wf W') /\
     (exists W' s1, only_choice W s0 = (Ok W', s1) /\ canonicalB W' /\ wf W') /\
     (exists W' s1, naked_twins W s0 = (Ok W', s1) /\ canonicalB W' /\ wf W')) /\
  (forall v, canonical v ->
     ascending v = true /\ NoDup (chars v) /\
     forall c, occurs c v = true -> occurs c digits = true) /\
  (forall v1 v2, canonical v1 -> canonical v2 ->
     (String.eqb v1 v2 = true <-> forall c, occurs c v1 = occurs c v2)).
Proof.
  intros E. apply grid_values_inv in E. destruct E as (_ & -> & Hv).
  split; [split; [apply initial_board_wf|apply initial_board_canonical]; exact Hv|].
  split; [|split].
  - intros W s0 Hwf Hcan. split; [|split].
    + eapply propagator_keeps_canonical; eauto. apply eliminate_asteps.
    + eapply propagator_keeps_canonical; eauto. apply only_choice_spec.
    + eapply propagator_keeps_canonical; eauto. apply naked_twins_spec.
  - intros v Hc. split; [apply canonical_ascending; exact Hc|].
    split; [apply canonical_NoDup; exact Hc|].
    intros c Ho. eapply subseq_occurs; eauto.
  - apply canonical_eq_iff.
Qed.

Lemma canonical_values_witness :
  grid_values diag_sudoku_grid init_state = (Ok (initial_board diag_sudoku_grid), init_state) /\
  (wf (initial_board diag_sudoku_grid) /\ canonicalB (initial_board diag_sudoku_grid)) /\
  (forall W s0, wf W -> canonicalB W ->
     (exists W' s1, eliminate W s0 = (Ok W', s1) /\ canonicalB W' /\ wf W') /\
     (exists W' s1, only_choice W s0 = (Ok W', s1) /\ canonicalB W' /\ wf W') /\
     (exists W' s1, naked_twins W s0 = (Ok W', s1) /\ canonicalB W' /\ wf W')) /\
  (forall v, canonical v ->
     ascending v = true /\ NoDup (chars v) /\
     forall c, occurs c v = true -> occurs c digits = true) /\
  (forall v1 v2, canonical v1 -> canonical v2 ->
     (String.eqb v1 v2 = true <-> forall c, occurs c v1 = occurs c v2)).
Proof.
  assert (E : grid_values diag_sudoku_grid init_state =
              (Ok (initial_board diag_sudoku_grid), init_state))
    by (vm_compute; reflexivity).
  split; [exact E|exact (canonical_values _ _ _ _ E)].
Defined.


(** * Further properties of the solver *)

(** ** Solved boards and the topology *)

Lemma peers_only_of_boxes q p : In p (peers_at q) -> In q boxes.
Proof.
  unfold peers_at. destruct (dict_get peers q) as [ps|] eqn:E; [|intros []].
  intros _. assert (K : dict_keys peers = boxes) by reflexivity.
  rewrite <- K. eapply dict_get_key_In; eauto.
Qed.

Lemma peers_unit q p :
  In p (peers_at q) -> exists u, In u unitlist /\ In q u /\ In p u.
Proof.
  intros Hp. pose proof (peers_only_of_boxes _ _ Hp) as Hq.
  assert (T : peers_share_unit = true) by (vm_compute; reflexivity).
  unfold peers_share_unit in T. rewrite forallb_forall in T.
  specialize (T q Hq). rewrite forallb_forall in T. specialize (T p Hp).
  apply existsb_exists in T. destruct T as (u & Hu & Hm).
  apply andb_true_iff in Hm. destruct Hm as [H1 H2].
  apply mem_In in H1, H2. eauto.
Qed.

Lemma solved_value S k :
  solved_board S -> In k boxes ->
  exists c, dict_get S k = Some (String c "") /\ occurs c digits = true.
Proof.
  intros (_ & Hval & _) Hk. destruct (Hval k Hk) as (d & Hd & Hg).
  apply chars_In in Hd. destruct Hd as (c & -> & Hc). eauto.
Qed.

Lemma holders_In B u d b :
  In b u -> dict_get B b = Some d -> In b (holders B u d).
Proof.
  intros Hb Hg. unfold holders. apply filter_In. split; auto.
  rewrite Hg. apply String.eqb_refl.
Qed.

Lemma length_one_list {A} (l : list A) x y :
  length l = 1 -> In x l -> In y l -> x = y.
Proof.
  destruct l as [|a [|b l]]; simpl; try discriminate.
  intros _ [<-|[]] [<-|[]]. reflexivity.
Qed.

(** In a solved board two peers never hold the same digit. *)
Lemma solved_peers_differ S q p a :
  solved_board S -> In p (peers_at q) ->
  dict_get S q = Some (String a "") -> dict_get S p <> Some (String a "").
Proof.
  intros HS Hp Hq Hp'.
  pose proof (peers_only_of_boxes _ _ Hp) as Hqb.
  destruct (peers_facts _ _ Hqb Hp) as (Hne & _ & _).
  destruct (peers_unit _ _ Hp) as (u & Hu & Hqu & Hpu).
  destruct (solved_value S q HS Hqb) as (c & Hc & Hcd).
  assert (c = a) by congruence. subst c.
  destruct HS as (_ & _ & Hunits).
  assert (Hd : In (String a "") (chars digits)).
  { apply chars_In. eauto. }
  specialize (Hunits u _ Hu Hd).
  apply Hne. symmetry.
  eapply length_one_list; [exact Hunits| |]; apply holders_In; auto.
Qed.

Lemma solved_unit_holder S u d :
  solved_board S -> In u unitlist -> In (String d "") (chars digits) ->
  exists b, In b u /\ dict_get S b = Some (String d "").
Proof.
  intros (_ & _ & Hunits) Hu Hd. specialize (Hunits u _ Hu Hd).
  destruct (holders S u (String d "")) as [|b l] eqn:E; [discriminate|].
  assert (Hb : In b (holders S u (String d ""))) by (rewrite E; left; reflexivity).
  unfold holders in Hb. apply filter_In in Hb. destruct Hb as [Hb Hg].
  exists b. split; auto. destruct (dict_get S b) as [v|]; [|discriminate].
  apply String.eqb_eq in Hg. congruence.
Qed.

(** A solved board has no fixed digit among the candidates of a peer. *)
Lemma solved_Elim S : solved_board S -> Elim S.
Proof.
  intros HS q p a w Hq Hp Hw.
  pose proof (peers_only_of_boxes _ _ Hp) as Hqb.
  destruct (peers_facts _ _ Hqb Hp) as (_ & Hpb & _).
  destruct (solved_value S p HS Hpb) as (c & Hc & _).
  assert (w = String c "") by congruence. subst w.
  rewrite occurs_single. destruct (Ascii.eqb a c) eqn:E; auto.
  apply Ascii.eqb_eq in E. subst c. exfalso.
  eapply solved_peers_differ; eauto.
Qed.

Lemma solved_all_fixed S : solved_board S -> all_fixed S.
Proof.
  intros HS. unfold all_fixed. apply Forall_forall. intros [k v] Hin. simpl.
  assert (Hwf : wf S) by apply HS.
  assert (Hg : dict_get S k = Some v) by (apply In_dict_get; auto using wf_NoDup).
  destruct (solved_value S k HS (wf_get_In _ _ _ Hwf Hg)) as (c & Hc & _).
  assert (v = String c "") by congruence. subst v. reflexivity.
Qed.

(** ** The propagators lose no solution *)

Lemma occurs_str_remove_other c d s :
  c <> d -> occurs c (str_remove (String d "") s) = occurs c s.
Proof.
  intros Hn. induction s as [|x s IH]; [reflexivity|].
  rewrite str_remove_single_cons. destruct (Ascii.eqb d x) eqn:E.
  - apply Ascii.eqb_eq in E. subst x. simpl.
    apply Ascii.eqb_neq in Hn. rewrite Hn. exact IH.
  - simpl. rewrite IH. reflexivity.
Qed.

Lemma allows_set W S box value :
  allows W S ->
  (forall c, dict_get S box = Some (String c "") -> occurs c value = true) ->
  allows (dict_set W box value) S.
Proof.
  intros HA Hb k c Hk. destruct (String.eqb box k) eqn:E.
  - apply String.eqb_eq in E. subst k. exists value.
    rewrite dict_get_set_same. auto.
  - apply String.eqb_neq in E. rewrite dict_get_set_other by auto. apply HA. exact Hk.
Qed.

Lemma sound_PhiE W p value : PhiE W p value -> sound_step W p value.
Proof.
  intros (q & dq & old & Hq & Hlen & Hp & Hold & ->) S HS HA.
  apply allows_set; auto. intros c Hc.
  destruct (HA p c Hc) as (w & Hw & Ho). assert (w = old) by congruence. subst w.
  destruct dq as [|d [|? ?]]; simpl in Hlen; try lia.
  - rewrite str_remove_empty. exact Ho.
  - rewrite occurs_str_remove_other; auto. intros ->.
    pose proof (peers_only_of_boxes _ _ Hp) as Hqb.
    destruct (solved_value S q HS Hqb) as (c & Hcq & _).
    destruct (HA q c Hcq) as (w & Hw' & Ho').
    assert (w = String d "") by congruence. subst w.
    rewrite occurs_single in Ho'. apply Ascii.eqb_eq in Ho'. subst c.
    eapply solved_peers_differ; eauto.
Qed.

Lemma sound_PhiO2 W box value : PhiO2 W box value -> sound_step W box value.
Proof.
  intros (d & u & Hu & Hd & -> & Hpl) S HS HA.
  apply allows_set; auto. intros c Hc.
  destruct (solved_unit_holder S u d HS Hu Hd) as (b & Hb & Hbd).
  destruct (HA b d Hbd) as (w & Hw & Ho).
  assert (Hin : In b [box]).
  { rewrite <- Hpl. apply filter_In. split; auto.
    rewrite Hw, str_contains_single. exact Ho. }
  destruct Hin as [<-|[]].
  assert (c = d) by congruence. subst c. simpl. rewrite Ascii.eqb_refl. reflexivity.
Qed.

Lemma occurs_pair x a b : occurs x (String a (String b "")) = Ascii.eqb x a || Ascii.eqb x b.
Proof. simpl. rewrite orb_false_r. reflexivity. Qed.

Lemma sound_PhiT2 W p value : PhiT2 W p value -> sound_step W p value.
Proof.
  intros (b1 & b2 & a & b & w2 & old & H1 & H2 & Hsub & Hp21 & Hp1 & Hp2 & Hold & ->) S HS HA.
  apply allows_set; auto. intros z Hz.
  destruct (HA p z Hz) as (w & Hw & Ho). assert (w = old) by congruence. subst w.
  pose proof (peers_only_of_boxes _ _ Hp1) as Hb1.
  pose proof (peers_only_of_boxes _ _ Hp2) as Hb2.
  destruct (solved_value S b1 HS Hb1) as (x & Hx & _).
  destruct (solved_value S b2 HS Hb2) as (y & Hy & _).
  destruct (HA b1 x Hx) as (w1 & Hw1 & Hox).
  assert (w1 = String a (String b "")) by congruence. subst w1.
  destruct (HA b2 y Hy) as (w2' & Hw2 & Hoy).
  assert (w2' = w2) by congruence. subst w2'.
  pose proof (subseq_occurs _ _ _ Hsub Hoy) as Hoy'.
  rewrite occurs_pair in Hox, Hoy'.
  assert (Hxy : x <> y).
  { intros ->. eapply (solved_peers_differ S b1 b2); eauto. }
  assert (Hzx : z <> x).
  { intros ->. eapply (solved_peers_differ S b1 p); eauto. }
  assert (Hzy : z <> y).
  { intros ->. eapply (solved_peers_differ S b2 p); eauto. }
  assert (Hza : z <> a /\ z <> b).
  { apply orb_true_iff in Hox, Hoy'.
    destruct Hox as [E1|E1]; destruct Hoy' as [E2|E2];
      apply Ascii.eqb_eq in E1, E2; subst; split; congruence. }
  unfold strip. rewrite !occurs_str_remove_other; tauto.
Qed.

(** A run of sound stores keeps every solved board it started with. *)
Lemma asteps_allows (Phi : Board -> string -> string -> Prop) V s V' s' S :
  (forall W b v, Phi W b v -> sound_step W b v) ->
  asteps Phi V s V' s' -> solved_board S -> allows V S -> allows V' S.
Proof.
  intros Hs H HS. induction H as [|W s box value old W1 s1 W2 s2 Hg Hsub HP Ha Hrest IH];
    intros HA; auto.
  apply IH.
  destruct (assign_value_cases _ _ _ _ _ _ _ Hg Ha) as [(_ & -> & _)|(_ & -> & _)]; auto.
  apply (Hs _ _ _ HP); auto.
Qed.

Lemma ltb_neq b1 b2 : String.ltb b1 b2 = true -> b1 <> b2.
Proof.
  unfold String.ltb. intros H ->.
  pose proof (String.compare_antisym b2 b2) as E.
  destruct (String.compare b2 b2); simpl in E; discriminate.
Qed.

Lemma only_choice_spec2 V s :
  wf V ->
  exists V' s', only_choice V s = (Ok V', s') /\ asteps PhiO2 V s V' s'.
Proof.
  intros Hwf. unfold only_choice.
  apply (foldM_inv (fun W s1 => asteps PhiO2 V s W s1)); [|apply asteps_nil].
  intros unit W s1 Hu HA.
  apply (foldM_inv (fun W s1 => asteps PhiO2 V s W s1)); [|exact HA].
  clear W s1 HA. intros digit W s1 Hd HA.
  assert (HwfW : wf W) by (eapply asteps_wf; eauto).
  pose proof Hd as Hd'. apply chars_In in Hd. destruct Hd as (d & -> & _).
  assert (EF : filterM (fun box => v <- getitem W box ;;
                                  ret (str_contains (String d "") v)) unit s1 =
               (Ok (filter (fun box => match dict_get W box with
                                       | Some v => str_contains (String d "") v
                                       | None => false
                                       end) unit), s1)).
  { apply filterM_total. intros box Hb.
    destruct (wf_get _ _ HwfW (unit_in_boxes _ _ Hu Hb)) as (v & Hv).
    rewrite (bind_Ok _ _ _ _ _ (getitem_Ok _ _ _ _ Hv)), Hv. reflexivity. }
  rewrite (bind_Ok _ _ _ _ _ EF). clear EF.
  match goal with |- context [filter ?f unit] => destruct (filter f unit) as [|box [|box' pl']] eqn:Epl end.
  - exists W, s1. split; [reflexivity|exact HA].
  - assert (Hb : In box (filter (fun box => match dict_get W box with
                                       | Some v => str_contains (String d "") v
                                       | None => false
                                       end) unit)) by (rewrite Epl; left; reflexivity).
    apply filter_In in Hb. destruct Hb as [_ Hb].
    destruct (dict_get W box) as [old|] eqn:Hold; [|discriminate].
    rewrite str_contains_single in Hb.
    destruct (assign_value_total W box (String d "") old s1 Hold)
      as (W3 & s3 & E3 & _).
    exists W3, s3. split; [exact E3|].
    refine (asteps_snoc PhiO2 V s W s1 box _ old W3 s3 HA Hold _ _ E3).
    + apply occurs_subseq. exact Hb.
    + exists d, unit. split; [exact Hu|]. split; [exact Hd'|]. split; [reflexivity|exact Epl].
  - exists W, s1. split; [reflexivity|exact HA].
Qed.

Lemma twin_step_spec2 W0 W b1 b2 a b s :
  wf W -> shrinks W W0 -> In b1 boxes -> In b2 (peers_at b1) ->
  dict_get W0 b1 = Some (String a (String b "")) ->
  dict_get W0 b2 = Some (String a (String b "")) ->
  exists W' s', twin_step W (b1, b2) s = (Ok W', s') /\ asteps PhiT2 W s W' s'.
Proof.
  intros Hwf HS H1 Hp21 Hv1 Hv2.
  destruct (peers_facts _ _ H1 Hp21) as (_ & H2 & _).
  destruct (shrinks_get _ _ _ _ HS Hv1) as (v & Hv & Hsub).
  unfold twin_step.
  rewrite (bind_Ok _ _ _ _ _ (getitem_Ok _ _ _ _ Hv)).
  destruct (String.length v <? 2) eqn:L.
  - exists W, s. split; [reflexivity|apply asteps_nil].
  - apply Nat.ltb_ge in L.
    assert (v = String a (String b "")).
    { apply subseq_length_eq; auto. apply subseq_length in Hsub. simpl in *. lia. }
    subst v. cbn [chars].
    rewrite (bind_Ok _ _ _ _ _ (shared_peers_total _ _ _ H1 H2)).
    match goal with |- context [foldM ?f ?l W s] =>
      destruct (foldM_inv (fun W3 s3 => asteps PhiT2 W s W3 s3 /\
                             dict_get W3 b1 = Some (String a (String b ""))) f l)
        with (a := W) (s := s) as (W' & s' & E & HA' & _)
    end.
    3:{ exists W', s'. split; assumption. }
    2:{ split; [apply asteps_nil|exact Hv]. }
    intros p W3 s3 Hp [HA Hb1].
    apply shared_peers_In in Hp; auto. destruct Hp as (Hp1 & Hp2 & _ & _).
    destruct (peers_facts _ _ H1 Hp1) as (Hne & Hpb & _).
    pose proof (asteps_shrinks _ _ _ _ _ HA) as HS3.
    assert (HwfW3 : wf W3) by (eapply wf_shrinks; eauto).
    destruct (wf_get _ _ HwfW3 Hpb) as (w & Hw).
    destruct (shrinks_get _ _ _ _ (shrinks_trans _ _ _ HS3 HS) Hv2) as (w2 & Hw2 & Hsub2).
    rewrite (bind_Ok _ _ _ _ _ (getitem_Ok _ _ _ _ Hw)).
    destruct (assign_value_total W3 p
                (str_remove (String b "") (str_remove (String a "") w)) w s3 Hw)
      as (W4 & s4 & E4 & _ & Hother).
    exists W4, s4. split; [exact E4|]. split.
    + refine (asteps_snoc PhiT2 W s W3 s3 p _ w W4 s4 HA Hw _ _ E4).
      * eapply subseq_trans; apply str_remove_subseq.
      * exists b1, b2, a, b, w2, w.
        split; [exact Hb1|]. split; [exact Hw2|]. split; [exact Hsub2|].
        split; [exact Hp21|]. split; [exact Hp1|]. split; [exact Hp2|].
        split; [exact Hw|reflexivity].
    + rewrite Hother; auto.
Qed.

Lemma naked_twins_spec2 V s :
  wf V ->
  exists V' s', naked_twins V s = (Ok V', s') /\ asteps PhiT2 V s V' s'.
Proof.
  intros Hwf. unfold naked_twins.
  apply (foldM_inv (fun W s1 => asteps PhiT2 V s W s1)); [|apply asteps_nil].
  intros unit W s1 Hu HA.
  assert (HwfW : wf W) by (eapply asteps_wf; eauto).
  rewrite (bind_Ok _ _ _ _ _ (twins_of_total _ _ _ HwfW Hu)).
  destruct (foldM_inv (fun W2 s2 => asteps PhiT2 W s1 W2 s2) twin_step
                      (filter (twin_cond W) (unit_pairs unit))) with (a := W) (s := s1)
    as (W' & s' & E & HA').
  - intros [b1 b2] W2 s2 Hin HA2.
    apply twins_detected in Hin.
    destruct Hin as (H1 & H2 & Hlt & a & b & Hv1 & Hv2).
    pose proof (asteps_shrinks _ _ _ _ _ HA2) as HS.
    destruct (unit_facts unit b1 b2 Hu H1 H2) as (_ & Hb1 & Hpeer).
    destruct (twin_step_spec2 W W2 b1 b2 a b s2) as (W3 & s3 & E3 & HA3); auto.
    + eapply wf_shrinks; eauto.
    + apply Hpeer. apply ltb_neq. exact Hlt.
    + exists W3, s3. split; auto. eapply asteps_trans; eauto.
  - apply asteps_nil.
  - exists W', s'. split; auto. eapply asteps_trans; eauto.
Qed.

Lemma one_pass_allows V s V3 s3 S :
  wf V -> one_pass V s = (Ok V3, s3) -> solved_board S -> allows V S -> allows V3 S.
Proof.
  intros Hwf E HS HA. unfold one_pass in E.
  destruct (eliminate_spec V s Hwf) as (V1 & s1 & E1 & A1 & _).
  assert (Hwf1 : wf V1) by (eapply asteps_wf; eauto).
  destruct (only_choice_spec2 V1 s1 Hwf1) as (V2 & s2 & E2 & A2).
  assert (Hwf2 : wf V2) by (eapply asteps_wf; eauto).
  destruct (naked_twins_spec2 V2 s2 Hwf2) as (V3' & s3' & E3 & A3).
  rewrite (bind_Ok _ _ _ _ _ E1), (bind_Ok _ _ _ _ _ E2), E3 in E.
  injection E as <- <-.
  eapply (asteps_allows PhiT2); eauto using sound_PhiT2.
  eapply (asteps_allows PhiO2); eauto using sound_PhiO2.
  eapply (asteps_allows PhiE); eauto using sound_PhiE.
Qed.

Lemma allows_no_empty V S : wf V -> solved_board S -> allows V S -> no_empty V.
Proof.
  intros Hwf HS HA. unfold no_empty. apply Forall_forall. intros [k v] Hin. simpl.
  assert (Hg : dict_get V k = Some v) by (apply In_dict_get; auto using wf_NoDup).
  destruct (solved_value S k HS (wf_get_In _ _ _ Hwf Hg)) as (c & Hc & _).
  destruct (HA k c Hc) as (w & Hw & Ho). assert (w = v) by congruence. subst w.
  destruct v; [discriminate|simpl; lia].
Qed.

Lemma reduce_puzzle_allows S fuel : forall V s r s',
  wf V -> solved_board S -> allows V S ->
  reduce_puzzle fuel V s = (Ok r, s') ->
  exists V', r = RBoard V' /\ shrinks V' V /\ allows V' S.
Proof.
  induction fuel as [|fuel IH]; intros V s r s' Hwf HS HA E; [discriminate|].
  rewrite reduce_puzzle_unfold in E.
  destruct (one_pass_spec V s Hwf) as (V3 & s3 & n1 & e1 & E1 & _ & C1 & _).
  rewrite (bind_Ok _ _ _ _ _ E1) in E.
  pose proof (Chain_shrinks _ _ _ C1) as S3.
  assert (Hwf3 : wf V3) by (eapply wf_shrinks; eauto).
  pose proof (one_pass_allows _ _ _ _ _ Hwf E1 HS HA) as HA3.
  assert (Hemp : (length (keys_with_len 0 V3) =? 0) = true).
  { apply no_empty_check. eapply allows_no_empty; eauto. }
  rewrite Hemp in E. cbn [negb] in E.
  destruct (n_solved V3 =? n_solved V).
  - injection E as <- <-. exists V3. auto.
  - destruct (IH _ _ _ _ Hwf3 HS HA3 E) as (V' & -> & HS' & HA').
    exists V'. split; [reflexivity|]. split; [|exact HA'].
    eapply shrinks_trans; eauto.
Qed.

Lemma try_values_finds S (rec : Board -> M pyres) P box c :
  dict_get S box = Some (String c "") ->
  (forall s r s', rec (dict_set P box (String c "")) s = (Ok r, s') -> truthy r = true) ->
  forall vs s r s', In (String c "") vs ->
    try_values rec P box vs s = (Ok r, s') -> truthy r = true.
Proof.
  intros Hc Hrec. induction vs as [|v vs IH]; intros s r s' Hin E; [destruct Hin|].
  cbn [try_values] in E.
  apply bind_inv in E. destruct E as (P1 & s1 & E1 & E).
  apply bind_inv in E. destruct E as (r1 & s2 & E2 & E).
  destruct (truthy r1) eqn:T.
  - injection E as <- <-. exact T.
  - destruct Hin as [->|Hin].
    + assert (P1 = dict_set P box (String c "")).
      { unfold setitem in E1. injection E1 as <- _. reflexivity. }
      subst P1. rewrite (Hrec _ _ _ E2) in T. discriminate.
    + eapply IH; eauto.
Qed.

(** A search started from a board that still allows a solved board returns
    a board, never [False] or [None]. *)
Lemma search_finds S loops depth : forall V s r s',
  wf V -> solved_board S -> allows V S ->
  search loops depth V s = (Ok r, s') -> truthy r = true.
Proof.
  induction depth as [|depth IH]; intros V s r s' Hwf HS HA E; [discriminate|].
  cbn [search] in E.
  apply bind_inv in E. destruct E as (r0 & s0 & E0 & E).
  destruct (reduce_puzzle_allows S _ _ _ _ _ Hwf HS HA E0) as (P & -> & HSP & HAP).
  assert (HwfP : wf P) by (eapply wf_shrinks; eauto).
  rewrite (bind_Ok _ _ _ _ _ (all_check_total P s0 HwfP)) in E.
  destruct (forallb (fun b => len_at P b =? 1) boxes).
  - injection E as <- <-. apply truthy_board. exact HwfP.
  - rewrite (bind_Ok _ _ _ _ _ (branch_candidates_total P s0 HwfP)) in E.
    destruct (min_pair _) as [[n box]|] eqn:Em; [|discriminate].
    apply min_pair_In in Em. apply candidate_facts in Em.
    destruct Em as (Hbox & vbox & Hv & _).
    rewrite (bind_Ok _ _ _ _ _ (getitem_Ok _ _ _ _ Hv)) in E.
    destruct (solved_value S box HS Hbox) as (c & Hc & _).
    destruct (HAP box c Hc) as (w & Hw & Ho).
    assert (w = vbox) by congruence. subst w.
    eapply (try_values_finds S (search loops depth) P box c Hc); [|
      apply chars_In; exists c; split; [reflexivity|exact Ho] | exact E].
    intros s1 r1 s1' E1. eapply IH; [| exact HS | | exact E1].
    + eapply wf_set; eauto.
    + apply allows_set; auto. intros c' Hc'.
      assert (c' = c) by congruence. subst c'. simpl. rewrite Ascii.eqb_refl. reflexivity.
Qed.

Lemma In_combine_map {A B C} (f : B -> C) (l : list A) (l' : list B) a c :
  In (a, c) (combine l (map f l')) -> exists b, In (a, b) (combine l l') /\ c = f b.
Proof.
  revert l'. induction l as [|x l IH]; intros [|y l'] H; simpl in *; try contradiction.
  destruct H as [H|H].
  - injection H as <- <-. exists y. auto.
  - destruct (IH _ H) as (b & Hb & ->). exists b. auto.
Qed.

Lemma Forall2_combine {A B} (P : A -> B -> Prop) l l' a b :
  Forall2 P l l' -> In (a, b) (combine l l') -> P a b.
Proof.
  induction 1 as [|x y l l' Hxy _ IH]; simpl; [contradiction|].
  intros [H|H]; [injection H as <- <-; exact Hxy|auto].
Qed.

(** The board [grid_values] builds allows every solution of the grid. *)
Lemma initial_allows grid S :
  valid_grid grid -> solution_of grid S -> allows (initial_board grid) S.
Proof.
  intros Hv [HS HG] k c Hc.
  assert (Hwf : wf (initial_board grid)) by (apply initial_board_wf; exact Hv).
  assert (Hk : In k boxes) by (eapply wf_get_In; [apply HS|exact Hc]).
  destruct (wf_get _ _ Hwf Hk) as (w & Hw). exists w. split; [exact Hw|].
  apply dict_get_Some_In in Hw. unfold initial_board in Hw.
  apply In_combine_map in Hw. destruct Hw as (g & Hg & ->).
  pose proof (Forall2_combine _ _ _ _ _ HG Hg) as [->|Hgiven].
  - cbn [String.eqb Ascii.eqb Bool.eqb]. simpl.
    destruct (solved_value S k HS Hk) as (c' & Hc' & Ho).
    assert (c' = c) by congruence. subst c'. exact Ho.
  - assert (g = String c "") by congruence. subst g.
    destruct (String.eqb (String c "") ".") eqn:E.
    + destruct (solved_value S k HS Hk) as (c' & Hc' & Ho).
      assert (c' = c) by congruence. subst c'. exact Ho.
    + simpl. rewrite Ascii.eqb_refl. reflexivity.
Qed.

Lemma diag_solved_solution : solution_of diag_sudoku_grid diag_solved.
Proof.
  apply (solve_board_solution 82 82 diag_sudoku_grid init_state diag_solved
           (snd (solve 82 82 diag_sudoku_grid init_state))).
  vm_compute. reflexivity.
Qed.

(** X1: completeness of [solve].  On an accepted grid that has a solution,
    [solve] returns a board, never [False]; the board is a solution of the
    grid, and it is the given solution when the grid has only that one. *)
Theorem solve_complete loops depth grid S s :
  valid_grid grid -> 82 <= loops -> 82 <= depth -> solution_of grid S ->
  exists B s', solve loops depth grid s = (Ok (RBoard B), s') /\
               solution_of grid B /\
               ((forall S', solution_of grid S' -> S' = S) -> B = S).
Proof.
  intros Hv Hl Hd HS.
  assert (Hwf : wf (initial_board grid)) by (apply initial_board_wf; exact Hv).
  assert (Hu : unfixed (initial_board grid) < depth).
  { pose proof (unfixed_le (initial_board grid)) as H.
    rewrite (wf_length _ Hwf) in H. lia. }
  destruct (search_total loops depth (initial_board grid) s Hwf Hl Hu) as (r & s' & E).
  pose proof (search_finds S loops depth _ _ _ _ Hwf (proj1 HS)
                (initial_allows _ _ Hv HS) E) as T.
  destruct r as [B| |]; try discriminate.
  assert (Es : solve loops depth grid s = (Ok (RBoard B), s')).
  { unfold solve. rewrite (bind_Ok _ _ _ _ _ (grid_values_total grid s Hv)).
    rewrite (bind_Ok _ _ _ _ _ E), T. reflexivity. }
  pose proof (solve_board_solution _ _ _ _ _ _ Es) as HB.
  exists B, s'. split; [exact Es|]. split; [exact HB|]. intros Huniq. apply Huniq. exact HB.
Qed.

Lemma solve_complete_witness :
  (valid_grid diag_sudoku_grid /\ 82 <= 82 /\ solution_of diag_sudoku_grid diag_solved) /\
  exists B s', solve 82 82 diag_sudoku_grid init_state = (Ok (RBoard B), s') /\
               solution_of diag_sudoku_grid B /\
               ((forall S', solution_of diag_sudoku_grid S' -> S' = diag_solved) ->
                B = diag_solved).
Proof.
  assert (Hv : valid_grid diag_sudoku_grid) by (apply valid_gridb_ok; reflexivity).
  assert (Hl : 82 <= 82) by lia.
  split; [split; [exact Hv|split; [exact Hl|exact diag_solved_solution]]|].
  exact (solve_complete 82 82 diag_sudoku_grid diag_solved init_state Hv Hl Hl
           diag_solved_solution).
Defined.

(** X2: the three propagators lose no solution.  Whatever solved board the
    input still allows (its digit in every box is among the candidates), the
    output of [eliminate], of [only_choice] and of [naked_twins] allows too. *)
Theorem propagators_keep_solutions V s S :
  wf V -> solved_board S -> allows V S ->
  (exists V' s', eliminate V s = (Ok V', s') /\ allows V' S) /\
  (exists V' s', only_choice V s = (Ok V', s') /\ allows V' S) /\
  (exists V' s', naked_twins V s = (Ok V', s') /\ allows V' S).
Proof.
  intros Hwf HS HA. split; [|split].
  - destruct (eliminate_spec V s Hwf) as (V' & s' & E & A & _).
    exists V', s'. split; [exact E|].
    exact (asteps_allows PhiE _ _ _ _ S sound_PhiE A HS HA).
  - destruct (only_choice_spec2 V s Hwf) as (V' & s' & E & A).
    exists V', s'. split; [exact E|].
    exact (asteps_allows PhiO2 _ _ _ _ S sound_PhiO2 A HS HA).
  - destruct (naked_twins_spec2 V s Hwf) as (V' & s' & E & A).
    exists V', s'. split; [exact E|].
    exact (asteps_allows PhiT2 _ _ _ _ S sound_PhiT2 A HS HA).
Qed.

Lemma propagators_keep_solutions_witness :
  (wf (initial_board diag_sudoku_grid) /\ solved_board diag_solved /\
   allows (initial_board diag_sudoku_grid) diag_solved) /\
  (exists V' s', eliminate (initial_board diag_sudoku_grid) init_state = (Ok V', s') /\
                 allows V' diag_solved) /\
  (exists V' s', only_choice (initial_board diag_sudoku_grid) init_state = (Ok V', s') /\
                 allows V' diag_solved) /\
  (exists V' s', naked_twins (initial_board diag_sudoku_grid) init_state = (Ok V', s') /\
                 allows V' diag_solved).
Proof.
  assert (Hv : valid_grid diag_sudoku_grid) by (apply valid_gridb_ok; reflexivity).
  assert (Hwf : wf (initial_board diag_sudoku_grid)) by reflexivity.
  assert (HS : solved_board diag_solved) by exact (proj1 diag_solved_solution).
  assert (HA : allows (initial_board diag_sudoku_grid) diag_solved)
    by exact (initial_allows _ _ Hv diag_solved_solution).
  split; [split; [exact Hwf|split; [exact HS|exact HA]]|].
  exact (propagators_keep_solutions (initial_board diag_sudoku_grid) init_state diag_solved
           Hwf HS HA).
Defined.

(** X3: [reduce_puzzle] run on a board that still allows a solved board does
    not report a contradiction: it ends, returns a board and not [False],
    and the board it returns is a shrunk copy of the input that still allows
    that solved board. *)
Theorem reduce_puzzle_keeps_solutions fuel V s S :
  wf V -> solved_board S -> allows V S -> 82 <= fuel ->
  exists V' s', reduce_puzzle fuel V s = (Ok (RBoard V'), s') /\
                shrinks V' V /\ allows V' S /\ no_empty V'.
Proof.
  intros Hwf HS HA Hf.
  destruct (reduce_puzzle_total fuel V s Hwf) as (r & s' & E); [lia|].
  destruct (reduce_puzzle_allows S _ _ _ _ _ Hwf HS HA E) as (V' & -> & Hsh & HA').
  exists V', s'. split; [exact E|]. split; [exact Hsh|]. split; [exact HA'|].
  eapply allows_no_empty; eauto. eapply wf_shrinks; eauto.
Qed.

Lemma reduce_puzzle_keeps_solutions_witness :
  (wf (initial_board diag_sudoku_grid) /\ solved_board diag_solved /\
   allows (initial_board diag_sudoku_grid) diag_solved /\ 82 <= 82) /\
  exists V' s', reduce_puzzle 82 (initial_board diag_sudoku_grid) init_state
                = (Ok (RBoard V'), s') /\
                shrinks V' (initial_board diag_sudoku_grid) /\ allows V' diag_solved /\
                no_empty V'.
Proof.
  assert (Hv : valid_grid diag_sudoku_grid) by (apply valid_gridb_ok; reflexivity).
  assert (Hwf : wf (initial_board diag_sudoku_grid)) by reflexivity.
  assert (HS : solved_board diag_solved) by exact (proj1 diag_solved_solution).
  assert (HA : allows (initial_board diag_sudoku_grid) diag_solved)
    by exact (initial_allows _ _ Hv diag_solved_solution).
  assert (Hl : 82 <= 82) by lia.
  split; [split; [exact Hwf|split; [exact HS|split; [exact HA|exact Hl]]]|].
  exact (reduce_puzzle_keeps_solutions 82 (initial_board diag_sudoku_grid) init_state
           diag_solved Hwf HS HA Hl).
Defined.

(** ** Solved boards are fixed points *)

Lemma dict_get_None_keys {V} (d : dict V) k : ~ In k (dict_keys d) -> dict_get d k = None.
Proof.
  intros Hn. destruct (dict_get d k) as [v|] eqn:E; [|reflexivity].
  exfalso. apply Hn. eapply dict_get_key_In; eauto.
Qed.

Lemma allows_solved_eq V S :
  solved_board S -> shrinks V S -> allows V S -> V = S.
Proof.
  intros HS Hsh HA.
  assert (HwfS : wf S) by apply HS.
  assert (Hwf : wf V) by (eapply wf_shrinks; eauto).
  apply board_ext.
  - rewrite Hwf, HwfS. reflexivity.
  - apply wf_NoDup. exact Hwf.
  - intros k. destruct (in_dec string_dec k boxes) as [Hk|Hk].
    + destruct (solved_value S k HS Hk) as (c & Hc & _).
      destruct (HA k c Hc) as (w & Hw & Ho).
      destruct (shrinks_get _ _ _ _ Hsh Hc) as (w' & Hw' & Hsub).
      assert (w' = w) by congruence. subst w'.
      apply subseq_single in Hsub. destruct Hsub as [->| ->]; [discriminate|].
      congruence.
    + rewrite !dict_get_None_keys; auto; [rewrite HwfS|rewrite Hwf]; exact Hk.
Qed.

Lemma allows_refl S : solved_board S -> allows S S.
Proof.
  intros _ k c Hc. exists (String c ""). split; [exact Hc|].
  simpl. rewrite Ascii.eqb_refl. reflexivity.
Qed.

Lemma asteps_solved (Phi : Board -> string -> string -> Prop) S s V' s' :
  (forall W b v, Phi W b v -> sound_step W b v) ->
  solved_board S -> asteps Phi S s V' s' -> V' = S /\ s' = s.
Proof.
  intros Hs HS A.
  assert (V' = S).
  { apply allows_solved_eq; auto.
    - eapply asteps_shrinks; eauto.
    - eapply asteps_allows; eauto using allows_refl. }
  subst V'. split; [reflexivity|]. eapply asteps_unchanged; eauto.
Qed.

Lemma solved_n_solved_check S :
  solved_board S -> forallb (fun b => len_at S b =? 1) boxes = true.
Proof.
  intros HS. apply forallb_forall. intros b Hb.
  destruct (solved_value S b HS Hb) as (c & Hc & _).
  unfold len_at. rewrite Hc. reflexivity.
Qed.

Lemma solved_fixed S s loops depth :
  solved_board S ->
  eliminate S s = (Ok S, s) /\
  only_choice S s = (Ok S, s) /\
  naked_twins S s = (Ok S, s) /\
  reduce_puzzle (1 + loops) S s = (Ok (RBoard S), s) /\
  search (1 + loops) (1 + depth) S s = (Ok (RBoard S), s).
Proof.
  intros HS. assert (Hwf : wf S) by apply HS.
  assert (E1 : eliminate S s = (Ok S, s)).
  { destruct (eliminate_spec S s Hwf) as (V' & s' & E & A & _).
    destruct (asteps_solved PhiE S s V' s' sound_PhiE HS A) as [-> ->]. exact E. }
  assert (E2 : only_choice S s = (Ok S, s)).
  { destruct (only_choice_spec2 S s Hwf) as (V' & s' & E & A).
    destruct (asteps_solved PhiO2 S s V' s' sound_PhiO2 HS A) as [-> ->]. exact E. }
  assert (E3 : naked_twins S s = (Ok S, s)).
  { destruct (naked_twins_spec2 S s Hwf) as (V' & s' & E & A).
    destruct (asteps_solved PhiT2 S s V' s' sound_PhiT2 HS A) as [-> ->]. exact E. }
  assert (E4 : reduce_puzzle (1 + loops) S s = (Ok (RBoard S), s)).
  { change (1 + loops) with (Datatypes.S loops). rewrite reduce_puzzle_unfold.
    assert (EP : one_pass S s = (Ok S, s)).
    { unfold one_pass. rewrite (bind_Ok _ _ _ _ _ E1), (bind_Ok _ _ _ _ _ E2). exact E3. }
    rewrite (bind_Ok _ _ _ _ _ EP).
    assert (Hemp : (length (keys_with_len 0 S) =? 0) = true).
    { apply no_empty_check. eapply allows_no_empty; eauto using allows_refl. }
    rewrite Hemp, Nat.eqb_refl. reflexivity. }
  split; [exact E1|]. split; [exact E2|]. split; [exact E3|]. split; [exact E4|].
  change (1 + depth) with (Datatypes.S depth). cbn [search].
  rewrite (bind_Ok _ _ _ _ _ E4).
  rewrite (bind_Ok _ _ _ _ _ (all_check_total S s Hwf)).
  rewrite (solved_n_solved_check S HS). reflexivity.
Qed.

(** X4: a solved board is a fixed point of the whole solver.  [eliminate],
    [only_choice], [naked_twins], [reduce_puzzle] and [search] return it
    unchanged, and none of them appends to the record or stores into the
    board. *)
Theorem solved_board_fixed_point S s loops depth :
  solved_board S ->
  eliminate S s = (Ok S, s) /\
  only_choice S s = (Ok S, s) /\
  naked_twins S s = (Ok S, s) /\
  reduce_puzzle (1 + loops) S s = (Ok (RBoard S), s) /\
  search (1 + loops) (1 + depth) S s = (Ok (RBoard S), s).
Proof. exact (solved_fixed S s loops depth). Qed.

Lemma solved_board_fixed_point_witness :
  solved_board diag_solved /\
  eliminate diag_solved init_state = (Ok diag_solved, init_state) /\
  only_choice diag_solved init_state = (Ok diag_solved, init_state) /\
  naked_twins diag_solved init_state = (Ok diag_solved, init_state) /\
  reduce_puzzle (1 + 0) diag_solved init_state = (Ok (RBoard diag_solved), init_state) /\
  search (1 + 0) (1 + 0) diag_solved init_state = (Ok (RBoard diag_solved), init_state).
Proof.
  assert (HS : solved_board diag_solved) by exact (proj1 diag_solved_solution).
  split; [exact HS|].
  exact (solved_board_fixed_point diag_solved init_state 0 0 HS).
Defined.

(** X5: [solve] on a grid that is already completely and correctly filled
    returns the board of that grid and appends nothing to the record, with
    one pass of the reducer and without branching. *)
Theorem solve_filled_grid loops depth grid s :
  valid_grid grid -> solved_board (initial_board grid) ->
  solve (1 + loops) (1 + depth) grid s = (Ok (RBoard (initial_board grid)), s).
Proof.
  intros Hv HS. unfold solve.
  rewrite (bind_Ok _ _ _ _ _ (grid_values_total grid s Hv)).
  destruct (solved_fixed (initial_board grid) s loops depth HS)
    as (_ & _ & _ & _ & E).
  rewrite (bind_Ok _ _ _ _ _ E).
  rewrite truthy_board; [reflexivity|apply HS].
Qed.

Lemma diag_solved_grid_board : initial_board diag_solved_grid = diag_solved.
Proof. vm_compute. reflexivity. Qed.

Lemma solve_filled_grid_witness :
  (valid_grid diag_solved_grid /\ solved_board (initial_board diag_solved_grid)) /\
  solve (1 + 0) (1 + 0) diag_solved_grid init_state
  = (Ok (RBoard (initial_board diag_solved_grid)), init_state).
Proof.
  assert (Hv : valid_grid diag_solved_grid) by (apply valid_gridb_ok; reflexivity).
  assert (HS : solved_board (initial_board diag_solved_grid)).
  { rewrite diag_solved_grid_board. exact (proj1 diag_solved_solution). }
  split; [split; [exact Hv|exact HS]|].
  exact (solve_filled_grid 0 0 diag_solved_grid init_state Hv HS).
Defined.

(** ** [grid_values] and [solve] at the boundary *)

Lemma valid_grid_check grid : valid_grid grid -> valid_gridb grid = true.
Proof.
  intros [L F]. unfold valid_gridb. rewrite L. cbn [Nat.eqb andb].
  apply forallb_forall. rewrite Forall_forall in F. exact F.
Qed.

(** X6: a grid that is not 81 characters long, or holds a character other
    than a digit 1-9 or a dot, fails the assertions of [grid_values]:
    [grid_values] and [solve] raise [AssertionError] before anything is
    appended to the record. *)
Theorem solve_rejects_bad_grid loops depth grid s :
  ~ valid_grid grid ->
  grid_values grid s = (Raise AssertionError, s) /\
  solve loops depth grid s = (Raise AssertionError, s).
Proof.
  intros Hn.
  assert (E : grid_values grid s = (Raise AssertionError, s)).
  { unfold grid_values.
    destruct (String.length grid =? 81) eqn:L; cbn [negb]; [|reflexivity].
    destruct (forallb _ (chars grid)) eqn:F; cbn [negb]; [|reflexivity].
    exfalso. apply Hn. apply valid_gridb_ok. unfold valid_gridb. rewrite L, F. reflexivity. }
  split; [exact E|]. unfold solve, bind. rewrite E. reflexivity.
Qed.

Lemma solve_rejects_bad_grid_witness :
  ~ valid_grid "12345678." /\
  grid_values "12345678." init_state = (Raise AssertionError, init_state) /\
  solve 82 82 "12345678." init_state = (Raise AssertionError, init_state).
Proof.
  assert (Hn : ~ valid_grid "12345678.") by (intros [L _]; discriminate L).
  split; [exact Hn|].
  exact (solve_rejects_bad_grid 82 82 "12345678." init_state Hn).
Defined.

Lemma nth_chars_length n s :
  n < String.length s -> String.length (nth n (chars s) "") = 1.
Proof.
  revert n. induction s as [|c s IH]; intros n H; simpl in *; [lia|].
  destruct n as [|n]; [reflexivity|]. apply IH. lia.
Qed.

Lemma combine_nth_In {A B} (l : list A) (l' : list B) n a b :
  length l = length l' -> n < length l -> In (nth n l a, nth n l' b) (combine l l').
Proof.
  intros Hl Hn. rewrite <- combine_nth by exact Hl.
  apply nth_In. rewrite length_combine, <- Hl. lia.
Qed.

(** X7: the board [grid_values] builds from an accepted grid has the 81
    boxes as keys, in row-major order; the box at position [i] holds
    '123456789' where the grid has a dot and the grid's own character
    where it has a digit; the record is left alone. *)
Theorem grid_values_cells grid s :
  valid_grid grid ->
  exists V, grid_values grid s = (Ok V, s) /\ dict_keys V = boxes /\
    forall i, i < 81 ->
      dict_get V (nth i boxes "") =
      Some (if String.eqb (nth i (chars grid) "") "." then digits
            else nth i (chars grid) "").
Proof.
  intros Hv. exists (initial_board grid).
  split; [apply grid_values_total; exact Hv|].
  pose proof (initial_board_wf grid Hv) as Hwf. split; [exact Hwf|].
  intros i Hi. apply In_dict_get; [apply wf_NoDup; exact Hwf|].
  unfold initial_board.
  set (f := fun c : string => if String.eqb c "." then digits else c).
  change (if String.eqb (nth i (chars grid) "") "." then digits else nth i (chars grid) "")
    with (f (nth i (chars grid) "")).
  assert (Hf : f "" = "") by reflexivity.
  rewrite <- (map_nth f (chars grid) "" i), Hf.
  destruct Hv as [L _].
  apply combine_nth_In.
  - rewrite length_map, chars_length, L. reflexivity.
  - rewrite boxes_length. exact Hi.
Qed.

Lemma grid_values_cells_witness :
  valid_grid diag_sudoku_grid /\
  exists V, grid_values diag_sudoku_grid init_state = (Ok V, init_state) /\
    dict_keys V = boxes /\
    forall i, i < 81 ->
      dict_get V (nth i boxes "") =
      Some (if String.eqb (nth i (chars diag_sudoku_grid) "") "." then digits
            else nth i (chars diag_sudoku_grid) "").
Proof.
  assert (Hv : valid_grid diag_sudoku_grid) by (apply valid_gridb_ok; reflexivity).
  split; [exact Hv|].
  exact (grid_values_cells diag_sudoku_grid init_state Hv).
Defined.

Lemma Forall2_nth {A B} (P : A -> B -> Prop) l l' a b :
  Forall2 P l l' -> forall i, i < length l -> P (nth i l a) (nth i l' b).
Proof.
  induction 1 as [|x y l l' Hxy _ IH]; intros i Hi; simpl in *; [lia|].
  destruct i as [|i]; [exact Hxy|]. apply IH. lia.
Qed.

(** X8: the board [solve] returns keeps every given of the grid: the box at
    position [i] holds the grid's character wherever that is not a dot, and
    every box holds a single digit taken from what [grid_values] put there. *)
Theorem solve_keeps_givens loops depth grid s B s' :
  solve loops depth grid s = (Ok (RBoard B), s') ->
  (forall i, i < 81 -> nth i (chars grid) "" <> "." ->
             dict_get B (nth i boxes "") = Some (nth i (chars grid) "")) /\
  shrinks B (initial_board grid) /\ all_fixed B.
Proof.
  intros E.
  pose proof (solve_board_solution _ _ _ _ _ _ E) as [HS HG].
  destruct (solve_post _ _ _ _ _ _ E) as (Hv & _ & r0 & HP & Hr).
  destruct HP as (new & evs & _ & _ & _ & _ & _ & _ & HB).
  destruct (HB B (Hr B eq_refl)) as (Hsh & Hfix & _).
  split; [|split; [exact Hsh|exact Hfix]].
  intros i Hi Hdot.
  assert (Hi' : i < length boxes) by (rewrite boxes_length; exact Hi).
  destruct (Forall2_nth _ _ _ "" "" HG i Hi') as [H|H]; [contradiction|exact H].
Qed.

Lemma solve_keeps_givens_witness :
  exists s', solve 82 82 diag_sudoku_grid init_state = (Ok (RBoard diag_solved), s') /\
    ((forall i, i < 81 -> nth i (chars diag_sudoku_grid) "" <> "." ->
        dict_get diag_solved (nth i boxes "") = Some (nth i (chars diag_sudoku_grid) "")) /\
     shrinks diag_solved (initial_board diag_sudoku_grid) /\ all_fixed diag_solved).
Proof.
  exists (snd (solve 82 82 diag_sudoku_grid init_state)).
  assert (E : solve 82 82 diag_sudoku_grid init_state =
              (Ok (RBoard diag_solved), snd (solve 82 82 diag_sudoku_grid init_state)))
    by (vm_compute; reflexivity).
  split; [exact E|exact (solve_keeps_givens _ _ _ _ _ _ E)].
Defined.

(** ** [assign_value] *)

(** X9: [assign_value] on a box the board does not have raises [KeyError]
    and changes nothing.  When it returns, the box holds the value, the keys
    and their order are those of the input, no other box has changed, and
    assigning the same value again changes neither board nor record. *)
Theorem assign_value_contract V box value s :
  (dict_get V box = None ->
   assign_value V box value s = (Raise (KeyError box), s)) /\
  (forall V' s', assign_value V box value s = (Ok V', s') ->
     dict_get V' box = Some value /\
     dict_keys V' = dict_keys V /\
     (forall k, k <> box -> dict_get V' k = dict_get V k) /\
     assign_value V' box value s' = (Ok V', s')).
Proof.
  split.
  - intros Hn. unfold assign_value, bind, getitem. rewrite Hn. reflexivity.
  - intros V' s' E. destruct (dict_get V box) as [old|] eqn:Hold.
    + destruct (assign_value_cases _ _ _ _ _ _ _ Hold E)
        as [(-> & -> & ->)|(Hne & -> & _)].
      * split; [exact Hold|]. split; [reflexivity|]. split; [reflexivity|exact E].
      * split; [apply dict_get_set_same|]. split; [eapply dict_keys_set; eauto|].
        split; [intros k Hk; apply dict_get_set_other; congruence|].
        apply assign_value_same. apply dict_get_set_same.
    + unfold assign_value, bind, getitem in E. rewrite Hold in E. discriminate.
Qed.

(** ** [only_choice] and [naked_twins] *)

Lemma n_solved_set W k old v :
  dict_get W k = Some old ->
  n_solved (dict_set W k v) + (if String.length old =? 1 then 1 else 0) =
  n_solved W + (if String.length v =? 1 then 1 else 0).
Proof.
  induction W as [|[k0 v0] W IH]; simpl; [discriminate|].
  destruct (String.eqb k k0) eqn:E.
  - intros [= ->]. rewrite !n_solved_cons. lia.
  - intros H. rewrite !n_solved_cons. specialize (IH H). lia.
Qed.

Lemma occurs_needs_two d old :
  occurs d old = true -> old <> String d "" -> 2 <= String.length old.
Proof.
  destruct old as [|c [|c' old]]; simpl; intros Ho Hne; [discriminate| |lia].
  rewrite orb_false_r in Ho. apply Ascii.eqb_eq in Ho. subst c. contradiction.
Qed.

Lemma asteps_PhiO_count V s V' s' :
  asteps PhiO V s V' s' ->
  exists new,
    assignments s' = assignments s ++ new /\
    n_solved V' = n_solved V + length new /\
    forall k v, dict_get V k = Some v ->
      dict_get V' k = Some v \/
      exists d, dict_get V' k = Some (String d "") /\ occurs d v = true /\
                2 <= String.length v.
Proof.
  induction 1 as [W s|W s box value old W1 s1 W2 s2 Hg Hsub HP Ha Hrest IH].
  - exists []. rewrite app_nil_r, Nat.add_0_r. auto.
  - destruct IH as (new & Hrec & Hn & Hcells).
    destruct HP as (d & old' & -> & Hold' & Ho).
    assert (old' = old) by congruence. subst old'.
    destruct (assign_value_cases _ _ _ _ _ _ _ Hg Ha)
      as [(_ & -> & ->)|(Hne & -> & _ & Hrecd)].
    + exists new. auto.
    + destruct Hrecd as [[_ Hrecd]|[Hl _]]; [|simpl in Hl; congruence].
      assert (H2 : 2 <= String.length old) by (apply occurs_needs_two with d; auto).
      exists (dict_set W box (String d "") :: new).
      split; [rewrite Hrec, Hrecd, <- app_assoc; reflexivity|]. split.
      * pose proof (n_solved_set W box old (String d "") Hg) as Hs.
        assert (Hf : (String.length old =? 1) = false) by (apply Nat.eqb_neq; lia).
        rewrite Hf in Hs. simpl in Hs. simpl. lia.
      * intros k v Hk. destruct (string_dec k box) as [->|Hkb].
        -- assert (v = old) by congruence. subst v. right. exists d.
           split; [|split; [exact Ho|exact H2]].
           destruct (Hcells box (String d "") (dict_get_set_same _ _ _))
             as [H|(d' & _ & _ & Hbad)]; [exact H|simpl in Hbad; lia].
        -- apply Hcells. rewrite dict_get_set_other; auto.
Qed.

(** X10: [only_choice] either leaves a box as it is or replaces two or
    more candidates by one of them; it never empties a box and never
    touches a fixed one.  It appends one snapshot to the record for each box
    it fixes: the count of fixed boxes grows by the number of snapshots. *)
Theorem only_choice_fixes V s :
  wf V ->
  exists V' s' new,
    only_choice V s = (Ok V', s') /\
    assignments s' = assignments s ++ new /\
    n_solved V' = n_solved V + length new /\
    forall k v, dict_get V k = Some v ->
      dict_get V' k = Some v \/
      exists d, dict_get V' k = Some (String d "") /\ occurs d v = true /\
                2 <= String.length v.
Proof.
  intros Hwf. destruct (only_choice_spec V s Hwf) as (V' & s' & E & A).
  destruct (asteps_PhiO_count _ _ _ _ A) as (new & H1 & H2 & H3).
  exists V', s', new. auto.
Qed.

Lemma only_choice_fixes_witness :
  wf (initial_board diag_sudoku_grid) /\
  exists V' s' new,
    only_choice (initial_board diag_sudoku_grid) init_state = (Ok V', s') /\
    assignments s' = assignments init_state ++ new /\
    n_solved V' = n_solved (initial_board diag_sudoku_grid) + length new /\
    forall k v, dict_get (initial_board diag_sudoku_grid) k = Some v ->
      dict_get V' k = Some v \/
      exists d, dict_get V' k = Some (String d "") /\ occurs d v = true /\
                2 <= String.length v.
Proof.
  assert (Hwf : wf (initial_board diag_sudoku_grid)) by reflexivity.
  split; [exact Hwf|].
  exact (only_choice_fixes (initial_board diag_sudoku_grid) init_state Hwf).
Defined.

Lemma no_In_nil {A} (l : list A) : (forall x, ~ In x l) -> l = [].
Proof. destruct l as [|x l]; [reflexivity|]. intros H. destruct (H x). left. reflexivity. Qed.

(** X11: [naked_twins] changes nothing, and records nothing, on a board in
    which no unit holds two boxes with the same pair of candidates. *)
Theorem naked_twins_without_twins V s :
  wf V ->
  (forall u b1 b2 a b, In u unitlist -> In b1 u -> In b2 u -> b1 <> b2 ->
     dict_get V b1 = Some (String a (String b "")) ->
     dict_get V b2 <> Some (String a (String b ""))) ->
  naked_twins V s = (Ok V, s).
Proof.
  intros Hwf Hno. unfold naked_twins.
  destruct (foldM_inv (fun W s1 => W = V /\ s1 = s)
              (fun values unit => twins <- twins_of values unit ;; foldM twin_step twins values)
              unitlist) with (a := V) (s := s) as (W & s1 & E & -> & ->).
  - intros u W s1 Hu [-> ->].
    rewrite (bind_Ok _ _ _ _ _ (twins_of_total _ _ _ Hwf Hu)).
    rewrite (no_In_nil (filter (twin_cond V) (unit_pairs u))).
    + exists V, s. split; [reflexivity|split; reflexivity].
    + intros [b1 b2] Hin. apply twins_detected in Hin.
      destruct Hin as (H1 & H2 & Hlt & a & b & Hv1 & Hv2).
      exact (Hno u b1 b2 a b Hu H1 H2 (ltb_neq _ _ Hlt) Hv1 Hv2).
  - split; reflexivity.
  - exact E.
Qed.

Lemma naked_twins_without_twins_witness :
  (wf diag_solved /\
   forall u b1 b2 a b, In u unitlist -> In b1 u -> In b2 u -> b1 <> b2 ->
     dict_get diag_solved b1 = Some (String a (String b "")) ->
     dict_get diag_solved b2 <> Some (String a (String b ""))) /\
  naked_twins diag_solved init_state = (Ok diag_solved, init_state).
Proof.
  assert (Hwf : wf diag_solved) by reflexivity.
  assert (Hno : forall u b1 b2 a b, In u unitlist -> In b1 u -> In b2 u -> b1 <> b2 ->
     dict_get diag_solved b1 = Some (String a (String b "")) ->
     dict_get diag_solved b2 <> Some (String a (String b ""))).
  { intros u b1 b2 a b _ _ _ _ H1 _.
    pose proof (all_fixed_get _ _ _ (solved_all_fixed _ (proj1 diag_solved_solution)) H1) as L.
    discriminate L. }
  split; [split; [exact Hwf|exact Hno]|].
  exact (naked_twins_without_twins diag_solved init_state Hwf Hno).
Defined.

(** ** The topology *)

Lemma In_cross A B x :
  In x (cross A B) <->
  exists a b, occurs a A = true /\ occurs b B = true /\ x = String a (String b "").
Proof.
  unfold cross. rewrite in_flat_map. split.
  - intros (sa & Ha & Hx). apply in_map_iff in Hx. destruct Hx as (sb & <- & Hb).
    apply chars_In in Ha, Hb. destruct Ha as (a & -> & Ha). destruct Hb as (b & -> & Hb).
    exists a, b. auto.
  - intros (a & b & Ha & Hb & ->). exists (String a ""). split.
    + apply chars_In. eauto.
    + apply in_map_iff. exists (String b ""). split; [reflexivity|].
      apply chars_In. eauto.
Qed.

Lemma cross_length A B : length (cross A B) = String.length A * String.length B.
Proof.
  unfold cross. induction A as [|a A IH]; [reflexivity|].
  cbn [chars flat_map String.length]. rewrite length_app, length_map, chars_length, IH.
  reflexivity.
Qed.

(** X12: [cross] builds every two-character name, first character from [A]
    and second from [B], [len(A) * len(B)] of them; so the boxes are
    exactly the names made of a row letter A-I followed by a column digit
    1-9, without repetition. *)
Theorem cross_spec A B :
  (forall x, In x (cross A B) <->
     exists a b, occurs a A = true /\ occurs b B = true /\ x = String a (String b "")) /\
  length (cross A B) = String.length A * String.length B /\
  (forall x, In x boxes <->
     exists r c, occurs r rows = true /\ occurs c cols = true /\
                 x = String r (String c "")) /\
  NoDup boxes.
Proof.
  split; [intros x; apply In_cross|]. split; [apply cross_length|].
  split; [intros x; apply In_cross|apply boxes_NoDup].
Qed.

Lemma units_defined q : In q boxes ->
  dict_get units q = Some (filter (fun unit => mem q unit) unitlist).
Proof.
  intros Hq. apply In_dict_get.
  - assert (K : dict_keys units = boxes) by reflexivity. rewrite K. apply boxes_NoDup.
  - unfold units. rewrite dict_of_nodup.
    + apply in_map_iff. exists q. auto.
    + rewrite map_map. cbn [fst]. rewrite map_id. apply boxes_NoDup.
Qed.

(** X13: what [units] and [peers] hold for a box [q].  The units of [q] are
    the units of [unitlist] that contain [q], in the order of [unitlist];
    the peers of [q] are the boxes other than [q] that share a unit with
    it.  Being a peer is symmetric, and no box is its own peer. *)
Theorem peers_spec q :
  In q boxes ->
  units_at q = filter (fun unit => mem q unit) unitlist /\
  (forall p, In p (peers_at q) <->
             p <> q /\ exists u, In u unitlist /\ In q u /\ In p u) /\
  (forall p, In p (peers_at q) -> In q (peers_at p)) /\
  NoDup (peers_at q).
Proof.
  intros Hq. split; [|split; [|split]].
  - unfold units_at. rewrite (units_defined q Hq). reflexivity.
  - intros p. split.
    + intros Hp. destruct (peers_facts q p Hq Hp) as (Hne & _ & _).
      split; [exact Hne|]. apply peers_unit. exact Hp.
    + intros (Hne & u & Hu & Hqu & Hpu).
      destruct (unit_facts u q p Hu Hqu Hpu) as (_ & _ & H). apply H. congruence.
  - intros p Hp. destruct (peers_facts q p Hq Hp) as (_ & _ & H). exact H.
  - apply peers_NoDup. exact Hq.
Qed.

Lemma peers_spec_witness :
  In "E5" boxes /\
  units_at "E5" = filter (fun unit => mem "E5" unit) unitlist /\
  (forall p, In p (peers_at "E5") <->
             p <> "E5" /\ exists u, In u unitlist /\ In "E5" u /\ In p u) /\
  (forall p, In p (peers_at "E5") -> In "E5" (peers_at p)) /\
  NoDup (peers_at "E5").
Proof.
  assert (Hq : In "E5" boxes) by (apply mem_In; vm_compute; reflexivity).
  split; [exact Hq|exact (peers_spec "E5" Hq)].
Defined.

(** ** The branching rule of [search] *)

Lemma ltb_asym a b : String.ltb a b = true -> String.ltb b a = false.
Proof.
  unfold String.ltb. rewrite (String.compare_antisym a b).
  destruct (String.compare b a); simpl; intros H; try discriminate; reflexivity.
Qed.

Lemma ltb_trans a b c :
  String.ltb a b = true -> String.ltb b c = true -> String.ltb a c = true.
Proof.
  unfold String.ltb. intros H1 H2.
  assert (L1 : OrderedTypeEx.String_as_OT.lt a b).
  { apply OrderedTypeEx.String_as_OT.cmp_lt. unfold OrderedTypeEx.String_as_OT.cmp.
    destruct (String.compare a b); try discriminate; reflexivity. }
  assert (L2 : OrderedTypeEx.String_as_OT.lt b c).
  { apply OrderedTypeEx.String_as_OT.cmp_lt. unfold OrderedTypeEx.String_as_OT.cmp.
    destruct (String.compare b c); try discriminate; reflexivity. }
  pose proof (OrderedTypeEx.String_as_OT.lt_trans _ _ _ L1 L2) as L.
  apply OrderedTypeEx.String_as_OT.cmp_lt in L.
  unfold OrderedTypeEx.String_as_OT.cmp in L. rewrite L. reflexivity.
Qed.

Lemma ltb_total a b : String.ltb a b = false -> String.ltb b a = false -> a = b.
Proof.
  unfold String.ltb. rewrite (String.compare_antisym b a).
  destruct (String.compare a b) eqn:E; simpl; try discriminate.
  intros _ _. apply String.compare_eq_iff. exact E.
Qed.

(** [b] does not come before [a]: [a <= b] in the order of Python strings. *)
Lemma not_before_trans a b c :
  String.ltb b a = false -> String.ltb c b = false -> String.ltb c a = false.
Proof.
  intros H1 H2. destruct (String.ltb c a) eqn:E; [|reflexivity].
  destruct (String.ltb a b) eqn:E1.
  - rewrite (ltb_trans _ _ _ E E1) in H2. discriminate.
  - assert (a = b) by (apply ltb_total; assumption). subst b.
    rewrite E in H2. discriminate.
Qed.

Lemma min_pair_least l m :
  min_pair l = Some m ->
  forall y, In y l ->
    fst m <= fst y /\ (fst y = fst m -> String.ltb (snd y) (snd m) = false).
Proof.
  revert m. induction l as [|x l IH]; intros m Hm y Hy; [destruct Hy|].
  cbn [min_pair] in Hm. destruct (min_pair l) as [y0|] eqn:E.
  - specialize (IH y0 eq_refl).
    destruct (pair_ltb y0 x) eqn:P; injection Hm as <-; unfold pair_ltb in P.
    + destruct Hy as [<-|Hy]; [|apply IH; exact Hy].
      apply orb_true_iff in P. destruct P as [P|P].
      * apply Nat.ltb_lt in P. split; [lia|intros; lia].
      * apply andb_true_iff in P. destruct P as [P1 P2]. apply Nat.eqb_eq in P1.
        split; [lia|]. intros _. apply ltb_asym. exact P2.
    + apply orb_false_iff in P. destruct P as [P1 P2]. apply Nat.ltb_ge in P1.
      destruct Hy as [<-|Hy].
      * split; [lia|]. intros _. destruct (String.ltb (snd x) (snd x)) eqn:Q; auto.
        apply ltb_neq in Q. contradiction.
      * destruct (IH y Hy) as [I1 I2]. split; [lia|]. intros Heq.
        assert (Hq : fst y0 = fst x) by lia.
        rewrite Hq, Nat.eqb_refl in P2. cbn [andb] in P2.
        apply not_before_trans with (snd y0); [exact P2|].
        apply I2. lia.
  - injection Hm as <-.
    assert (l = []).
    { destruct l as [|z l']; [reflexivity|].
      destruct (min_pair_Some (z :: l')) as (w & Hw); [discriminate|congruence]. }
    subst l. destruct Hy as [<-|[]]. split; [lia|]. intros _.
    destruct (String.ltb (snd x) (snd x)) eqn:Q; auto.
    apply ltb_neq in Q. contradiction.
Qed.

(** X14: the branching rule of [search].  When [reduce_puzzle] returns a
    board that is not completely fixed, [search] tries, in their order, the
    candidates of one box: a box with two or more candidates that has the
    fewest, and among those the one whose name comes first. *)
Theorem search_branch_choice loops depth V s P s1 :
  wf V ->
  reduce_puzzle loops V s = (Ok (RBoard P), s1) ->
  forallb (fun b => len_at P b =? 1) boxes = false ->
  exists box vbox,
    In box boxes /\ dict_get P box = Some vbox /\ 2 <= String.length vbox /\
    (forall b, In b boxes -> 2 <= len_at P b ->
       String.length vbox <= len_at P b /\
       (len_at P b = String.length vbox -> String.ltb b box = false)) /\
    search loops (1 + depth) V s
    = try_values (search loops depth) P box (chars vbox) s1.
Proof.
  intros Hwf E Hnot.
  destruct (reduce_puzzle_spec _ _ _ _ _ Hwf E)
    as (new & evs & V' & _ & HC & _ & _ & [Hr|(Hr & Hne & _)] & _); [discriminate|].
  injection Hr as <-.
  assert (HwfP : wf P) by (eapply wf_shrinks; [exact Hwf|eapply Chain_shrinks; eauto]).
  set (cands := map (fun b => (len_at P b, b)) (filter (fun b => 1 <? len_at P b) boxes)).
  assert (Hc : cands <> []).
  { destruct (forallb_false _ _ Hnot) as (b & Hb & Hl).
    destruct (wf_get _ _ HwfP Hb) as (v & Hv).
    pose proof (no_empty_get _ _ _ Hne Hv) as Hv0.
    assert (Hin : In (len_at P b, b) cands).
    { apply (in_map (fun b => (len_at P b, b))). apply filter_In. split; [exact Hb|].
      apply Nat.ltb_lt. apply Nat.eqb_neq in Hl. unfold len_at in Hl |- *.
      rewrite Hv in Hl |- *.
      destruct v as [|c v]; [congruence|]. cbn [String.length] in Hl |- *. lia. }
    intros H0. rewrite H0 in Hin. destruct Hin. }
  destruct (min_pair_Some cands Hc) as ([n box] & Hm).
  pose proof (min_pair_In _ _ Hm) as Hin.
  destruct (candidate_facts P n box Hin) as (Hbox & vbox & Hv & H2).
  assert (Hn : n = String.length vbox).
  { apply in_map_iff in Hin. destruct Hin as (b' & Hb' & _).
    injection Hb' as <- ->. unfold len_at. rewrite Hv. reflexivity. }
  exists box, vbox. split; [exact Hbox|]. split; [exact Hv|]. split; [exact H2|]. split.
  - intros b Hb Hl.
    assert (Hbin : In (len_at P b, b) cands).
    { apply (in_map (fun b => (len_at P b, b))). apply filter_In.
      split; [exact Hb|apply Nat.ltb_lt; lia]. }
    destruct (min_pair_least _ _ Hm _ Hbin) as [L1 L2]. simpl in L1, L2.
    rewrite <- Hn. split; [exact L1|exact L2].
  - change (1 + depth) with (S depth). cbn [search].
    rewrite (bind_Ok _ _ _ _ _ E).
    rewrite (bind_Ok _ _ _ _ _ (all_check_total P s1 HwfP)), Hnot.
    rewrite (bind_Ok _ _ _ _ _ (branch_candidates_total P s1 HwfP)).
    fold cands. rewrite Hm.
    rewrite (bind_Ok _ _ _ _ _ (getitem_Ok _ _ _ _ Hv)). reflexivity.
Qed.

Lemma search_branch_choice_witness :
  (wf rectangle_board /\
   reduce_puzzle 82 rectangle_board init_state
   = (Ok (RBoard rectangle_reduced), snd (reduce_puzzle 82 rectangle_board init_state)) /\
   forallb (fun b => len_at rectangle_reduced b =? 1) boxes = false) /\
  exists box vbox,
    In box boxes /\ dict_get rectangle_reduced box = Some vbox /\
    2 <= String.length vbox /\
    (forall b, In b boxes -> 2 <= len_at rectangle_reduced b ->
       String.length vbox <= len_at rectangle_reduced b /\
       (len_at rectangle_reduced b = String.length vbox -> String.ltb b box = false)) /\
    search 82 (1 + 81) rectangle_board init_state
    = try_values (search 82 81) rectangle_reduced box (chars vbox)
        (snd (reduce_puzzle 82 rectangle_board init_state)).
Proof.
  assert (Hwf : wf rectangle_board) by reflexivity.
  assert (E : reduce_puzzle 82 rectangle_board init_state
              = (Ok (RBoard rectangle_reduced),
                 snd (reduce_puzzle 82 rectangle_board init_state)))
    by (vm_compute; reflexivity).
  assert (Hn : forallb (fun b => len_at rectangle_reduced b =? 1) boxes = false)
    by (vm_compute; reflexivity).
  split; [split; [exact Hwf|split; [exact E|exact Hn]]|].
  exact (search_branch_choice 82 81 rectangle_board init_state rectangle_reduced _ Hwf E Hn).
Defined.

(** ** The record is write-only *)

Lemma wo_ret {A} (a : A) : write_only (ret a).
Proof. intros s1 s2. split; [reflexivity|]. exists []. simpl. rewrite !app_nil_r. auto. Qed.

Lemma wo_raise {A} e : write_only (@raise A e).
Proof. intros s1 s2. split; [reflexivity|]. exists []. simpl. rewrite !app_nil_r. auto. Qed.

Lemma wo_timeout {A} : write_only (@timeout A).
Proof. intros s1 s2. split; [reflexivity|]. exists []. simpl. rewrite !app_nil_r. auto. Qed.

Lemma wo_bind {A B} (m : M A) (f : A -> M B) :
  write_only m -> (forall a, write_only (f a)) -> write_only (bind m f).
Proof.
  intros Hm Hf s1 s2. unfold bind.
  destruct (Hm s1 s2) as (E1 & new & N1 & N2).
  destruct (m s1) as [[a|e|] t1]; destruct (m s2) as [[a'|e'|] t2];
    simpl in *; try discriminate.
  - injection E1 as <-.
    destruct (Hf a t1 t2) as (E & new' & M1 & M2).
    split; [exact E|]. exists (new ++ new').
    rewrite M1, M2, N1, N2, !app_assoc. auto.
  - injection E1 as <-. split; [reflexivity|]. exists new. auto.
  - split; [reflexivity|]. exists new. auto.
Qed.

Lemma wo_append V : write_only (append_assignment V).
Proof. intros s1 s2. split; [reflexivity|]. exists [V]. simpl. auto. Qed.

Lemma wo_setitem w V box value : write_only (setitem w V box value).
Proof. intros s1 s2. split; [reflexivity|]. exists []. simpl. rewrite !app_nil_r. auto. Qed.

Lemma wo_getitem {A} (d : dict A) k : write_only (getitem d k).
Proof. unfold getitem. destruct (dict_get d k); [apply wo_ret|apply wo_raise]. Qed.

Lemma wo_foldM {A X} (f : A -> X -> M A) l :
  (forall a x, write_only (f a x)) -> forall a, write_only (foldM f l a).
Proof.
  intros Hf. induction l as [|x l IH]; intros a; simpl.
  - apply wo_ret.
  - apply wo_bind; auto.
Qed.

Lemma wo_filterM {X} (p : X -> M bool) l :
  (forall x, write_only (p x)) -> write_only (filterM p l).
Proof.
  intros Hp. induction l as [|x l IH]; simpl.
  - apply wo_ret.
  - apply wo_bind; auto. intros b. apply wo_bind; auto.
    intros r. apply wo_ret.
Qed.

Lemma wo_allM {X} (p : X -> M bool) l :
  (forall x, write_only (p x)) -> write_only (allM p l).
Proof.
  intros Hp. induction l as [|x l IH]; simpl.
  - apply wo_ret.
  - apply wo_bind; auto. intros [|]; [exact IH|apply wo_ret].
Qed.

Lemma wo_assign_value V box value : write_only (assign_value V box value).
Proof.
  unfold assign_value. apply wo_bind; [apply wo_getitem|].
  intros old. destruct (String.eqb old value); [apply wo_ret|].
  apply wo_bind; [apply wo_setitem|]. intros V'.
  apply wo_bind; [|intros _; apply wo_ret].
  destruct (String.length value =? 1); [apply wo_append|apply wo_ret].
Qed.

Lemma wo_eliminate V : write_only (eliminate V).
Proof.
  unfold eliminate. apply wo_foldM. intros W box.
  apply wo_bind; [apply wo_getitem|]. intros digit.
  apply wo_bind; [apply wo_getitem|]. intros ps.
  apply wo_foldM. intros W' peer.
  apply wo_bind; [apply wo_getitem|]. intros v. apply wo_assign_value.
Qed.

Lemma wo_only_choice V : write_only (only_choice V).
Proof.
  unfold only_choice. apply wo_foldM. intros W unit.
  apply wo_foldM. intros W' digit.
  apply wo_bind.
  - apply wo_filterM. intros box.
    apply wo_bind; [apply wo_getitem|]. intros v. apply wo_ret.
  - intros [|box [|? ?]]; try apply wo_ret. apply wo_assign_value.
Qed.

Lemma wo_twin_step V tw : write_only (twin_step V tw).
Proof.
  unfold twin_step. destruct tw as [b1 b2].
  apply wo_bind; [apply wo_getitem|]. intros v.
  destruct (String.length v <? 2); [apply wo_ret|].
  destruct (chars v) as [|v1 [|v2 [|? ?]]]; try apply wo_raise.
  apply wo_bind.
  - unfold shared_peers. apply wo_bind; [apply wo_getitem|]. intros p1.
    apply wo_bind; [apply wo_getitem|]. intros p2. apply wo_ret.
  - intros sp. apply wo_foldM. intros W p.
    apply wo_bind; [apply wo_getitem|]. intros w. apply wo_assign_value.
Qed.

Lemma wo_naked_twins V : write_only (naked_twins V).
Proof.
  unfold naked_twins. apply wo_foldM. intros W unit.
  apply wo_bind.
  - unfold twins_of. apply wo_filterM. intros tw. unfold is_twin.
    apply wo_bind; [apply wo_getitem|]. intros v1.
    apply wo_bind; [apply wo_getitem|]. intros v2. apply wo_ret.
  - intros twins. apply wo_foldM. intros W' tw. apply wo_twin_step.
Qed.

Lemma wo_reduce_puzzle fuel : forall V, write_only (reduce_puzzle fuel V).
Proof.
  induction fuel as [|fuel IH]; intros V; cbn [reduce_puzzle].
  - apply wo_timeout.
  - apply wo_bind; [apply wo_eliminate|]. intros V1.
    apply wo_bind; [apply wo_only_choice|]. intros V2.
    apply wo_bind; [apply wo_naked_twins|]. intros V3.
    destruct (negb _); [apply wo_ret|].
    destruct (_ =? _); [apply wo_ret|apply IH].
Qed.

Lemma wo_try_values rec V box vs :
  (forall W, write_only (rec W)) -> write_only (try_values rec V box vs).
Proof.
  intros Hrec. induction vs as [|v vs IH]; cbn [try_values].
  - apply wo_ret.
  - apply wo_bind; [apply wo_setitem|]. intros W.
    apply wo_bind; [apply Hrec|]. intros r.
    destruct (truthy r); [apply wo_ret|exact IH].
Qed.

Lemma wo_search loops depth : forall V, write_only (search loops depth V).
Proof.
  induction depth as [|depth IH]; intros V; cbn [search].
  - apply wo_timeout.
  - apply wo_bind; [apply wo_reduce_puzzle|].
    intros [P| |]; [|apply wo_ret|apply wo_raise].
    apply wo_bind.
    { apply wo_allM. intros b. apply wo_bind; [apply wo_getitem|].
      intros v. apply wo_ret. }
    intros [|]; [apply wo_ret|].
    apply wo_bind.
    { unfold branch_candidates. apply wo_bind.
      - apply wo_filterM. intros b. apply wo_bind; [apply wo_getitem|].
        intros v. apply wo_ret.
      - intros bs. apply wo_foldM. intros acc b.
        apply wo_bind; [apply wo_getitem|]. intros v. apply wo_ret. }
    intros cands. destruct (min_pair cands) as [[n box]|]; [|apply wo_raise].
    apply wo_bind; [apply wo_getitem|]. intros vbox.
    apply wo_try_values. exact IH.
Qed.

Lemma wo_solve loops depth grid : write_only (solve loops depth grid).
Proof.
  unfold solve. apply wo_bind.
  - unfold grid_values.
    destruct (negb _); [apply wo_raise|].
    destruct (negb _); [apply wo_raise|].
    destruct (negb _); [apply wo_raise|apply wo_ret].
  - intros V. apply wo_bind; [apply wo_search|]. intros r.
    destruct (truthy r); apply wo_ret.
Qed.
(** X15: the solver only ever appends to the record.  The outcome of
    [eliminate], [only_choice], [naked_twins], [reduce_puzzle], [search] and
    [solve], and the snapshots they append, are the same whatever the record
    holds on entry, and what it held is still there, in front, on return:
    so a second call of [solve] in the same process is not disturbed by the
    snapshots of the first. *)
Theorem record_write_only :
  (forall V, write_only (eliminate V)) /\
  (forall V, write_only (only_choice V)) /\
  (forall V, write_only (naked_twins V)) /\
  (forall fuel V, write_only (reduce_puzzle fuel V)) /\
  (forall loops depth V, write_only (search loops depth V)) /\
  (forall loops depth grid, write_only (solve loops depth grid)).
Proof.
  split; [exact wo_eliminate|]. split; [exact wo_only_choice|].
  split; [exact wo_naked_twins|]. split; [exact wo_reduce_puzzle|].
  split; [exact wo_search|exact wo_solve].
Qed.

(** ** Termination *)

Lemma reduce_puzzle_more_fuel fuel : forall V s r s' fuel',
  reduce_puzzle fuel V s = (Ok r, s') -> fuel <= fuel' ->
  reduce_puzzle fuel' V s = (Ok r, s').
Proof.
  induction fuel as [|fuel IH]; intros V s r s' fuel' E Hle; [discriminate|].
  destruct fuel' as [|fuel']; [lia|].
  rewrite reduce_puzzle_unfold in E |- *.
  apply bind_inv in E. destruct E as (V3 & s3 & E1 & E).
  rewrite (bind_Ok _ _ _ _ _ E1).
  destruct (negb (length (keys_with_len 0 V3) =? 0)); [exact E|].
  destruct (n_solved V3 =? n_solved V); [exact E|].
  apply IH; [exact E|lia].
Qed.

Lemma try_values_more (rec rec' : Board -> M pyres) P box :
  (forall W s r s', rec W s = (Ok r, s') -> rec' W s = (Ok r, s')) ->
  forall vs s r s', try_values rec P box vs s = (Ok r, s') ->
                    try_values rec' P box vs s = (Ok r, s').
Proof.
  intros Hrec. induction vs as [|v vs IH]; intros s r s' E; [exact E|].
  cbn [try_values] in E |- *.
  apply bind_inv in E. destruct E as (P1 & s1 & E1 & E).
  apply bind_inv in E. destruct E as (r1 & s2 & E2 & E).
  rewrite (bind_Ok _ _ _ _ _ E1), (bind_Ok _ _ _ _ _ (Hrec _ _ _ _ E2)).
  destruct (truthy r1); [exact E|]. apply IH. exact E.
Qed.

Lemma search_more_fuel loops loops' depth : forall V s r s' depth',
  search loops depth V s = (Ok r, s') -> loops <= loops' -> depth <= depth' ->
  search loops' depth' V s = (Ok r, s').
Proof.
  induction depth as [|depth IH]; intros V s r s' depth' E Hl Hd; [discriminate|].
  destruct depth' as [|depth']; [lia|].
  cbn [search] in E |- *.
  apply bind_inv in E. destruct E as (r0 & s0 & E0 & E).
  rewrite (bind_Ok _ _ _ _ _ (reduce_puzzle_more_fuel _ _ _ _ _ _ E0 Hl)).
  destruct r0 as [P| |]; [|exact E|exact E].
  apply bind_inv in E. destruct E as (done & s1 & E1 & E).
  rewrite (bind_Ok _ _ _ _ _ E1).
  destruct done; [exact E|].
  apply bind_inv in E. destruct E as (cands & s2 & E2 & E).
  rewrite (bind_Ok _ _ _ _ _ E2).
  destruct (min_pair cands) as [[n box]|]; [|exact E].
  apply bind_inv in E. destruct E as (vbox & s3 & E3 & E).
  rewrite (bind_Ok _ _ _ _ _ E3).
  apply (try_values_more (search loops depth)); [|exact E].
  intros W t r1 t' H. apply IH; [exact H|exact Hl|lia].
Qed.

Lemma solve_more_fuel loops loops' depth depth' grid s r s' :
  solve loops depth grid s = (Ok r, s') -> loops <= loops' -> depth <= depth' ->
  solve loops' depth' grid s = (Ok r, s').
Proof.
  intros E Hl Hd. unfold solve in E |- *.
  apply bind_inv in E. destruct E as (V & s0 & E0 & E).
  apply bind_inv in E. destruct E as (r0 & s1 & E1 & E).
  rewrite (bind_Ok _ _ _ _ _ E0).
  rewrite (bind_Ok _ _ _ _ _ (search_more_fuel _ _ _ _ _ _ _ _ E1 Hl Hd)).
  exact E.
Qed.

(** X16: the loop of [reduce_puzzle] ends.  On a board with all 81 boxes it
    makes at most 82 minus the number of fixed boxes passes; it returns a
    board or [False], never [None]; more allowed passes change neither
    result nor record.  A returned board is a shrunk copy of the input with
    no empty box in which no fixed digit is left among the candidates of a
    peer. *)
Theorem reduce_puzzle_terminates fuel V s :
  wf V -> 82 <= fuel + n_solved V ->
  exists r s',
    reduce_puzzle fuel V s = (Ok r, s') /\
    (forall fuel', fuel <= fuel' -> reduce_puzzle fuel' V s = (Ok r, s')) /\
    (r = RFalse \/
     exists V', r = RBoard V' /\ shrinks V' V /\ no_empty V' /\ Elim V').
Proof.
  intros Hwf Hf.
  destruct (reduce_puzzle_total fuel V s Hwf Hf) as (r & s' & E).
  exists r, s'. split; [exact E|]. split.
  - intros fuel' Hle. eapply reduce_puzzle_more_fuel; eauto.
  - destruct (reduce_puzzle_spec _ _ _ _ _ Hwf E)
      as (new & evs & V' & _ & HC & _ & _ & [Hr|(Hr & Hne & HE)] & _).
    + left. exact Hr.
    + right. exists V'. split; [exact Hr|]. split; [eapply Chain_shrinks; eauto|].
      split; [exact Hne|exact HE].
Qed.

Lemma reduce_puzzle_terminates_witness :
  (wf (initial_board diag_sudoku_grid) /\
   82 <= 65 + n_solved (initial_board diag_sudoku_grid)) /\
  exists r s',
    reduce_puzzle 65 (initial_board diag_sudoku_grid) init_state = (Ok r, s') /\
    (forall fuel', 65 <= fuel' ->
       reduce_puzzle fuel' (initial_board diag_sudoku_grid) init_state = (Ok r, s')) /\
    (r = RFalse \/
     exists V', r = RBoard V' /\ shrinks V' (initial_board diag_sudoku_grid) /\
                no_empty V' /\ Elim V').
Proof.
  assert (Hwf : wf (initial_board diag_sudoku_grid)) by reflexivity.
  assert (Hf : 82 <= 65 + n_solved (initial_board diag_sudoku_grid))
    by (vm_compute; lia).
  split; [split; [exact Hwf|exact Hf]|].
  exact (reduce_puzzle_terminates 65 (initial_board diag_sudoku_grid) init_state Hwf Hf).
Defined.

(** X17: [solve] ends on every accepted grid.  With room for 82 passes of
    the reducer and 82 nested calls of [search] it returns a board or
    [False]; more room changes neither the result nor the record. *)
Theorem solve_terminates loops depth grid s :
  valid_grid grid -> 82 <= loops -> 82 <= depth ->
  exists r s',
    solve 82 82 grid s = (Ok r, s') /\
    solve loops depth grid s = (Ok r, s') /\
    (r = RFalse \/ exists B, r = RBoard B).
Proof.
  intros Hv Hl Hd.
  destruct (solve_total 82 82 grid s Hv (Nat.le_refl _) (Nat.le_refl _))
    as (r & s' & E & Hr).
  exists r, s'. split; [exact E|]. split; [|exact Hr].
  eapply solve_more_fuel; eauto.
Qed.

Lemma solve_terminates_witness :
  (valid_grid error_sudoku_1 /\ 82 <= 100 /\ 82 <= 90) /\
  exists r s',
    solve 82 82 error_sudoku_1 init_state = (Ok r, s') /\
    solve 100 90 error_sudoku_1 init_state = (Ok r, s') /\
    (r = RFalse \/ exists B, r = RBoard B).
Proof.
  assert (Hv : valid_grid error_sudoku_1) by (apply valid_gridb_ok; reflexivity).
  assert (Hl : 82 <= 100) by lia.
  assert (Hd : 82 <= 90) by lia.
  split; [split; [exact Hv|split; [exact Hl|exact Hd]]|].
  exact (solve_terminates 100 90 error_sudoku_1 init_state Hv Hl Hd).
Defined.

(** ** [display] *)

Lemma length_append (s t : string) :
  String.length (s ++ t) = String.length s + String.length t.
Proof. induction s as [|c s IH]; simpl; [reflexivity|rewrite IH; reflexivity]. Qed.

Lemma str_repeat_length c n : String.length (str_repeat (String c "") n) = n.
Proof. induction n as [|n IH]; simpl; [reflexivity|rewrite IH; reflexivity]. Qed.

Lemma half_margin marg b : (b = true -> Nat.odd marg = true) ->
  marg / 2 + (if b then 1 else 0) <= marg.
Proof.
  intros Hb. destruct marg as [|m].
  - destruct b; [discriminate (Hb eq_refl)|reflexivity].
  - assert (H : S m / 2 < S m) by (apply Nat.div_lt; lia).
    destruct b; lia.
Qed.

Lemma center_length s width :
  String.length s <= width -> String.length (center s width) = width.
Proof.
  intros H. unfold center. destruct (width <=? String.length s) eqn:E.
  - apply Nat.leb_le in E. lia.
  - apply Nat.leb_gt in E.
    pose proof (half_margin (width - String.length s)
                  (Nat.odd (width - String.length s) && Nat.odd width)) as Hm.
    rewrite !length_append, !str_repeat_length.
    assert (Hb : Nat.odd (width - String.length s) && Nat.odd width = true ->
                 Nat.odd (width - String.length s) = true).
    { intros Hb. apply andb_true_iff in Hb. apply Hb. }
    specialize (Hm Hb). lia.
Qed.

Lemma center_fixed v : String.length v = 1 -> center v 2 = (v ++ " ")%string.
Proof.
  intros H. destruct (length_one _ H) as (c & ->). reflexivity.
Qed.

Lemma lengths_of_all V bs :
  (forall b, In b bs -> exists v, dict_get V b = Some v) ->
  lengths_of V bs = Ok (map (len_at V) bs).
Proof.
  induction bs as [|b bs IH]; intros H; [reflexivity|].
  cbn [lengths_of map]. destruct (H b (or_introl eq_refl)) as (v & Hv).
  unfold len_at at 1. rewrite Hv, IH; [reflexivity|].
  intros b' Hb'. apply H. right. exact Hb'.
Qed.

Lemma fold_max_ge l : forall a x, x = a \/ In x l -> x <= fold_left Nat.max l a.
Proof.
  induction l as [|y l IH]; intros a x H; simpl.
  - destruct H as [->|[]]. lia.
  - destruct H as [->|[->|H]].
    + transitivity (Nat.max a y); [lia|]. apply IH. left. reflexivity.
    + transitivity (Nat.max a x); [lia|]. apply IH. left. reflexivity.
    + apply IH. right. exact H.
Qed.

Lemma len_at_max V b : In b boxes -> len_at V b <= max_len V.
Proof.
  intros Hb. unfold max_len. apply fold_max_ge. right. apply in_map. exact Hb.
Qed.

Lemma py_max_boxes V : py_max (map (len_at V) boxes) = Ok (max_len V).
Proof. reflexivity. Qed.

Lemma row_box r c : In r (chars rows) -> In c (chars cols) -> In (r ++ c)%string boxes.
Proof.
  intros Hr Hc. apply chars_In in Hr, Hc.
  destruct Hr as (a & -> & Ha). destruct Hc as (b & -> & Hb).
  apply In_cross. exists a, b. auto.
Qed.

Lemma row_cells_all V width r cs :
  (forall c, In c cs -> exists v, dict_get V (r ++ c)%string = Some v) ->
  row_cells V width r cs =
  Ok (map (fun c => (center (value_at V (r ++ c)%string) width
                     ++ (if str_contains c "36" then "|" else ""))%string) cs).
Proof.
  induction cs as [|c cs IH]; intros H; [reflexivity|].
  cbn [row_cells map]. destruct (H c (or_introl eq_refl)) as (v & Hv).
  unfold value_at at 1. rewrite Hv, IH; [reflexivity|].
  intros c' Hc'. apply H. right. exact Hc'.
Qed.

Lemma list_sum_cons x l : list_sum (x :: l) = x + list_sum l.
Proof. reflexivity. Qed.

Lemma concat_length l :
  String.length (String.concat "" l) = list_sum (map String.length l).
Proof.
  induction l as [|x [|y l] IH]; [reflexivity|simpl; lia|].
  change (String.concat "" (x :: y :: l)) with (x ++ "" ++ String.concat "" (y :: l))%string.
  rewrite !length_append, IH. cbn [map]. rewrite !list_sum_cons. reflexivity.
Qed.

Lemma cells_length (val : string -> string) (bar : string -> string) width cs :
  (forall c, In c cs -> String.length (val c) <= width) ->
  list_sum (map String.length
              (map (fun c => (center (val c) width ++ bar c)%string) cs)) =
  length cs * width + list_sum (map (fun c => String.length (bar c)) cs).
Proof.
  induction cs as [|c cs IH]; intros H; [reflexivity|].
  cbn [map length]. rewrite !list_sum_cons, length_append, center_length, IH.
  - lia.
  - intros c' Hc'. apply H. right. exact Hc'.
  - apply H. left. reflexivity.
Qed.

Lemma value_len V b : String.length (value_at V b) = len_at V b.
Proof. unfold value_at, len_at. destruct (dict_get V b); reflexivity. Qed.

Lemma row_line_length V r :
  In r (chars rows) ->
  String.length (row_line V (1 + max_len V) r) = 9 * (1 + max_len V) + 2.
Proof.
  intros Hr. unfold row_line. rewrite concat_length.
  pose proof (cells_length (fun c => value_at V (r ++ c)%string)
                (fun c => if str_contains c "36" then "|" else "")%string
                (1 + max_len V) (chars cols)) as H.
  cbv beta in H. rewrite H; clear H.
  - match goal with |- ?n * _ + ?x = _ => change n with 9; change x with 2 end.
    reflexivity.
  - intros c Hc. rewrite value_len.
    pose proof (len_at_max V _ (row_box r c Hr Hc)). lia.
Qed.

Lemma separator_length width :
  String.length (String.concat "+" (repeat (str_repeat "-" (width * 3)) 3)) =
  9 * width + 2.
Proof.
  cbn [repeat String.concat]. rewrite !length_append, !str_repeat_length.
  cbn [String.length]. lia.
Qed.

Lemma display_rows_all V width sep rs :
  (forall r, In r rs -> In r (chars rows)) ->
  (forall b, In b boxes -> exists v, dict_get V b = Some v) ->
  forall out,
    display_rows V width sep rs out =
    (Ok tt, out ++ flat_map (fun r => row_line V width r ::
                                      if str_contains r "CF" then [sep] else []) rs).
Proof.
  intros Hrs HV. induction rs as [|r rs IH]; intros out.
  - simpl. rewrite app_nil_r. reflexivity.
  - cbn [display_rows flat_map].
    rewrite row_cells_all.
    2:{ intros c Hc. apply HV. apply row_box; [apply Hrs; left; reflexivity|exact Hc]. }
    fold (row_line V width r).
    rewrite IH by (intros r' Hr'; apply Hrs; right; exact Hr').
    destruct (str_contains r "CF"); rewrite <- !app_assoc; reflexivity.
Qed.

Lemma fold_max_ones l : forall a,
  a <= 1 -> (forall x, In x l -> x = 1) -> l <> [] -> fold_left Nat.max l a = 1.
Proof.
  induction l as [|x l IH]; intros a Ha Hl Hne; [congruence|].
  simpl. assert (x = 1) by (apply Hl; left; reflexivity). subst x.
  replace (Nat.max a 1) with 1 by lia.
  destruct l as [|y l]; [reflexivity|].
  apply IH; [lia|intros z Hz; apply Hl; right; exact Hz|discriminate].
Qed.

Lemma max_len_fixed V : (forall b, In b boxes -> len_at V b = 1) -> max_len V = 1.
Proof.
  intros Hfix. unfold max_len. apply fold_max_ones; [lia| |].
  - intros x Hx. apply in_map_iff in Hx. destruct Hx as (b & <- & Hb). auto.
  - intros H0. apply (f_equal (@length nat)) in H0.
    rewrite length_map, boxes_length in H0. discriminate H0.
Qed.

(** X18: what [display] prints for a board that has every box.  With
    [width] one more than the longest value, it writes eleven lines: the
    nine rows in order, each the nine values centred to [width] with a bar
    after columns 3 and 6, and a line of dashes and two plus signs after
    rows C and F.  All eleven lines have the same length, [9 * width + 2].
    When every box is fixed the width is 2 and a value is followed by one
    space. *)
Theorem display_layout V out :
  (forall b, In b boxes -> exists v, dict_get V b = Some v) ->
  exists lines,
    display V out = (Ok tt, out ++ lines) /\
    lines = flat_map (fun r => row_line V (1 + max_len V) r ::
                        if str_contains r "CF"
                        then [String.concat "+"
                                (repeat (str_repeat "-" ((1 + max_len V) * 3)) 3)]
                        else []) (chars rows) /\
    length lines = 11 /\
    Forall (fun l => String.length l = 9 * (1 + max_len V) + 2) lines /\
    ((forall b, In b boxes -> len_at V b = 1) ->
     1 + max_len V = 2 /\
     forall b, In b boxes -> center (value_at V b) 2 = (value_at V b ++ " ")%string).
Proof.
  intros HV. eexists. split; [|split; [reflexivity|]].
  - unfold display. rewrite (lengths_of_all V boxes HV), py_max_boxes.
    apply display_rows_all; [auto|exact HV].
  - split; [reflexivity|]. split.
    + apply Forall_forall. intros l Hl. apply in_flat_map in Hl.
      destruct Hl as (r & Hr & Hl). destruct Hl as [<-|Hl].
      * apply row_line_length. exact Hr.
      * destruct (str_contains r "CF"); [|destruct Hl].
        destruct Hl as [<-|[]]. apply separator_length.
    + intros Hfix. split.
      * rewrite (max_len_fixed V Hfix). reflexivity.
      * intros b Hb. apply center_fixed. rewrite value_len. apply Hfix. exact Hb.
Qed.

Lemma display_layout_witness :
  (forall b, In b boxes -> exists v, dict_get diag_solved b = Some v) /\
  exists lines,
    display diag_solved [] = (Ok tt, [] ++ lines) /\
    lines = flat_map (fun r => row_line diag_solved (1 + max_len diag_solved) r ::
                        if str_contains r "CF"
                        then [String.concat "+"
                                (repeat (str_repeat "-" ((1 + max_len diag_solved) * 3)) 3)]
                        else []) (chars rows) /\
    length lines = 11 /\
    Forall (fun l => String.length l = 9 * (1 + max_len diag_solved) + 2) lines /\
    ((forall b, In b boxes -> len_at diag_solved b = 1) ->
     1 + max_len diag_solved = 2 /\
     forall b, In b boxes ->
       center (value_at diag_solved b) 2 = (value_at diag_solved b ++ " ")%string).
Proof.
  assert (HV : forall b, In b boxes -> exists v, dict_get diag_solved b = Some v).
  { intros b Hb. apply wf_get; [reflexivity|exact Hb]. }
  split; [exact HV|exact (display_layout diag_solved [] HV)].
Defined.

Lemma lengths_of_first_missing V pre b post :
  (forall b0, In b0 pre -> exists v, dict_get V b0 = Some v) ->
  dict_get V b = None ->
  lengths_of V (pre ++ b :: post) = Raise (KeyError b).
Proof.
  intros Hpre Hb. induction pre as [|b0 pre IH].
  - cbn [app lengths_of]. rewrite Hb. reflexivity.
  - cbn [app lengths_of]. destruct (Hpre b0 (or_introl eq_refl)) as (v & Hv).
    rewrite Hv, IH; [reflexivity|].
    intros b1 Hb1. apply Hpre. right. exact Hb1.
Qed.

(** X19: [display] fails before it prints.  If the board lacks a box,
    [display] raises [KeyError] for the first box it lacks, in the order
    of [boxes] (row by row), while computing the width: no line has been
    written. *)
Theorem display_failure V out pre b post :
  boxes = pre ++ b :: post ->
  (forall b0, In b0 pre -> exists v, dict_get V b0 = Some v) ->
  dict_get V b = None ->
  display V out = (Raise (KeyError b), out).
Proof.
  intros Hb Hpre Hn. unfold display.
  rewrite Hb, (lengths_of_first_missing V pre b post Hpre Hn). reflexivity.
Qed.

Lemma display_failure_witness :
  (boxes = ["A1"] ++ "A2" :: tl (tl boxes) /\
   (forall b0, In b0 ["A1"] -> exists v, dict_get holey_board b0 = Some v) /\
   dict_get holey_board "A2" = None /\ dict_get holey_board "I9" = None) /\
  display holey_board [] = (Raise (KeyError "A2"), []).
Proof.
  assert (Hb : boxes = ["A1"] ++ "A2" :: tl (tl boxes)) by reflexivity.
  assert (Hpre : forall b0, In b0 ["A1"] -> exists v, dict_get holey_board b0 = Some v).
  { intros b0 [<-|[]]. exists "2". reflexivity. }
  assert (Hn : dict_get holey_board "A2" = None) by reflexivity.
  assert (Hn9 : dict_get holey_board "I9" = None) by reflexivity.
  split; [split; [exact Hb|split; [exact Hpre|split; [exact Hn|exact Hn9]]]|].
  exact (display_failure holey_board [] ["A1"] "A2" (tl (tl boxes)) Hb Hpre Hn).
Defined.

(** ** The exact effect of [eliminate] *)

Lemma consb_ok V : consb V = true -> Cons V.
Proof.
  intros H q p a Hq Hp Hpa.
  pose proof (peers_only_of_boxes _ _ Hp) as Hqb.
  unfold consb in H. rewrite forallb_forall in H. specialize (H q Hqb).
  rewrite forallb_forall in H. specialize (H p Hp).
  unfold len_at, value_at in H. rewrite Hq, Hpa in H.
  rewrite String.eqb_refl in H. discriminate H.
Qed.

Lemma str_filter_ext f g s :
  (forall c, f c = g c) -> str_filter f s = str_filter g s.
Proof.
  intros H. induction s as [|c s IH]; [reflexivity|].
  simpl. rewrite H, IH. reflexivity.
Qed.

Lemma str_filter_all s : str_filter (fun _ => true) s = s.
Proof. induction s as [|c s IH]; [reflexivity|]. simpl. rewrite IH. reflexivity. Qed.

Lemma str_remove_filter d f s :
  str_remove (String d "") (str_filter f s) =
  str_filter (fun c => f c && negb (Ascii.eqb d c)) s.
Proof.
  induction s as [|c s IH]; [reflexivity|].
  cbn [str_filter]. destruct (f c); cbn [andb].
  - rewrite str_remove_single_cons, IH. destruct (Ascii.eqb d c); reflexivity.
  - exact IH.
Qed.

Lemma str_filter_subseq f s : subseq (str_filter f s) s.
Proof.
  induction s as [|c s IH]; [constructor|].
  simpl. destruct (f c); constructor; exact IH.
Qed.

Lemma occurs_str_filter f s c : occurs c (str_filter f s) = occurs c s && f c.
Proof.
  induction s as [|x s IH]; [reflexivity|].
  simpl. destruct (f x) eqn:Fx; simpl; rewrite IH.
  - destruct (Ascii.eqb c x) eqn:E; simpl; [|reflexivity].
    apply Ascii.eqb_eq in E. subst x. rewrite Fx. destruct (occurs c s); reflexivity.
  - destruct (Ascii.eqb c x) eqn:E; simpl; [|reflexivity].
    apply Ascii.eqb_eq in E. subst x. rewrite Fx. destruct (occurs c s); reflexivity.
Qed.

Lemma mem_cons q x l : mem q (x :: l) = String.eqb q x || mem q l.
Proof. reflexivity. Qed.

Lemma mem_single x q : mem x [q] = String.eqb x q.
Proof. unfold mem. simpl. apply orb_false_r. Qed.

Lemma existsb_snoc_mem (g : string -> bool) done q l :
  existsb (fun x => mem x (done ++ [q]) && g x) l =
  existsb (fun x => mem x done && g x) l || (mem q l && g q).
Proof.
  induction l as [|x l IH]; [reflexivity|].
  cbn [existsb]. rewrite IH, mem_app, mem_single, mem_cons.
  destruct (String.eqb x q) eqn:E.
  - apply String.eqb_eq in E. subst x. rewrite String.eqb_refl.
    destruct (mem q done), (g q), (mem q l),
      (existsb (fun x => mem x done && g x) l); reflexivity.
  - rewrite String.eqb_sym, E.
    destruct (mem x done), (g x), (g q), (mem q l),
      (existsb (fun x => mem x done && g x) l); reflexivity.
Qed.

Lemma existsb_ext_in {A} (f g : A -> bool) l :
  (forall x, In x l -> f x = g x) -> existsb f l = existsb g l.
Proof.
  induction l as [|x l IH]; intros H; [reflexivity|].
  simpl. rewrite (H x (or_introl eq_refl)), IH; [reflexivity|].
  intros y Hy. apply H. right. exact Hy.
Qed.

Lemma value_at_fixed V q c :
  value_at V q = String c "" -> dict_get V q = Some (String c "").
Proof. unfold value_at. destruct (dict_get V q); [congruence|discriminate]. Qed.

Lemma taken_by_nil V p c : taken_by [] V p c = false.
Proof.
  unfold taken_by. induction (peers_at p) as [|q l IH]; [reflexivity|exact IH].
Qed.

Lemma taken_by_all V p c :
  wf V -> taken_by (keys_with_len 1 V) V p c = taken V p c.
Proof.
  intros Hwf. unfold taken_by, taken. apply existsb_ext_in. intros q _.
  destruct (String.eqb (value_at V q) (String c "")) eqn:E;
    [|apply andb_false_r].
  apply String.eqb_eq in E. apply value_at_fixed in E.
  rewrite andb_true_r. apply mem_In.
  apply keys_with_len_In; [apply wf_NoDup; exact Hwf|].
  exists (String c ""). split; [exact E|reflexivity].
Qed.

Lemma Cons_not_taken V done q d :
  Cons V -> dict_get V q = Some (String d "") -> taken_by done V q d = false.
Proof.
  intros HC Hq. unfold taken_by.
  destruct (existsb _ (peers_at q)) eqn:E; [|reflexivity].
  apply existsb_exists in E. destruct E as (p & Hp & Hb).
  apply andb_true_iff in Hb. destruct Hb as [_ Hb].
  apply String.eqb_eq in Hb. apply value_at_fixed in Hb.
  exfalso. exact (HC q p d Hq Hp Hb).
Qed.

(** X20: the exact effect of [eliminate] on a board in which no two peers
    are fixed to the same digit.  Every box keeps its place and loses
    exactly the digits its peers were fixed to when [eliminate] was called:
    no other digit goes, fixed boxes stay as they are, and the result does
    not depend on the order in which the peers are visited. *)
Theorem eliminate_exact V s :
  wf V -> Cons V ->
  exists V' s',
    eliminate V s = (Ok V', s') /\ dict_keys V' = boxes /\
    forall p v, dict_get V p = Some v ->
      dict_get V' p = Some (str_filter (fun c => negb (taken V p c)) v) /\
      (String.length v = 1 -> dict_get V' p = Some v).
Proof.
  intros Hwf HC. unfold eliminate.
  match goal with |- context [foldM ?f _ _] => set (body := f) end.
  destruct (foldM_total
              (fun done W (_ : state) =>
                 wf W /\ forall p v, dict_get V p = Some v ->
                   dict_get W p =
                   Some (str_filter (fun c => negb (taken_by done V p c)) v))
              body (keys_with_len 1 V)) with (a := V) (s := s)
    as (V' & s' & E & HwfV' & HV').
  - intros done q rest W s0 Hl [HwfW HW].
    assert (Hqin : In q (keys_with_len 1 V)).
    { rewrite Hl. apply in_or_app. right. left. reflexivity. }
    apply keys_with_len_In in Hqin; [|apply wf_NoDup; exact Hwf].
    destruct Hqin as (vq & Hvq & Hlen). destruct (length_one _ Hlen) as (d & ->).
    assert (Hqb : In q boxes) by (eapply wf_get_In; eauto).
    assert (HWq : dict_get W q = Some (String d "")).
    { rewrite (HW q _ Hvq). cbn [str_filter].
      rewrite (Cons_not_taken V done q d HC Hvq). reflexivity. }
    unfold body.
    rewrite (bind_Ok _ _ _ _ _ (getitem_Ok _ _ _ _ HWq)).
    rewrite (bind_Ok _ _ _ _ _ (getitem_Ok _ _ _ _ (peers_defined q Hqb))).
    destruct (sweep_exact (str_remove (String d "")) (peers_at q) W s0 HwfW
                (peers_NoDup q Hqb))
      as (W' & s1 & E1 & HwfW' & HW').
    { intros p Hp. destruct (peers_facts q p Hqb Hp) as (_ & H & _). exact H. }
    exists W', s1. split; [exact E1|]. split; [exact HwfW'|].
    intros p v Hv. rewrite HW', (HW p v Hv).
    assert (Hpb : In p boxes) by exact (wf_get_In _ _ _ Hwf Hv).
    destruct (mem p (peers_at q)) eqn:Hm.
    + cbn [option_map]. rewrite str_remove_filter. f_equal.
      apply str_filter_ext. intros c. unfold taken_by. rewrite existsb_snoc_mem.
      apply mem_In in Hm. destruct (peers_facts q p Hqb Hm) as (_ & _ & Hsym).
      apply mem_In in Hsym. rewrite Hsym. cbn [andb].
      assert (Hval : value_at V q = String d "")
        by (unfold value_at; rewrite Hvq; reflexivity).
      rewrite Hval. cbn [String.eqb]. rewrite negb_orb.
      destruct (Ascii.eqb d c); reflexivity.
    + f_equal. apply str_filter_ext. intros c. unfold taken_by.
      rewrite existsb_snoc_mem.
      assert (Hq' : mem q (peers_at p) = false).
      { destruct (mem q (peers_at p)) eqn:Hq'; [|reflexivity].
        apply mem_In in Hq'. destruct (peers_facts p q Hpb Hq') as (_ & _ & Hsym).
        apply mem_In in Hsym. congruence. }
      rewrite Hq'. cbn [andb]. rewrite orb_false_r. reflexivity.
  - split; [exact Hwf|]. intros p v Hv. rewrite Hv. f_equal.
    rewrite (str_filter_ext _ (fun _ => true)); [symmetry; apply str_filter_all|].
    intros c. rewrite taken_by_nil. reflexivity.
  - exists V', s'. split; [exact E|]. split; [exact HwfV'|].
    intros p v Hv.
    assert (Hp : dict_get V' p = Some (str_filter (fun c => negb (taken V p c)) v)).
    { rewrite (HV' p v Hv). f_equal. apply str_filter_ext. intros c.
      rewrite taken_by_all; [reflexivity|exact Hwf]. }
    split; [exact Hp|]. intros Hlen. rewrite Hp.
    destruct (length_one _ Hlen) as (d & ->). cbn [str_filter].
    rewrite <- (taken_by_all V p d Hwf), (Cons_not_taken V _ p d HC Hv). reflexivity.
Qed.

Lemma eliminate_exact_witness :
  (wf (initial_board diag_sudoku_grid) /\ Cons (initial_board diag_sudoku_grid)) /\
  exists V' s',
    eliminate (initial_board diag_sudoku_grid) init_state = (Ok V', s') /\
    dict_keys V' = boxes /\
    forall p v, dict_get (initial_board diag_sudoku_grid) p = Some v ->
      dict_get V' p =
      Some (str_filter (fun c => negb (taken (initial_board diag_sudoku_grid) p c)) v) /\
      (String.length v = 1 -> dict_get V' p = Some v).
Proof.
  assert (Hwf : wf (initial_board diag_sudoku_grid)) by reflexivity.
  assert (HC : Cons (initial_board diag_sudoku_grid))
    by (apply consb_ok; vm_compute; reflexivity).
  split; [split; [exact Hwf|exact HC]|].
  exact (eliminate_exact (initial_board diag_sudoku_grid) init_state Hwf HC).
Defined.


(** ** [naked_twins], end to end *)

Lemma sandwich W2 W V k v :
  shrinks W2 W -> shrinks W V ->
  dict_get V k = Some v -> dict_get W2 k = Some v -> dict_get W k = Some v.
Proof.
  intros H2 H1 HV HW2.
  destruct (shrinks_get _ _ _ _ H1 HV) as (w & Hw & Hsub).
  destruct (shrinks_get _ _ _ _ H2 Hw) as (w2 & Hw2 & Hsub2).
  assert (w2 = v) by congruence. subst w2. rewrite Hw. f_equal.
  apply subseq_length_eq; [exact Hsub|].
  apply subseq_length in Hsub, Hsub2. lia.
Qed.

Lemma twins_done_shrinks V W W2 b1 b2 :
  shrinks W V -> shrinks W2 W -> twins_done V W b1 b2 -> twins_done V W2 b1 b2.
Proof.
  intros H1 H2 HD a b p HV1 HV2 HW1 HW2 Hp1 Hp2.
  destruct (HD a b p HV1 HV2 (sandwich _ _ _ _ _ H2 H1 HV1 HW1)
              (sandwich _ _ _ _ _ H2 H1 HV2 HW2) Hp1 Hp2) as (w & Hw & Ha & Hb).
  destruct (shrinks_get _ _ _ _ H2 Hw) as (w2 & Hw2 & Hsub).
  exists w2. split; [exact Hw2|].
  split; eapply subseq_occurs_false; eauto.
Qed.

Lemma strip_clears a b w : occurs a (strip a b w) = false /\ occurs b (strip a b w) = false.
Proof.
  unfold strip. split.
  - eapply subseq_occurs_false; [apply str_remove_subseq|apply occurs_str_remove].
  - apply occurs_str_remove.
Qed.

(** One twin, on a board [W2] reached from the board [Wc] it was detected
    on: the step returns a smaller board on which the twin is done. *)
Lemma twin_step_done V Wc W2 u b1 b2 s2 :
  In u unitlist -> shrinks Wc V -> wf W2 -> shrinks W2 Wc ->
  In (b1, b2) (filter (twin_cond Wc) (unit_pairs u)) ->
  exists W3 s3, twin_step W2 (b1, b2) s2 = (Ok W3, s3) /\
                wf W3 /\ shrinks W3 W2 /\ twins_done V W3 b1 b2.
Proof.
  intros Hu HcV Hwf2 H2c Hin.
  apply twins_detected in Hin. destruct Hin as (H1 & H2 & _ & a0 & b0 & Hc1 & _).
  pose proof (unit_in_boxes _ _ Hu H1) as Hb1.
  pose proof (unit_in_boxes _ _ Hu H2) as Hb2.
  destruct (shrinks_get _ _ _ _ H2c Hc1) as (v & Hv & Hsub).
  assert (Hlen : String.length v <= 2) by (apply subseq_length in Hsub; exact Hsub).
  destruct (twin_step_spec W2 b1 b2 v s2 Hwf2 Hb1 Hb2 Hv Hlen) as (W3 & s3 & E & A).
  exists W3, s3. split; [exact E|]. split; [eapply asteps_wf; eauto|].
  split; [eapply asteps_shrinks; eauto|].
  intros a b p HV1 HV2 HW1 HW2 Hp1 Hp2.
  destruct (Nat.lt_ge_cases (String.length v) 2) as [Hlt|Hge].
  - rewrite (twin_step_skip W2 b1 b2 v s2 Hv Hlt) in E. injection E as <- <-.
    rewrite Hv in HW1. injection HW1 as ->. simpl in Hlt. lia.
  - assert (v = String a0 (String b0 "")).
    { apply subseq_length_eq; [exact Hsub|]. simpl in *. lia. }
    subst v.
    destruct (twin_step_exact W2 b1 b2 a0 b0 s2 Hwf2 Hb1 Hb2 Hv) as (W3' & s3' & E' & HX).
    rewrite E in E'. injection E' as <- <-.
    assert (Hm1 : mem b1 (peers_at b1) = false) by (apply mem_false, peers_irrefl; exact Hb1).
    pose proof (HX b1) as Hx1. rewrite Hm1 in Hx1. cbn [andb] in Hx1.
    rewrite HW1, Hv in Hx1. injection Hx1 as -> ->.
    destruct (peers_facts b1 p Hb1 Hp1) as (_ & Hpb & _).
    destruct (wf_get _ _ Hwf2 Hpb) as (w & Hw).
    exists (strip a0 b0 w). split; [|apply strip_clears].
    rewrite (HX p), Hw.
    apply mem_In in Hp1, Hp2. rewrite Hp1, Hp2. reflexivity.
Qed.

(** The scan of one unit: every twin detected at its start is done at its
    end. *)
Lemma twin_scan_done V Wc u sc :
  In u unitlist -> wf Wc -> shrinks Wc V ->
  exists W s', foldM twin_step (filter (twin_cond Wc) (unit_pairs u)) Wc sc = (Ok W, s') /\
    wf W /\ shrinks W Wc /\
    forall b1 b2, In (b1, b2) (filter (twin_cond Wc) (unit_pairs u)) ->
                  twins_done V W b1 b2.
Proof.
  intros Hu Hwfc HcV.
  destruct (foldM_total
              (fun done W2 (_ : state) =>
                 wf W2 /\ shrinks W2 Wc /\
                 forall b1 b2, In (b1, b2) done -> twins_done V W2 b1 b2)
              twin_step (filter (twin_cond Wc) (unit_pairs u)))
    with (a := Wc) (s := sc) as (W & s' & E & HwfW & HW & HD).
  - intros done [b1 b2] rest W2 s2 Hl (Hwf2 & H2c & HD).
    assert (Hin : In (b1, b2) (filter (twin_cond Wc) (unit_pairs u))).
    { rewrite Hl. apply in_or_app. right. left. reflexivity. }
    destruct (twin_step_done V Wc W2 u b1 b2 s2 Hu HcV Hwf2 H2c Hin)
      as (W3 & s3 & E3 & Hwf3 & H32 & HD3).
    exists W3, s3. split; [exact E3|]. split; [exact Hwf3|].
    split; [eapply shrinks_trans; eauto|].
    intros c1 c2 Hc. apply in_app_or in Hc. destruct Hc as [Hc|[Hc|[]]].
    + apply (twins_done_shrinks V W2 W3); [eapply shrinks_trans; eauto|exact H32|].
      apply HD. exact Hc.
    + injection Hc as <- <-. exact HD3.
  - split; [exact Hwfc|]. split; [apply shrinks_refl|]. intros b1 b2 [].
  - exists W, s'. split; [exact E|]. split; [exact HwfW|]. split; [exact HW|exact HD].
Qed.

Lemma foldM_agree {A X} (I : A -> Prop) (f g : A -> X -> M A) l :
  (forall x a s, In x l -> I a -> f a x s = g a x s) ->
  (forall x a s a' s', In x l -> I a -> f a x s = (Ok a', s') -> I a') ->
  forall a s, I a -> foldM f l a s = foldM g l a s.
Proof.
  induction l as [|x l IH]; intros Hfg HI a s Ha; [reflexivity|].
  cbn [foldM]. unfold bind.
  rewrite <- (Hfg x a s (or_introl eq_refl) Ha).
  destruct (f a x s) as [[a'|e|] s1] eqn:E; try reflexivity.
  apply IH.
  - intros y b t Hy Hb. apply Hfg; [right; exact Hy|exact Hb].
  - intros y b t b' t' Hy Hb. apply HI; [right; exact Hy|exact Hb].
  - eapply HI; [left; reflexivity|exact Ha|exact E].
Qed.

Lemma ltb_cases b1 b2 : b1 <> b2 -> String.ltb b1 b2 = true \/ String.ltb b2 b1 = true.
Proof.
  intros Hne. destruct (String.ltb b1 b2) eqn:E1; [left; reflexivity|].
  destruct (String.ltb b2 b1) eqn:E2; [right; reflexivity|].
  exfalso. apply Hne. apply ltb_total; assumption.
Qed.

(** [naked_twins] as a whole: it is the scan of the units in the order of
    [unitlist], each scan running [twin_step] over the twins detected on
    the board the scan starts with; and every twin of the input that is
    still whole in the output is done there. *)
Lemma naked_twins_run W s :
  wf W ->
  exists W' s',
    naked_twins W s = (Ok W', s') /\
    foldM (fun values u =>
             foldM twin_step (filter (twin_cond values) (unit_pairs u)) values)
          unitlist W s = (Ok W', s') /\
    shrinks W' W /\
    forall u b1 b2 a b p,
      In u unitlist -> In b1 u -> In b2 u -> b1 <> b2 ->
      dict_get W b1 = Some (String a (String b "")) ->
      dict_get W b2 = Some (String a (String b "")) ->
      dict_get W' b1 = Some (String a (String b "")) ->
      dict_get W' b2 = Some (String a (String b "")) ->
      In p (peers_at b1) -> In p (peers_at b2) ->
      exists w, dict_get W' p = Some w /\ occurs a w = false /\ occurs b w = false.
Proof.
  intros Hwf.
  set (body := fun values unit => twins <- twins_of values unit ;; foldM twin_step twins values).
  set (scan := fun values u =>
                 foldM twin_step (filter (twin_cond values) (unit_pairs u)) values).
  assert (Hbody : forall u Wc sc, In u unitlist -> wf Wc -> body Wc u sc = scan Wc u sc).
  { intros u Wc sc Hu Hwfc. unfold body, scan.
    rewrite (bind_Ok _ _ _ _ _ (twins_of_total _ _ _ Hwfc Hu)). reflexivity. }
  destruct (foldM_total
              (fun done Wc (_ : state) =>
                 wf Wc /\ shrinks Wc W /\
                 forall u b1 b2, In u done -> In b1 u -> In b2 u ->
                                 String.ltb b1 b2 = true -> twins_done W Wc b1 b2)
              body unitlist) with (a := W) (s := s) as (W' & s' & E & HwfW' & HW' & HD).
  - intros done u rest Wc sc Hl (Hwfc & HcW & HD).
    assert (Hu : In u unitlist).
    { rewrite Hl. apply in_or_app. right. left. reflexivity. }
    rewrite (Hbody u Wc sc Hu Hwfc). unfold scan.
    destruct (twin_scan_done W Wc u sc Hu Hwfc HcW) as (W1 & s1 & E1 & Hwf1 & H1c & HD1).
    exists W1, s1. split; [exact E1|]. split; [exact Hwf1|].
    split; [eapply shrinks_trans; eauto|].
    intros u' b1 b2 Hu' Hb1 Hb2 Hlt. apply in_app_or in Hu'.
    destruct Hu' as [Hu'|[<-|[]]].
    + apply (twins_done_shrinks W Wc W1 b1 b2 HcW H1c). apply (HD u'); assumption.
    + intros a b p HV1 HV2 HW1 HW2 Hp1 Hp2.
      assert (Hin : In (b1, b2) (filter (twin_cond Wc) (unit_pairs u))).
      { apply twins_detected. split; [exact Hb1|]. split; [exact Hb2|].
        split; [exact Hlt|]. exists a, b.
        split; [exact (sandwich _ _ _ _ _ H1c HcW HV1 HW1)
               |exact (sandwich _ _ _ _ _ H1c HcW HV2 HW2)]. }
      exact (HD1 b1 b2 Hin a b p HV1 HV2 HW1 HW2 Hp1 Hp2).
  - split; [exact Hwf|]. split; [apply shrinks_refl|]. intros u b1 b2 [].
  - exists W', s'.
    assert (En : naked_twins W s = (Ok W', s')) by exact E.
    split; [exact En|]. split.
    + rewrite <- E. symmetry. apply (foldM_agree wf body scan unitlist).
      * intros u Wc sc Hu Hwfc. apply Hbody; assumption.
      * intros u Wc sc Wc' sc' Hu Hwfc Eb. rewrite (Hbody u Wc sc Hu Hwfc) in Eb.
        unfold scan in Eb.
        destruct (twin_scan_done Wc Wc u sc Hu Hwfc (shrinks_refl Wc))
          as (W1 & s1 & E1 & Hwf1 & _).
        rewrite E1 in Eb. injection Eb as <- <-. exact Hwf1.
      * exact Hwf.
    + split; [exact HW'|].
      intros u b1 b2 a b p Hu Hb1 Hb2 Hne HV1 HV2 HW1 HW2 Hp1 Hp2.
      destruct (ltb_cases b1 b2 Hne) as [Hlt|Hlt].
      * exact (HD u b1 b2 Hu Hb1 Hb2 Hlt a b p HV1 HV2 HW1 HW2 Hp1 Hp2).
      * exact (HD u b2 b1 Hu Hb2 Hb1 Hlt a b p HV2 HV1 HW2 HW1 Hp2 Hp1).
Qed.

(** C4: [naked_twins] raises no exception and returns the board obtained by
    scanning the units in the order of [unitlist]: each scan detects its
    twins on the board it starts with and runs the twin step over them in
    order.  The twins detected in a scan are exactly the pairs of boxes of
    the unit, in increasing name order, that hold the same two-character
    string.  A twin whose first member has fewer than two candidates left
    when its turn comes is skipped, leaving board and record as they are;
    otherwise its two digits are removed from every box that is a peer of
    both members and from no other box, the members themselves never being
    among these.  On the board returned, every pair of distinct boxes of a
    unit that held the same two digits on entry and still holds them has
    neither digit left in any box that is a peer of both. *)
Theorem naked_twins_pairs W unit s :
  wf W -> In unit unitlist ->
  (exists W' s',
     naked_twins W s = (Ok W', s') /\
     foldM (fun values u =>
              foldM twin_step (filter (twin_cond values) (unit_pairs u)) values)
           unitlist W s = (Ok W', s') /\
     shrinks W' W /\
     forall u b1 b2 a b p,
       In u unitlist -> In b1 u -> In b2 u -> b1 <> b2 ->
       dict_get W b1 = Some (String a (String b "")) ->
       dict_get W b2 = Some (String a (String b "")) ->
       dict_get W' b1 = Some (String a (String b "")) ->
       dict_get W' b2 = Some (String a (String b "")) ->
       In p (peers_at b1) -> In p (peers_at b2) ->
       exists w, dict_get W' p = Some w /\ occurs a w = false /\ occurs b w = false) /\
  exists twins,
    twins = filter (twin_cond W) (unit_pairs unit) /\
    twins_of W unit s = (Ok twins, s) /\
    (forall b1 b2,
       In (b1, b2) twins <->
       In b1 unit /\ In b2 unit /\ String.ltb b1 b2 = true /\
       exists a b, dict_get W b1 = Some (String a (String b "")) /\
                   dict_get W b2 = Some (String a (String b ""))) /\
    (forall b1 b2 W2 s2,
       In (b1, b2) twins -> wf W2 -> shrinks W2 W ->
       exists W' s', twin_step W2 (b1, b2) s2 = (Ok W', s') /\
         (forall v, dict_get W2 b1 = Some v -> String.length v < 2 ->
                    W' = W2 /\ s' = s2) /\
         (forall a b, dict_get W2 b1 = Some (String a (String b "")) ->
            forall k, dict_get W' k =
                      if mem k (peers_at b1) && mem k (peers_at b2)
                      then option_map (strip a b) (dict_get W2 k)
                      else dict_get W2 k) /\
         mem b1 (peers_at b1) = false /\ mem b2 (peers_at b2) = false).
Proof.
  intros Hwf Hu. split; [exact (naked_twins_run W s Hwf)|].
  exists (filter (twin_cond W) (unit_pairs unit)).
  split; [reflexivity|].
  split; [apply twins_of_total; auto|]. split; [apply twins_detected|].
  intros b1 b2 W2 s2 Hin Hwf2 HS.
  apply twins_detected in Hin.
  destruct Hin as (H1 & H2 & _ & a & b & Hv1 & _).
  pose proof (unit_in_boxes _ _ Hu H1) as Hb1.
  pose proof (unit_in_boxes _ _ Hu H2) as Hb2.
  destruct (shrinks_get _ _ _ _ HS Hv1) as (v & Hv & Hsub).
  assert (Hm : mem b1 (peers_at b1) = false /\ mem b2 (peers_at b2) = false).
  { split; apply mem_false; apply peers_irrefl; auto. }
  destruct (Nat.lt_ge_cases (String.length v) 2) as [Hlt|Hge].
  - exists W2, s2. split; [eapply twin_step_skip; eauto|].
    split; [auto|]. split; [|exact Hm].
    intros a' b' Hv'. rewrite Hv in Hv'. injection Hv' as ->. simpl in Hlt. lia.
  - assert (v = String a (String b "")).
    { apply subseq_length_eq; auto. apply subseq_length in Hsub. simpl in *. lia. }
    subst v.
    destruct (twin_step_exact W2 b1 b2 a b s2 Hwf2 Hb1 Hb2 Hv) as (W' & s' & E & HX).
    exists W', s'. split; [exact E|]. split.
    + intros v Hv' Hl. rewrite Hv in Hv'. injection Hv' as <-. simpl in Hl. lia.
    + split; [|exact Hm]. intros a' b' Hv'. rewrite Hv in Hv'.
      injection Hv' as <- <-. exact HX.
Qed.

Lemma naked_twins_pairs_witness :
  (wf twin_pair_board /\ In (cross "A" cols) unitlist) /\
  (exists W' s',
     naked_twins twin_pair_board init_state = (Ok W', s') /\
     foldM (fun values u =>
              foldM twin_step (filter (twin_cond values) (unit_pairs u)) values)
           unitlist twin_pair_board init_state = (Ok W', s') /\
     shrinks W' twin_pair_board /\
     forall u b1 b2 a b p,
       In u unitlist -> In b1 u -> In b2 u -> b1 <> b2 ->
       dict_get twin_pair_board b1 = Some (String a (String b "")) ->
       dict_get twin_pair_board b2 = Some (String a (String b "")) ->
       dict_get W' b1 = Some (String a (String b "")) ->
       dict_get W' b2 = Some (String a (String b "")) ->
       In p (peers_at b1) -> In p (peers_at b2) ->
       exists w, dict_get W' p = Some w /\ occurs a w = false /\ occurs b w = false) /\
  exists twins,
    twins = filter (twin_cond twin_pair_board) (unit_pairs (cross "A" cols)) /\
    twins_of twin_pair_board (cross "A" cols) init_state = (Ok twins, init_state) /\
    (forall b1 b2,
       In (b1, b2) twins <->
       In b1 (cross "A" cols) /\ In b2 (cross "A" cols) /\ String.ltb b1 b2 = true /\
       exists a b, dict_get twin_pair_board b1 = Some (String a (String b "")) /\
                   dict_get twin_pair_board b2 = Some (String a (String b ""))) /\
    (forall b1 b2 W2 s2,
       In (b1, b2) twins -> wf W2 -> shrinks W2 twin_pair_board ->
       exists W' s', twin_step W2 (b1, b2) s2 = (Ok W', s') /\
         (forall v, dict_get W2 b1 = Some v -> String.length v < 2 ->
                    W' = W2 /\ s' = s2) /\
         (forall a b, dict_get W2 b1 = Some (String a (String b "")) ->
            forall k, dict_get W' k =
                      if mem k (peers_at b1) && mem k (peers_at b2)
                      then option_map (strip a b) (dict_get W2 k)
                      else dict_get W2 k) /\
         mem b1 (peers_at b1) = false /\ mem b2 (peers_at b2) = false).
Proof.
  assert (Hwf : wf twin_pair_board) by reflexivity.
  assert (Hu : In (cross "A" cols) unitlist) by (left; reflexivity).
  split; [split; [exact Hwf|exact Hu]|].
  exact (naked_twins_pairs twin_pair_board (cross "A" cols) init_state Hwf Hu).
Defined.

(** On [twin_pair_board] the twin (A1, A2) of row A is detected; [naked_twins]
    removes 1 and 2 from the other boxes of row A and of the top-left
    square, and leaves alone the twin itself and D1, a peer of A1 only. *)
Example twin_pair_run :
  twins_of twin_pair_board (cross "A" cols) init_state = (Ok [("A1", "A2")], init_state) /\
  exists W' s',
    naked_twins twin_pair_board init_state = (Ok W', s') /\
    dict_get W' "A1" = Some "12" /\ dict_get W' "A2" = Some "12" /\
    dict_get W' "A3" = Some "3456789" /\ dict_get W' "A9" = Some "3456789" /\
    dict_get W' "B1" = Some "3456789" /\ dict_get W' "C3" = Some "3456789" /\
    dict_get twin_pair_board "D1" = Some "123456789" /\
    dict_get W' "D1" = Some "123456789".
Proof.
  split; [vm_compute; reflexivity|].
  exists (match fst (naked_twins twin_pair_board init_state) with Ok b => b | _ => [] end),
         (snd (naked_twins twin_pair_board init_state)).
  repeat split; vm_compute; reflexivity.
Qed.
